(** * BackTesting-Framework: signal generation, equity curve and metrics

    A shallow embedding of

      - [strategies/strategy1.py] and [strategies/strategy4.py]
        ([generate_signals]: indicators, the buy/sell state machine and the
        lag-one equity curve),
      - [backtest.py] ([calculate_metrics]: the "no trades" guard, the
        performance figures and the trade ledger),
      - [debug_backtest.py] ([check_signal_integrity]),

    followed by the properties the specification states about them.

    Numbers.  The price and equity columns are [float64].  The code is
    embedded once, over an interface [Float64] of the arithmetic it uses, and
    the interface is given two readings:

      - [float], Rocq's primitive IEEE-754 binary64 numbers: the arithmetic
        the program really runs, used to evaluate the code on concrete tables;
      - [xreal], the real numbers extended with [+inf], [-inf] and [NaN],
        with the IEEE rules for the special values and no rounding: used for
        the properties that are statements of real arithmetic.

    Properties of the control structure are proved for every reading.
    The [Signal] column is [int64] and is embedded as [Z]; dates are embedded
    as day numbers in [Z]. *)

From Stdlib Require Import ZArith Reals Lra Lia Floats.
From stdpp Require Import base tactics option list sorting.

(** ** The arithmetic interface *)

Class Float64 (F : Type) := {
  fnan : F;                      (* float('nan') / a missing value *)
  finf : F;                      (* float('inf') *)
  fofZ : Z → F;                  (* an integer literal or an int converted *)
  fadd : F → F → F;
  fsub : F → F → F;
  fmul : F → F → F;
  fdiv : F → F → F;              (* numpy division: never raises *)
  fsqrt : F → F;
  fabs : F → F;
  feqb : F → F → bool;           (* == ; False on NaN *)
  fltb : F → F → bool;           (* <  ; False on NaN *)
  fleb : F → F → bool;           (* <= ; False on NaN *)
  fisnan : F → bool
}.

Declare Scope f64_scope.
Delimit Scope f64_scope with fl.
Notation "x + y" := (fadd x y) : f64_scope.
Notation "x - y" := (fsub x y) : f64_scope.
Notation "x * y" := (fmul x y) : f64_scope.
Notation "x / y" := (fdiv x y) : f64_scope.
Notation "x =? y" := (feqb x y) : f64_scope.
Notation "x <? y" := (fltb x y) : f64_scope.
Notation "x <=? y" := (fleb x y) : f64_scope.
Notation "x >? y" := (fltb y x) : f64_scope.
Notation "x !=? y" := (negb (feqb x y)) (at level 70) : f64_scope.

(** The facts about the arithmetic that the control-flow properties need.
    Both readings satisfy them. *)
Class Float64Laws (F : Type) `{Float64 F} : Prop := {
  fisnan_fnan : fisnan fnan = true;
  (* abs(0) != 0 is False *)
  fabs_zero_eqb : (fabs (fofZ 0) =? fofZ 0)%fl = true;
  (* low <= close <= high == low leaves (close - low) / (high - low)
     undefined *)
  fdiv_degenerate_range l c h :
    (h =? l)%fl = true → (l <=? c)%fl = true → (c <=? h)%fl = true →
    fisnan ((c - l) / (h - l))%fl = true
}.

(** *** Reading 1: IEEE-754 binary64 *)

(** An integer as a double, through the 63-bit integers: the value itself
    up to 2^53 in absolute value, which covers every literal of the code. *)
Definition float_of_Z (z : Z) : float :=
  match z with
  | Z0 => PrimFloat.zero
  | Zpos _ => PrimFloat.of_uint63 (Uint63.of_Z z)
  | Zneg p => PrimFloat.opp (PrimFloat.of_uint63 (Uint63.of_Z (Zpos p)))
  end.

#[export] Instance float_Float64 : Float64 float := {|
  fnan := PrimFloat.nan;
  finf := PrimFloat.infinity;
  fofZ := float_of_Z;
  fadd := PrimFloat.add;
  fsub := PrimFloat.sub;
  fmul := PrimFloat.mul;
  fdiv := PrimFloat.div;
  fsqrt := PrimFloat.sqrt;
  fabs := PrimFloat.abs;
  feqb := PrimFloat.eqb;
  fltb := PrimFloat.ltb;
  fleb := PrimFloat.leb;
  fisnan := PrimFloat.is_nan
|}.

(** *** Reading 2: extended reals, no rounding *)

Inductive xreal : Type :=
| Fin (r : R)
| PInf
| NInf
| NaN.

Definition Rltb (x y : R) : bool := if Rlt_dec x y then true else false.
Definition Reqb (x y : R) : bool := if Req_dec_T x y then true else false.

(** The infinity with the sign of [r] ([+inf] for [0]: zero is unsigned
    here). *)
Definition xinf_sign (r : R) : xreal := if Rltb r 0 then NInf else PInf.

Definition xadd (x y : xreal) : xreal :=
  match x, y with
  | NaN, _ | _, NaN => NaN
  | Fin a, Fin b => Fin (a + b)
  | PInf, NInf | NInf, PInf => NaN
  | PInf, _ | _, PInf => PInf
  | NInf, _ | _, NInf => NInf
  end.

Definition xopp (x : xreal) : xreal :=
  match x with
  | Fin a => Fin (- a)
  | PInf => NInf
  | NInf => PInf
  | NaN => NaN
  end.

Definition xsub (x y : xreal) : xreal := xadd x (xopp y).

Definition xmul_inf (r : R) (pos : bool) : xreal :=
  if Reqb r 0 then NaN
  else if Bool.eqb (Rltb r 0) pos then NInf else PInf.

Definition xmul (x y : xreal) : xreal :=
  match x, y with
  | NaN, _ | _, NaN => NaN
  | Fin a, Fin b => Fin (a * b)
  | Fin a, PInf | PInf, Fin a => xmul_inf a true
  | Fin a, NInf | NInf, Fin a => xmul_inf a false
  | PInf, PInf | NInf, NInf => PInf
  | PInf, NInf | NInf, PInf => NInf
  end.

Definition xdiv (x y : xreal) : xreal :=
  match x, y with
  | NaN, _ | _, NaN => NaN
  | Fin a, Fin b =>
      if Reqb b 0 then (if Reqb a 0 then NaN else xinf_sign a)
      else Fin (a / b)
  | Fin _, (PInf | NInf) => Fin 0
  | PInf, Fin b => xinf_sign b
  | NInf, Fin b => xopp (xinf_sign b)
  | (PInf | NInf), (PInf | NInf) => NaN
  end.

Definition xsqrt (x : xreal) : xreal :=
  match x with
  | Fin a => if Rltb a 0 then NaN else Fin (R_sqrt.sqrt a)
  | PInf => PInf
  | NInf | NaN => NaN
  end.

Definition xabs (x : xreal) : xreal :=
  match x with
  | Fin a => Fin (Rabs a)
  | PInf | NInf => PInf
  | NaN => NaN
  end.

Definition xeqb (x y : xreal) : bool :=
  match x, y with
  | Fin a, Fin b => Reqb a b
  | PInf, PInf | NInf, NInf => true
  | _, _ => false
  end.

Definition xltb (x y : xreal) : bool :=
  match x, y with
  | NaN, _ | _, NaN => false
  | Fin a, Fin b => Rltb a b
  | NInf, (Fin _ | PInf) => true
  | Fin _, PInf => true
  | _, _ => false
  end.

Definition xleb (x y : xreal) : bool := xltb x y || xeqb x y.

Definition xisnan (x : xreal) : bool :=
  match x with NaN => true | _ => false end.

#[export] Instance xreal_Float64 : Float64 xreal := {|
  fnan := NaN;
  finf := PInf;
  fofZ := λ z, Fin (IZR z);
  fadd := xadd;
  fsub := xsub;
  fmul := xmul;
  fdiv := xdiv;
  fsqrt := xsqrt;
  fabs := xabs;
  feqb := xeqb;
  fltb := xltb;
  fleb := xleb;
  fisnan := xisnan
|}.

(** ** Python exceptions *)

Inductive exn : Type := ZeroDivisionError | IndexError.

Inductive result (A : Type) : Type :=
| Raise (e : exn)
| Return (a : A).
Arguments Raise {A} e.
Arguments Return {A} a.

#[export] Instance result_ret : MRet result := λ A a, Return a.
#[export] Instance result_bind : MBind result := λ A B k m,
  match m with
  | Raise e => Raise e
  | Return a => k a
  end.

(** ** pandas series operations

    A column is a list; [NaN] is pandas' missing value. *)

Section Series.
Context {F : Type} `{Float64 F}.

#[export] Instance F_inhabited : Inhabited F := populate fnan.

(** [s.iloc[i]] for an index in range. *)
Definition iloc {A} `{Inhabited A} (s : list A) (i : nat) : A := s !!! i.

(** [s.shift(1)]: every value moves one row down, the first row is missing. *)
Definition shift1 (s : list F) : list F := take (length s) (fnan :: s).

Definition fsum (s : list F) : F := foldl fadd (fofZ 0) s.

Definition fmax_list (s : list F) : F :=
  match s with
  | [] => fnan
  | x :: r => foldl (λ m y, if (m <? y)%fl then y else m) x r
  end.

Definition fmin_list (s : list F) : F :=
  match s with
  | [] => fnan
  | x :: r => foldl (λ m y, if (y <? m)%fl then y else m) x r
  end.

Definition fmean_list (s : list F) : F :=
  (fsum s / fofZ (Z.of_nat (length s)))%fl.

(** [np.isinf(x)]: plus or minus infinity. *)
Definition fisinf (x : F) : bool := (fabs x =? finf)%fl.

(** [s.rolling(window=w).agg()]: the aggregate of the last [w] rows; missing
    while fewer than [w] rows are there, or when one of them is missing
    ([min_periods] defaults to the window).  pandas replaces infinite values
    by missing ones before it aggregates, so a window that holds an infinity
    is missing too.  pandas evaluates the rolling mean with a compensated
    running sum; up to rounding it is the mean of the window. *)
Definition rolling (w : nat) (agg : list F → F) (s : list F) : list F :=
  imap (λ i _,
    let win := take w (drop (S i - w) s) in
    if (S i <? w)%nat || existsb (λ x, fisnan x || fisinf x) win
    then fnan else agg win) s.

(** Reductions skip missing values ([skipna=True]). *)
Definition dropna_vals (s : list F) : list F :=
  filter (λ x, fisnan x = false) s.

Definition series_sum (s : list F) : F := fsum (dropna_vals s).

Definition series_mean (s : list F) : F := fmean_list (dropna_vals s).

Definition series_min (s : list F) : F := fmin_list (dropna_vals s).

(** [s.std()]: sample standard deviation ([ddof=1]), missing when there are
    not two values. *)
Definition series_std (s : list F) : F :=
  let v := dropna_vals s in
  if (length v <=? 1)%nat then fnan
  else
    let avg := fmean_list v in
    fsqrt (fsum ((λ x, (avg - x) * (avg - x))%fl <$> v)
           / fofZ (Z.of_nat (length v) - 1))%fl.

(** [s.cummax()]: the running maximum; a missing row stays missing and is
    skipped. *)
Fixpoint cummax_from (cur : option F) (s : list F) : list F :=
  match s with
  | [] => []
  | x :: r =>
      if fisnan x then fnan :: cummax_from cur r
      else
        let m := match cur with
                 | None => x
                 | Some c => if (c <? x)%fl then x else c
                 end in
        m :: cummax_from (Some m) r
  end.

Definition cummax (s : list F) : list F := cummax_from None s.

(** [s.pct_change()]: the first row is missing. *)
Definition pct_change (s : list F) : list F :=
  imap (λ i x,
    match i with
    | O => fnan
    | S j => (x / iloc s j - fofZ 1)%fl
    end) s.

Definition fillna (v : F) (s : list F) : list F :=
  (λ x, if fisnan x then v else x) <$> s.

(** [s.diff().fillna(0)] on the integer [Signal] column. *)
Definition diff (s : list Z) : list (option Z) :=
  imap (λ i x,
    match i with
    | O => None
    | S j => Some (x - iloc s j)%Z
    end) s.

Definition fillna_Z (v : Z) (s : list (option Z)) : list Z :=
  default v <$> s.

End Series.

(** ** Tables *)

(** A bar as [utils/get_data.py] delivers it: the [DatetimeIndex] entry and
    the five price and volume columns. *)
Module Bar.
Record t (F : Type) : Type := mk {
  Date : Z;
  Open : F;
  High : F;
  Low : F;
  Close : F;
  Volume : F
}.
Arguments mk {F}.
Arguments Date {F}.
Arguments Open {F}.
Arguments High {F}.
Arguments Low {F}.
Arguments Close {F}.
Arguments Volume {F}.
End Bar.

(** A row of the table [generate_signals] returns,
    [df[["Date", "Close", "Signal", "EquityCurve"]]]. *)
Record Row (F : Type) : Type := mkRow {
  Date : Z;
  Close : F;
  Signal : Z;
  EquityCurve : F
}.
Arguments mkRow {F}.
Arguments Date {F}.
Arguments Close {F}.
Arguments Signal {F}.
Arguments EquityCurve {F}.

(** A row of [trades_df]. [entry_date] starts as [None] in the source. *)
Record Trade (F : Type) : Type := mkTrade {
  Entry_Date : option Z;
  Exit_Date : Z;
  Entry_Price : F;
  Exit_Price : F;
  Return_pct : F
}.
Arguments mkTrade {F}.
Arguments Entry_Date {F}.
Arguments Exit_Date {F}.
Arguments Entry_Price {F}.
Arguments Exit_Price {F}.
Arguments Return_pct {F}.

(** The [metrics] dictionary, before its values are formatted as text. *)
Record Metrics (F : Type) : Type := mkMetrics {
  Total_Trades : nat;
  Total_Return : F;
  CAGR : F;
  Sharpe_Ratio : F;
  Max_Drawdown : F;
  Win_Rate : F;
  Profit_Factor : F;
  Avg_Trade : F;
  Avg_Win : F;
  Avg_Loss : F;
  Volatility : F
}.
Arguments mkMetrics {F}.
Arguments Total_Trades {F}.
Arguments Total_Return {F}.
Arguments CAGR {F}.
Arguments Sharpe_Ratio {F}.
Arguments Max_Drawdown {F}.
Arguments Win_Rate {F}.
Arguments Profit_Factor {F}.
Arguments Avg_Trade {F}.
Arguments Avg_Win {F}.
Arguments Avg_Loss {F}.
Arguments Volatility {F}.

(** ** strategies: the two loops of [generate_signals]

    [strategy1.py] (lines 33-70) and [strategy4.py] (lines 32-67) contain the
    same two loops; strategy1 also assigns an [entry_price] in the first loop
    that is never read. *)

Section Loops.
Context {F : Type} `{Float64 F}.

(** One iteration of
<<
    for i in range(len(df)):
        if not in_position and buy_condition.iloc[i]:
            df.iloc[i, Signal] = 1;  in_position = True
        elif in_position and sell_condition.iloc[i]:
            df.iloc[i, Signal] = -1; in_position = False
        else:
            df.iloc[i, Signal] = 0
>>
    on the state [(in_position, df["Signal"])]. *)
Definition signal_step (buy_condition sell_condition : list bool)
    (st : bool * list Z) (i : nat) : bool * list Z :=
  let '(in_position, Signal) := st in
  if negb in_position && iloc buy_condition i then
    (true, <[i := 1%Z]> Signal)
  else if in_position && iloc sell_condition i then
    (false, <[i := (-1)%Z]> Signal)
  else
    (in_position, <[i := 0%Z]> Signal).

(** [df["Signal"] = 0; in_position = False], then the loop. *)
Definition signal_loop (n : nat) (buy_condition sell_condition : list bool)
    : list Z :=
  (foldl (signal_step buy_condition sell_condition)
         (false, replicate n 0%Z) (seq 0 n)).2.

(** The state of the second loop: [in_position], [entry_price] and the
    [EquityCurve] column. *)
Record equity_state : Type := mkEq {
  in_position : bool;
  entry_price : F;
  equity : list F
}.

(** One iteration of
<<
    for i in range(1, len(df)):
        if df["Signal"].iloc[i-1] == 1:
            in_position = True
            entry_price = df["Close"].iloc[i-1]
            df.iloc[i, EquityCurve] = df["EquityCurve"].iloc[i-1]
        elif df["Signal"].iloc[i-1] == -1 and in_position:
            in_position = False
            exit_price = df["Close"].iloc[i-1]
            pct_change = (exit_price - entry_price) / entry_price
            df.iloc[i, EquityCurve] = df["EquityCurve"].iloc[i-1] * (1 + pct_change)
        else:
            df.iloc[i, EquityCurve] = df["EquityCurve"].iloc[i-1]
>> *)
Definition equity_step (Signal : list Z) (Close : list F)
    (st : equity_state) (i : nat) : equity_state :=
  if (iloc Signal (i - 1) =? 1)%Z then
    {| in_position := true;
       entry_price := iloc Close (i - 1);
       equity := <[i := iloc (equity st) (i - 1)]> (equity st) |}
  else if (iloc Signal (i - 1) =? -1)%Z && in_position st then
    let exit_price := iloc Close (i - 1) in
    let pct_change := ((exit_price - entry_price st) / entry_price st)%fl in
    {| in_position := false;
       entry_price := entry_price st;
       equity := <[i := (iloc (equity st) (i - 1)
                         * (fofZ 1 + pct_change))%fl]> (equity st) |}
  else
    {| in_position := in_position st;
       entry_price := entry_price st;
       equity := <[i := iloc (equity st) (i - 1)]> (equity st) |}.

(** The loop state before iteration [i] (that is, after iterations
    [1 .. i-1]), from [df["EquityCurve"] = 1.0; in_position = False;
    entry_price = 0]. *)
Definition equity_state_at (n : nat) (Signal : list Z) (Close : list F)
    (i : nat) : equity_state :=
  foldl (equity_step Signal Close)
        {| in_position := false; entry_price := fofZ 0;
           equity := replicate n (fofZ 1) |}
        (seq 1 (i - 1)).

Definition equity_loop (n : nat) (Signal : list Z) (Close : list F)
    : list F :=
  equity (equity_state_at n Signal Close n).

(** The end of [generate_signals]: [reset_index] turns the index into the
    [Date] column, and the four columns are returned. *)
Definition result_table (Dates : list Z) (Closes : list F)
    (buy_condition sell_condition : list bool) : list (Row F) :=
  let n := length Dates in
  let Signal := signal_loop n buy_condition sell_condition in
  let EquityCurve := equity_loop n Signal Closes in
  imap (λ i d, {| Date := d; Close := iloc Closes i;
                  Signal := iloc Signal i;
                  EquityCurve := iloc EquityCurve i |}) Dates.

End Loops.

(** ** strategies/strategy1.py *)

Module Strategy1.
Section Strategy1.
Context {F : Type} `{Float64 F}.

(** A row of the working table: the bar and the four indicator columns. *)
Record Work : Type := mkWork {
  bar : Bar.t F;
  _10D_High : F;
  Range_25D : F;
  Buy_Threshold : F;
  IBS : F
}.

(** Lines 17-20. *)
Definition indicators (df : list (Bar.t F)) : list Work :=
  let High := Bar.High <$> df in
  let Low := Bar.Low <$> df in
  let Close := Bar.Close <$> df in
  let _10D_High := rolling 10 fmax_list High in
  let Range_25D := rolling 25 fmean_list (zip_with fsub High Low) in
  let Buy_Threshold := zip_with fsub _10D_High Range_25D in
  let IBS := zip_with fdiv (zip_with fsub Close Low) (zip_with fsub High Low) in
  imap (λ i b, {| bar := b;
                  _10D_High := iloc _10D_High i;
                  Range_25D := iloc Range_25D i;
                  Buy_Threshold := iloc Buy_Threshold i;
                  IBS := iloc IBS i |}) df.

Definition has_nan (r : Work) : bool :=
  fisnan (Bar.Open (bar r)) || fisnan (Bar.High (bar r))
  || fisnan (Bar.Low (bar r)) || fisnan (Bar.Close (bar r))
  || fisnan (Bar.Volume (bar r))
  || fisnan (_10D_High r) || fisnan (Range_25D r)
  || fisnan (Buy_Threshold r) || fisnan (IBS r).

(** Line 23: [df = df.dropna().copy()]. *)
Definition dropna (df : list Work) : list Work :=
  filter (λ r, has_nan r = false) df.

(** Line 26. *)
Definition buy_condition (df : list Work) : list bool :=
  (λ r, (Bar.Close (bar r) <? Buy_Threshold r)%fl
        && (IBS r <? fofZ 3 / fofZ 10)%fl) <$> df.

(** Line 27: the shift is taken on the table after the drop. *)
Definition sell_condition (df : list Work) : list bool :=
  zip_with (λ c h, (c >? h)%fl)
           (Bar.Close ∘ bar <$> df) (shift1 (Bar.High ∘ bar <$> df)).

(** The working table the loops run on. *)
Definition working (df : list (Bar.t F)) : list Work :=
  dropna (indicators df).

Definition generate_signals (df : list (Bar.t F)) : list (Row F) :=
  let df := working df in
  result_table (Bar.Date ∘ bar <$> df) (Bar.Close ∘ bar <$> df)
               (buy_condition df) (sell_condition df).

End Strategy1.
End Strategy1.

(** ** strategies/strategy4.py *)

Module Strategy4.
Section Strategy4.
Context {F : Type} `{Float64 F}.

Record Work : Type := mkWork {
  bar : Bar.t F;
  Range : F;
  Min_Range_6D : F;
  SMA_200 : F
}.

(** Lines 17-19. *)
Definition indicators (df : list (Bar.t F)) : list Work :=
  let Range := zip_with fsub (Bar.High <$> df) (Bar.Low <$> df) in
  let Min_Range_6D := rolling 6 fmin_list (shift1 Range) in
  let SMA_200 := rolling 200 fmean_list (Bar.Close <$> df) in
  imap (λ i b, {| bar := b;
                  Range := iloc Range i;
                  Min_Range_6D := iloc Min_Range_6D i;
                  SMA_200 := iloc SMA_200 i |}) df.

Definition has_nan (r : Work) : bool :=
  fisnan (Bar.Open (bar r)) || fisnan (Bar.High (bar r))
  || fisnan (Bar.Low (bar r)) || fisnan (Bar.Close (bar r))
  || fisnan (Bar.Volume (bar r))
  || fisnan (Range r) || fisnan (Min_Range_6D r) || fisnan (SMA_200 r).

(** Line 22. *)
Definition dropna (df : list Work) : list Work :=
  filter (λ r, has_nan r = false) df.

(** Line 25. *)
Definition buy_condition (df : list Work) : list bool :=
  (λ r, (Range r <? Min_Range_6D r)%fl
        && (Bar.Close (bar r) >? SMA_200 r)%fl) <$> df.

(** Line 26. *)
Definition sell_condition (df : list Work) : list bool :=
  zip_with (λ c h, (c >? h)%fl)
           (Bar.Close ∘ bar <$> df) (shift1 (Bar.High ∘ bar <$> df)).

Definition working (df : list (Bar.t F)) : list Work :=
  dropna (indicators df).

Definition generate_signals (df : list (Bar.t F)) : list (Row F) :=
  let df := working df in
  result_table (Bar.Date ∘ bar <$> df) (Bar.Close ∘ bar <$> df)
               (buy_condition df) (sell_condition df).

End Strategy4.
End Strategy4.

(** ** backtest.py: [calculate_metrics] *)

Module Backtest.
Section Backtest.
Context {F : Type} `{Float64 F}.

(** The [**] operator on [float64] values (the C library's [pow]), which
    the arithmetic interface does not provide. *)
Variable pow : F → F → F.

(** [s.iloc[0]] and [s.iloc[-1]]; an empty series raises. *)
Definition iloc_first {A} (s : list A) : result A :=
  match s !! 0%nat with
  | Some x => Return x
  | None => Raise IndexError
  end.

Definition iloc_last {A} (s : list A) : result A :=
  match last s with
  | Some x => Return x
  | None => Raise IndexError
  end.

(** Division of two Python [float]s (not numpy values): a zero divisor
    raises. *)
Definition py_div (x y : F) : result F :=
  if (y =? fofZ 0)%fl then Raise ZeroDivisionError else Return (x / y)%fl.

(** Lines 20-22. *)
Definition signal_changes (df : list (Row F)) : list Z :=
  fillna_Z 0 (diff (Signal <$> df)).

Definition entries (df : list (Row F)) : list nat :=
  filter (λ i, iloc (signal_changes df) i = 1%Z) (seq 0 (length df)).

Definition exits (df : list (Row F)) : list nat :=
  filter (λ i, iloc (signal_changes df) i = (-2)%Z) (seq 0 (length df)).

(** The state of the loop of lines 49-69. *)
Record trade_state : Type := mkSt {
  position : Z;
  entry_price : F;
  entry_date : option Z;
  trades : list (Trade F)
}.

(** One iteration of
<<
    for i in range(len(df)):
        if df["Signal"].iloc[i] == 1 and position == 0:
            position = 1
            entry_price = df["Close"].iloc[i]
            entry_date = df["Date"].iloc[i]
        elif df["Signal"].iloc[i] == -1 and position == 1:
            position = 0
            exit_price = df["Close"].iloc[i]
            exit_date = df["Date"].iloc[i]
            trades.append({...,
                "Return %": (exit_price - entry_price) / entry_price * 100})
>> *)
Definition trade_step (df : list (Row F)) (st : trade_state) (i : nat)
    : trade_state :=
  if (iloc (Signal <$> df) i =? 1)%Z && (position st =? 0)%Z then
    {| position := 1;
       entry_price := iloc (Close <$> df) i;
       entry_date := Some (iloc (Date <$> df) i);
       trades := trades st |}
  else if (iloc (Signal <$> df) i =? -1)%Z && (position st =? 1)%Z then
    let exit_price := iloc (Close <$> df) i in
    let exit_date := iloc (Date <$> df) i in
    {| position := 0;
       entry_price := entry_price st;
       entry_date := entry_date st;
       trades := trades st ++
         [ {| Entry_Date := entry_date st;
              Exit_Date := exit_date;
              Entry_Price := entry_price st;
              Exit_Price := exit_price;
              Return_pct := ((exit_price - entry_price st) / entry_price st
                             * fofZ 100)%fl |} ] |}
  else st.

(** Lines 49-69: [trades = []; position = 0; entry_price = 0;
    entry_date = None], then the loop. *)
Definition build_trades (df : list (Row F)) : list (Trade F) :=
  trades (foldl (trade_step df)
                {| position := 0; entry_price := fofZ 0;
                   entry_date := None; trades := [] |}
                (seq 0 (length df))).

(** Line 38. *)
Definition Daily_Return (df : list (Row F)) : list F :=
  fillna (fofZ 0) (pct_change (EquityCurve <$> df)).

(** Line 40. *)
Definition daily_std (df : list (Row F)) : F := series_std (Daily_Return df).

(** Line 41. *)
Definition sharpe_ratio (df : list (Row F)) : F :=
  (fsqrt (fofZ 252) * series_mean (Daily_Return df) / daily_std df)%fl.

(** Lines 44-46. *)
Definition Drawdown (equity : list F) : list F :=
  zip_with (λ e p, ((e - p) / p)%fl) equity (cummax equity).

Definition max_drawdown (equity : list F) : F := series_min (Drawdown equity).

(** Lines 34-35: [.days] is an [int], [/ 365] gives a Python [float], and
    [1 / num_years] is a division of Python floats. *)
Definition cagr (total_return : F) (days : Z) : result F :=
  let num_years := (fofZ days / fofZ 365)%fl in
  e ← py_div (fofZ 1) num_years;
  mret (pow (fofZ 1 + total_return) e - fofZ 1)%fl.

(** Lines 29-31. *)
Definition total_return (df : list (Row F)) : result F :=
  start_equity ← iloc_first (EquityCurve <$> df);
  end_equity ← iloc_last (EquityCurve <$> df);
  mret (end_equity / start_equity - fofZ 1)%fl.

Definition total_days (df : list (Row F)) : result Z :=
  last_date ← iloc_last (Date <$> df);
  first_date ← iloc_first (Date <$> df);
  mret (last_date - first_date)%Z.

(** Lines 76-79 and 82-84, on the [Return %] column of [trades_df]. *)
Definition winning (returns : list F) : list F :=
  filter (λ r, (r >? fofZ 0)%fl = true) returns.

Definition losing (returns : list F) : list F :=
  filter (λ r, (r <? fofZ 0)%fl = true) returns.

Definition profit_factor (returns : list F) : F :=
  let profits := series_sum (winning returns) in
  let losses := fabs (series_sum (losing returns)) in
  if (losses !=? fofZ 0)%fl then (profits / losses)%fl else finf.

Definition calculate_metrics (df : list (Row F))
    : result (option (Metrics F * list (Trade F))) :=
  if (length (entries df) =? 0)%nat || (length (exits df) =? 0)%nat then
    mret None
  else
    total_return ← total_return df;
    days ← total_days df;
    cagr ← cagr total_return days;
    let trades := build_trades df in
    if (length trades =? 0)%nat then mret None
    else
      let returns := Return_pct <$> trades in
      let win_rate := (fofZ (Z.of_nat (length (winning returns)))
                       / fofZ (Z.of_nat (length returns)))%fl in
      let avg_win := if (0 <? length (winning returns))%nat
                     then series_mean (winning returns) else fofZ 0 in
      let avg_loss := if (0 <? length (losing returns))%nat
                      then series_mean (losing returns) else fofZ 0 in
      mret (Some
        ({| Total_Trades := length trades;
            Total_Return := total_return;
            CAGR := cagr;
            Sharpe_Ratio := sharpe_ratio df;
            Max_Drawdown := max_drawdown (EquityCurve <$> df);
            Win_Rate := win_rate;
            Profit_Factor := profit_factor returns;
            Avg_Trade := series_mean returns;
            Avg_Win := avg_win;
            Avg_Loss := avg_loss;
            Volatility := (daily_std df * fsqrt (fofZ 252))%fl |},
         trades)).

(** The formula of the specification:
    CAGR = (1 + total return)^(365 / total days) - 1. *)
Definition cagr_spec (total_return : F) (days : Z) : F :=
  (pow (fofZ 1 + total_return) (fofZ 365 / fofZ days) - fofZ 1)%fl.

End Backtest.
End Backtest.

(** ** debug_backtest.py: [check_signal_integrity] *)

Module Debug.

Inductive issue : Type :=
| Consecutive_buy (date : Z)
| Consecutive_sell (date : Z)
| Unbalanced (buy_count sell_count : nat).

Section Debug.
Context {F : Type} `{Float64 F}.

Definition integrity_step (signals dates : list Z)
    (st : Z * list issue) (i : nat) : Z * list issue :=
  let '(last_signal, issues) := st in
  if (iloc signals i =? 1)%Z then
    (1%Z, if (last_signal =? 1)%Z
          then issues ++ [Consecutive_buy (iloc dates i)] else issues)
  else if (iloc signals i =? -1)%Z then
    ((-1)%Z, if (last_signal =? -1)%Z
             then issues ++ [Consecutive_sell (iloc dates i)] else issues)
  else st.

Definition count_signal (v : Z) (signals : list Z) : nat :=
  length (filter (λ s, s = v) signals).

Definition check_signal_integrity (strategy_df : list (Row F))
    : bool * list issue :=
  let signals := Signal <$> strategy_df in
  let dates := Date <$> strategy_df in
  let issues :=
    (foldl (integrity_step signals dates) (0%Z, []) (seq 0 (length signals))).2 in
  let buy_count := count_signal 1 signals in
  let sell_count := count_signal (-1) signals in
  let issues :=
    if negb (buy_count =? sell_count)%nat && negb (buy_count =? sell_count + 1)%nat
    then issues ++ [Unbalanced buy_count sell_count] else issues in
  ((length issues =? 0)%nat, issues).

End Debug.
End Debug.

(** ** Vocabulary of the properties *)

(** The state machine of the first loop, bar by bar: [conds] holds, for each
    bar, the values of the entry and of the exit predicate. *)
Fixpoint signal_run (in_position : bool) (conds : list (bool * bool))
    : list Z :=
  match conds with
  | [] => []
  | (entry, exit) :: rest =>
      if negb in_position && entry then 1%Z :: signal_run true rest
      else if in_position && exit then (-1)%Z :: signal_run false rest
      else 0%Z :: signal_run in_position rest
  end.

(** The predicate values the loop reads at rows [k .. k+m-1]. *)
Definition conds_at (buy_condition sell_condition : list bool) (k m : nat)
    : list (bool * bool) :=
  (λ i, (iloc buy_condition i, iloc sell_condition i)) <$> seq k m.

(** [l] is [expected], [-expected], [expected], ... *)
Fixpoint alternates (expected : Z) (l : list Z) : Prop :=
  match l with
  | [] => True
  | x :: rest => x = expected ∧ alternates (- expected) rest
  end.

(** The buy and sell signals of a [Signal] column, holds left out. *)
Definition events (s : list Z) : list Z := filter (λ x, x ≠ 0%Z) s.

(** The discipline of the [Signal] column: values in [{1, -1, 0}]; buys and
    sells alternate, starting with a buy; between two buys there is a sell,
    between two sells a buy, and before a sell a buy; the sells are as many as
    the buys, or one fewer. *)
Record signal_discipline (s : list Z) : Prop := {
  sd_values : Forall (λ x, x = 1 ∨ x = -1 ∨ x = 0)%Z s;
  sd_alternates : alternates 1 (events s);
  sd_between_buys : ∀ i j, i < j → s !! i = Some 1%Z → s !! j = Some 1%Z →
      ∃ k, i < k < j ∧ s !! k = Some (-1)%Z;
  sd_between_sells : ∀ i j, i < j → s !! i = Some (-1)%Z → s !! j = Some (-1)%Z →
      ∃ k, i < k < j ∧ s !! k = Some 1%Z;
  sd_buy_first : ∀ j, s !! j = Some (-1)%Z → ∃ k, k < j ∧ s !! k = Some 1%Z;
  sd_counts : Debug.count_signal (-1) s = Debug.count_signal 1 s
              ∨ Debug.count_signal (-1) s + 1 = Debug.count_signal 1 s
}.

(** Before iteration [i] of the second loop (which reads row [i-1]), the
    position opened by the buy at row [j] is still open: rows [j+1 .. i-2]
    hold neither a buy nor a sell. *)
Definition long_since (Signal : list Z) (i j : nat) : Prop :=
  j + 1 < i ∧ iloc Signal j = 1%Z
  ∧ ∀ k, j < k → k + 1 < i → iloc Signal k ≠ 1%Z ∧ iloc Signal k ≠ (-1)%Z.

(** The lag-one rule of the equity curve [E] of a table with [n] rows and
    columns [Signal] and [Close]: equal length, first value 1.0, and row
    [i >= 1] decided by the signal of row [i-1]:
      - a buy carries the equity over and opens a position at [Close[i-1]];
      - a sell of the position opened at row [j] multiplies the equity by
        [1 + (Close[i-1] - Close[j]) / Close[j]];
      - anything else carries the equity over;
    so that row [i] is a function of the rows before [i] alone. *)
Record lag_one_equity {F : Type} `{Float64 F}
    (n : nat) (Signal : list Z) (Close E : list F) : Prop := {
  lag_length : length E = n;
  lag_first : 0 < n → E !! 0 = Some (fofZ 1);
  lag_buy : ∀ i, 1 ≤ i < n → iloc Signal (i - 1) = 1%Z →
      iloc E i = iloc E (i - 1)
      ∧ long_since Signal (S i) (i - 1)
      ∧ in_position (equity_state_at n Signal Close (S i)) = true
      ∧ entry_price (equity_state_at n Signal Close (S i)) = iloc Close (i - 1);
  lag_sell : ∀ i j, 1 ≤ i < n → iloc Signal (i - 1) = (-1)%Z →
      long_since Signal i j →
      iloc E i = (iloc E (i - 1)
                  * (fofZ 1 + (iloc Close (i - 1) - iloc Close j)
                              / iloc Close j))%fl
      ∧ in_position (equity_state_at n Signal Close (S i)) = false;
  lag_carry : ∀ i, 1 ≤ i < n → iloc Signal (i - 1) ≠ 1%Z →
      ¬ (iloc Signal (i - 1) = (-1)%Z ∧ ∃ j, long_since Signal i j) →
      iloc E i = iloc E (i - 1);
  lag_prefix : ∀ Signal' Close' i, i < n →
      (∀ k, k < i → iloc Signal' k = iloc Signal k
                    ∧ iloc Close' k = iloc Close k) →
      equity_loop n Signal' Close' !! i = E !! i
}.

(** Rows [i < j] of a [Signal] column are a completed round trip: a buy at
    [i], a sell at [j], and neither a buy nor a sell in between. *)
Definition round_trip (Signal : list Z) (i j : nat) : Prop :=
  i < j ∧ Signal !! i = Some 1%Z ∧ Signal !! j = Some (-1)%Z
  ∧ ∀ k, i < k < j → Signal !! k ≠ Some 1%Z ∧ Signal !! k ≠ Some (-1)%Z.

(** The ledger row of the round trip [(i, j)]: dates and close prices of the
    two signal rows themselves. *)
Definition trade_of {F : Type} `{Float64 F} (df : list (Row F)) (i j : nat)
    : Trade F :=
  let entry_price := iloc (Close <$> df) i in
  let exit_price := iloc (Close <$> df) j in
  {| Entry_Date := Some (iloc (Date <$> df) i);
     Exit_Date := iloc (Date <$> df) j;
     Entry_Price := entry_price;
     Exit_Price := exit_price;
     Return_pct := ((exit_price - entry_price) / entry_price * fofZ 100)%fl |}.

(** The state of the ledger loop after rows [0 .. k-1]. *)
Definition trade_state_at {F : Type} `{Float64 F} (df : list (Row F))
    (k : nat) : Backtest.trade_state :=
  foldl (Backtest.trade_step df)
        {| Backtest.position := 0; Backtest.entry_price := fofZ 0;
           Backtest.entry_date := None; Backtest.trades := [] |}
        (seq 0 k).

(** What the ledger loop has established after rows [0 .. k-1]: the ledger
    lists the round trips completed so far, in order; when long, the open buy
    and its price and date; when flat, every buy so far has been closed. *)
Record trade_inv {F : Type} `{Float64 F} (df : list (Row F)) (k : nat)
    (st : Backtest.trade_state) (pairs : list (nat * nat)) : Prop := {
  ti_trades : Backtest.trades st = (λ p, trade_of df p.1 p.2) <$> pairs;
  ti_pairs : ∀ i j, (i, j) ∈ pairs ↔ round_trip (Signal <$> df) i j ∧ j < k;
  ti_nodup : NoDup pairs;
  ti_sorted : StronglySorted (λ p q, p.2 < q.1) pairs;
  ti_position : Backtest.position st = 0%Z ∨ Backtest.position st = 1%Z;
  ti_long : Backtest.position st = 1%Z →
    ∃ i, i < k ∧ (Signal <$> df) !! i = Some 1%Z
       ∧ (∀ m, i < m < k → (Signal <$> df) !! m ≠ Some 1%Z
                           ∧ (Signal <$> df) !! m ≠ Some (-1)%Z)
       ∧ Backtest.entry_price st = iloc (Close <$> df) i
       ∧ Backtest.entry_date st = Some (iloc (Date <$> df) i);
  ti_flat : Backtest.position st = 0%Z →
    ∀ i, i < k → (Signal <$> df) !! i = Some 1%Z →
    ∃ m, i < m < k ∧ (Signal <$> df) !! m = Some (-1)%Z
}.

(** The guard of lines 20-26 of [calculate_metrics]. *)
Definition guard_no_trades {F : Type} `{Float64 F} (df : list (Row F)) : bool :=
  (length (Backtest.entries df) =? 0)%nat
  || (length (Backtest.exits df) =? 0)%nat.

(** A bar without range whose close lies within it:
    [low <= close <= high == low]. *)
Definition degenerate_bar {F : Type} `{Float64 F} (b : Bar.t F) : Prop :=
  (Bar.High b =? Bar.Low b)%fl = true
  ∧ (Bar.Low b <=? Bar.Close b)%fl = true
  ∧ (Bar.Close b <=? Bar.High b)%fl = true.

(** Zero or not-a-number, on the specification side of binary64. *)
Definition sf_zero_or_nan (x : spec_float) : Prop :=
  match x with
  | S754_zero _ | S754_nan => True
  | _ => False
  end.

(** ** Concrete tables *)

Module Scenario.

(** The scenario of the specification: closes [100, 110, 90, 130] on days
    0 to 3, the entry predicate true at row 0 only, the exit predicate true
    at row 3 and false at rows 1 and 2 ([exit0] is its value at row 0, where
    the position is flat). *)
Definition spec_table {F : Type} `{Float64 F} (exit0 : bool) : list (Row F) :=
  result_table [0; 1; 2; 3]%Z (fofZ <$> [100; 110; 90; 130]%Z)
               [true; false; false; false] [exit0; false; false; true].

(** Five rows: a buy at row 1, a hold, the sell at row 3, a hold. *)
Definition late_sell : list (Row float) :=
  result_table [0; 1; 2; 3; 4]%Z (fofZ <$> [100; 100; 110; 120; 120]%Z)
               [false; true; false; false; false]
               [false; false; false; true; false].

(** Three rows: a buy at row 1 and its sell, at a higher close, on the last
    row.  The sell is not realised in the equity curve, which stays
    constant. *)
Definition sell_on_last_row {F : Type} `{Float64 F} : list (Row F) :=
  result_table [0; 1; 2]%Z (fofZ <$> [100; 100; 110]%Z)
               [false; true; false] [false; false; true].

(** 25 daily bars: 24 bars with high 11, low 9 and close 10, then a bar
    with high = low = 10 whose close, 11, lies outside its range. *)
Definition close_outside_range : list (Bar.t float) :=
  ((λ d, Bar.mk (Z.of_nat d) (fofZ 10) (fofZ 11) (fofZ 9) (fofZ 10)
                (fofZ 1000)) <$> seq 0 24)
  ++ [Bar.mk 24 (fofZ 10) (fofZ 10) (fofZ 10) (fofZ 11) (fofZ 1000)].

(** 25 daily bars: 24 bars as above, then a bar with
    high = low = close = 10. *)
Definition no_range_bar : list (Bar.t float) :=
  ((λ d, Bar.mk (Z.of_nat d) (fofZ 10) (fofZ 11) (fofZ 9) (fofZ 10)
                (fofZ 1000)) <$> seq 0 24)
  ++ [Bar.mk 24 (fofZ 10) (fofZ 10) (fofZ 10) (fofZ 10) (fofZ 1000)].

(** Four rows that alternate: buy, sell, buy, sell.  Two round trips, rows
    0-1 and rows 2-3. *)
Definition alternating : list (Row float) :=
  result_table [0; 1; 2; 3]%Z (fofZ <$> [100; 110; 100; 120]%Z)
               [true; false; true; false] [false; true; false; true].

(** A buy at row 1 at 100 and its sell at row 2 at 110, on days
    [0 .. last_day]: the equity ends at 1.1 and the dates span [last_day]
    days. *)
Definition one_trade (last_day : nat) : list (Row float) :=
  let n := S last_day in
  result_table (Z.of_nat <$> seq 0 n)
               (fofZ <$> [100; 100] ++ replicate (n - 2) 110)%Z
               (false :: true :: replicate (n - 2) false)
               (false :: false :: true :: replicate (n - 3) false).

(** 28 daily bars on which strategy1 trades: 25 bars with high 11, low 9
    and close 10; a bar that closes at 8.5 near its low of 8 (the entry
    predicate holds); a bar that closes at 12, above the high before it (the
    exit predicate holds); a quiet bar. *)
Definition traded_bars : list (Bar.t float) :=
  ((λ d, Bar.mk (Z.of_nat d) (fofZ 10) (fofZ 11) (fofZ 9) (fofZ 10)
                (fofZ 1000)) <$> seq 0 25)
  ++ [Bar.mk 25 (fofZ 10) (fofZ 11) (fofZ 8) (fofZ 17 / fofZ 2)%fl (fofZ 1000);
      Bar.mk 26 (fofZ 9) (fofZ 25 / fofZ 2)%fl (fofZ 9) (fofZ 12) (fofZ 1000);
      Bar.mk 27 (fofZ 12) (fofZ 13) (fofZ 11) (fofZ 12) (fofZ 1000)].

End Scenario.

(** ** Vocabulary of the numerical properties (exact arithmetic) *)

(** The exact reading of [**] for a positive finite base and a finite
    exponent; the other cases, which the properties below do not reach, are
    left undefined. *)
Definition xpow (x y : xreal) : xreal :=
  match x, y with
  | Fin a, Fin b => if Rltb 0 a then Fin (Rpower a b) else NaN
  | _, _ => NaN
  end.

(** Last date minus first date, in days. *)
Definition date_span {F : Type} (df : list (Row F)) : Z :=
  default 0%Z (last (Date <$> df)) - default 0%Z (head (Date <$> df)).

(** The dates of a table strictly increase (section 3 of the
    specification). *)
Definition dates_increasing {F : Type} (df : list (Row F)) : Prop :=
  ∀ i j di dj, i < j → (Date <$> df) !! i = Some di →
               (Date <$> df) !! j = Some dj → (di < dj)%Z.

(** A strictly positive (finite) value. *)
Definition positive_finite (x : xreal) : Prop := ∃ r, x = Fin r ∧ (0 < r)%R.

(** Every value is at most the next one. *)
Definition non_decreasing {F : Type} `{Float64 F} (s : list F) : Prop :=
  ∀ i x y, s !! i = Some x → s !! (S i) = Some y → (x <=? y)%fl = true.

(** The drawdown column of the reals [rs] when the running peak before them
    is [c]. *)
Fixpoint dd_from (c : R) (rs : list R) : list R :=
  match rs with
  | [] => []
  | r :: rest => ((r - Rmax c r) / Rmax c r)%R :: dd_from (Rmax c r) rest
  end.

(** [c <= r1 <= r2 <= ...] *)
Fixpoint sorted_from (c : R) (rs : list R) : Prop :=
  match rs with
  | [] => True
  | r :: rest => (c <= r)%R ∧ sorted_from r rest
  end.

Definition Rsum (rs : list R) : R := foldr Rplus 0%R rs.

(** ** run_backtest.py: what the window does with a result *)

Module RunBacktest.
Section RunBacktest.
Context {F : Type} `{Float64 F}.

(** [export_trades_to_csv], lines 94-104: nothing is written for a missing
    or empty ledger; otherwise the column
    [Profit % = (Exit Price - Entry Price) / Entry Price * 100] is added
    (the ledger of [calculate_metrics] has no such column) and the rows
    [Entry Date, Exit Date, Profit %] are written. *)
Definition profit_pct (t : Trade F) : F :=
  ((Exit_Price t - Entry_Price t) / Entry_Price t * fofZ 100)%fl.

Definition export_trades_to_csv (trades_df : option (list (Trade F)))
    : option (list (option Z * Z * F)) :=
  match trades_df with
  | None | Some [] => None
  | Some trades =>
      Some ((λ t, (Entry_Date t, Exit_Date t, profit_pct t)) <$> trades)
  end.

End RunBacktest.
End RunBacktest.

(** ** The equity curve and the ledger *)

(** The factor by which the second loop of [generate_signals] multiplies the
    equity when it realises the round trip [p = (buy row, sell row)]:
    [1 + (exit_price - entry_price) / entry_price]. *)
Definition growth {F : Type} `{Float64 F} (Close : list F) (p : nat * nat) : F :=
  (fofZ 1 + (iloc Close p.2 - iloc Close p.1) / iloc Close p.1)%fl.

(** The factors of the round trips [pairs], multiplied one after the other
    onto the initial equity 1.0. *)
Definition compounded {F : Type} `{Float64 F} (Close : list F)
    (pairs : list (nat * nat)) : F :=
  foldl (λ e p, (e * growth Close p)%fl) (fofZ 1) pairs.

(** The round trips whose sell row lies before row [i]. *)
Definition sold_before (i : nat) (pairs : list (nat * nat))
    : list (nat * nat) :=
  filter (λ p, p.2 < i) pairs.

(** ** The position of the first loop *)

(** The value of [in_position] after the bars [conds], from the value
    [in_position] before them. *)
Fixpoint position_after (in_position : bool) (conds : list (bool * bool))
    : bool :=
  match conds with
  | [] => in_position
  | (entry, exit) :: rest =>
      if negb in_position && entry then position_after true rest
      else if in_position && exit then position_after false rest
      else position_after in_position rest
  end.

(** Read off the [Signal] column: a position is open before row [i] when
    the last buy or sell above row [i] is a buy. *)
Definition long_before (Signal : list Z) (i : nat) : Prop :=
  last (events (take i Signal)) = Some 1%Z.

(** ** The integrity check *)

(** The buys and sells of a column; the integrity check skips every other
    value. *)
Definition buys_and_sells (s : list Z) : list Z :=
  filter (λ x, x = 1 ∨ x = -1)%Z s.

(** A value on one side of zero: a finite number of the given sign
    ([positive = true]: above zero), or the infinity of that sign. *)
Definition one_sided (positive : bool) (x : xreal) : Prop :=
  x = (if positive then PInf else NInf)
  ∨ ∃ r, x = Fin r ∧ (if positive then 0 < r else r < 0)%R.

(** ** backtest.py: [main], and its callers *)

Module Main.
Section Main.
Context {F : Type} `{Float64 F}.
Variable pow : F → F → F.

(** The [generate_signals] of the strategy module that [main] loads by
    name. *)
Variable generate_signals : list (Bar.t F) → list (Row F).

(** Lines 174-200, from the table [df] that [get_data] returned (the
    download and the drawing of the chart are outside the model):
<<
    strategy_df = strategy_module.generate_signals(df.copy())
    result = calculate_metrics(strategy_df)
    if result is None:
        return None, None, strategy_df
    metrics, trades_df = result
    return metrics, trades_df, strategy_df
>> *)
Definition main (df : list (Bar.t F))
    : result (option (Metrics F) * option (list (Trade F)) * list (Row F)) :=
  let strategy_df := generate_signals df in
  r ← Backtest.calculate_metrics pow strategy_df;
  match r with
  | None => mret (None, None, strategy_df)
  | Some (metrics, trades_df) => mret (Some metrics, Some trades_df, strategy_df)
  end.

(** What [display_results] of run_backtest.py does with a result of
    [main], up to the grid of metrics. *)
Inductive display : Type :=
| No_trades_executed                    (* the label of line 119 *)
| AttributeError                        (* [metrics.items()] on [None], line 128 *)
| Metrics_grid (metrics : Metrics F).   (* the loop of lines 128-134 *)

(** Lines 118-134.  The result of [main] is a tuple of three components,
    which is true as a condition whatever it holds:
<<
    if not result or (isinstance(result, tuple) and len(result) >= 2
                      and result[1] is not None and result[1].empty):
        ttk.Label(..., text="No trades executed"); return
    metrics, trades_df, strategy_df = result
    for metric, value in metrics.items(): ...
>> *)
Definition display_results
    (result : option (Metrics F) * option (list (Trade F)) * list (Row F))
    : display :=
  let '(metrics, trades_df, strategy_df) := result in
  let empty := match trades_df with
               | Some trades => bool_decide (length trades = 0)
               | None => false
               end in
  if empty then No_trades_executed
  else match metrics with
       | None => AttributeError
       | Some m => Metrics_grid m
       end.

End Main.
End Main.

(** ** The exponent of the CAGR *)

(** The exponent line 35 of [calculate_metrics] passes to [**]:
    [1 / num_years], with [num_years = days / 365] of line 34. *)
Definition cagr_exponent {F : Type} `{Float64 F} (days : Z) : F :=
  (fofZ 1 / (fofZ days / fofZ 365))%fl.

(** The exponent of the formula of the specification: [365 / total days]. *)
Definition spec_exponent {F : Type} `{Float64 F} (days : Z) : F :=
  (fofZ 365 / fofZ days)%fl.

(** Two doubles that are equal or neighbours: no double lies between
    them. *)
Definition adjacent (x y : float) : bool :=
  (x =? y)%fl || (x =? next_up y)%fl || (x =? next_down y)%fl.

(** The spans of days the binary64 statements range over, in days: more
    than the twenty years [get_data] downloads. *)
Definition max_span : Z := 10000.

(** * Properties *)

(** ** Lists and lookups *)

Section ListFacts.
Context {A : Type} `{Inhabited A}.

Lemma iloc_lookup (l : list A) i x : l !! i = Some x → iloc l i = x.
Proof. intros Hl. unfold iloc. by apply list_lookup_total_correct. Qed.

Lemma iloc_app_length (pre l : list A) x : iloc (pre ++ x :: l) (length pre) = x.
Proof. apply iloc_lookup. by rewrite list_lookup_middle. Qed.

Lemma imap_iloc {B} (l : list A) (d : list B) :
  length l = length d → imap (λ i _, iloc l i) d = l.
Proof.
  intros Hlen. apply list_eq. intros i. rewrite list_lookup_imap.
  destruct (d !! i) as [y|] eqn:Hd; simpl.
  - apply lookup_lt_Some in Hd. rewrite <- Hlen in Hd.
    destruct (lookup_lt_is_Some_2 l i Hd) as [x Hx].
    by rewrite Hx, (iloc_lookup _ _ _ Hx).
  - apply lookup_ge_None in Hd. symmetry. apply lookup_ge_None. lia.
Qed.

End ListFacts.

(** ** The signal state machine *)

Section SignalLoop.

Lemma signal_loop_from buy sell m : ∀ p pre,
  (foldl (signal_step buy sell) (p, pre ++ replicate m 0%Z)
         (seq (length pre) m)).2
  = pre ++ signal_run p (conds_at buy sell (length pre) m).
Proof.
  induction m as [|m IH]; intros p pre.
  - done.
  - cbn [seq foldl replicate conds_at fmap list_fmap signal_run].
    unfold conds_at in IH.
    assert (Hins : ∀ v : Z, <[length pre := v]> (pre ++ 0%Z :: replicate m 0%Z)
                   = (pre ++ [v]) ++ replicate m 0%Z).
    { intros v. rewrite insert_app_r_alt by lia.
      rewrite Nat.sub_diag. simpl. by rewrite <- app_assoc. }
    assert (Hlen : ∀ v : Z, length (pre ++ [v]) = S (length pre)).
    { intros v. rewrite length_app. simpl. lia. }
    unfold signal_step at 2.
    destruct (negb p && iloc buy (length pre)) eqn:Hb.
    + rewrite Hins, <- (Hlen 1%Z), IH, <- app_assoc. done.
    + destruct (p && iloc sell (length pre)) eqn:Hs.
      * rewrite Hins, <- (Hlen (-1)%Z), IH, <- app_assoc. done.
      * rewrite Hins, <- (Hlen 0%Z), IH, <- app_assoc. done.
Qed.

(** The loop computes the state machine, started flat. *)
Lemma signal_loop_run n buy sell :
  signal_loop n buy sell = signal_run false (conds_at buy sell 0 n).
Proof. apply (signal_loop_from buy sell n false []). Qed.

Lemma signal_run_length p conds : length (signal_run p conds) = length conds.
Proof.
  revert p. induction conds as [|[b s] r IH]; intros p; [done|]. simpl.
  destruct (negb p && b); [|destruct (p && s)]; simpl; by rewrite IH.
Qed.

Lemma signal_loop_length n buy sell : length (signal_loop n buy sell) = n.
Proof.
  rewrite signal_loop_run, signal_run_length. unfold conds_at.
  by rewrite length_fmap, length_seq.
Qed.

End SignalLoop.

(** ** Consequences of alternation *)

Section Alternation.

Lemma events_cons_hold (s : list Z) : events (0%Z :: s) = events s.
Proof. unfold events. by rewrite filter_cons_False by (intros Hx; by apply Hx). Qed.

Lemma events_cons_event x (s : list Z) : x ≠ 0%Z → events (x :: s) = x :: events s.
Proof. intros Hx. unfold events. by rewrite filter_cons_True. Qed.

Lemma alternates_cons e x s :
  alternates e (events (x :: s)) →
  (x = 0%Z ∧ alternates e (events s)) ∨ (x = e ∧ alternates (- e) (events s)).
Proof.
  destruct (decide (x = 0%Z)) as [->|Hx].
  - rewrite events_cons_hold. by left.
  - rewrite events_cons_event by done. intros [-> Hr]. by right.
Qed.

(** An event that is not the expected one is preceded by the expected one. *)
Lemma alternates_before s : ∀ e j w,
  alternates e (events s) → s !! j = Some w → w ≠ 0%Z → w ≠ e →
  ∃ k, k < j ∧ s !! k = Some e.
Proof.
  induction s as [|x r IH]; intros e j w Halt Hj Hw0 Hwe; [done|].
  destruct j as [|j]; simpl in Hj.
  - injection Hj as ->. rewrite events_cons_event in Halt by done.
    destruct Halt as [-> _]. done.
  - destruct (alternates_cons _ _ _ Halt) as [[-> Hr]|[-> Hr]].
    + destruct (IH e j w Hr Hj Hw0 Hwe) as (k & Hk & Hlk).
      exists (S k). split; [lia|done].
    + exists 0. split; [lia|done].
Qed.

(** Between two equal events there is the opposite one. *)
Lemma alternates_between s : ∀ e i j v,
  alternates e (events s) → i < j → v ≠ 0%Z →
  s !! i = Some v → s !! j = Some v →
  ∃ k, i < k < j ∧ s !! k = Some (- v)%Z.
Proof.
  induction s as [|x r IH]; intros e i j v Halt Hij Hv Hi Hj; [done|].
  destruct j as [|j]; [lia|]. simpl in Hj.
  destruct i as [|i]; simpl in Hi.
  - injection Hi as ->. rewrite events_cons_event in Halt by done.
    destruct Halt as [-> Hr].
    destruct (alternates_before r (- e)%Z j e Hr Hj Hv) as (k & Hk & Hlk); [lia|].
    exists (S k). split; [lia|done].
  - assert (Hij' : i < j) by lia.
    destruct (alternates_cons _ _ _ Halt) as [[-> Hr]|[-> Hr]].
    + destruct (IH e i j v Hr Hij' Hv Hi Hj) as (k & Hk & Hlk).
      exists (S k). split; [lia|done].
    + destruct (IH (- e)%Z i j v Hr Hij' Hv Hi Hj) as (k & Hk & Hlk).
      exists (S k). split; [lia|done].
Qed.

Lemma count_signal_events v (s : list Z) :
  v ≠ 0%Z → Debug.count_signal v s = Debug.count_signal v (events s).
Proof.
  intros Hv. unfold Debug.count_signal, events.
  induction s as [|x r IH]; [done|].
  destruct (decide (x = 0%Z)) as [->|Hx].
  - rewrite (filter_cons_False (λ x, x ≠ 0%Z)) by (intros Hx; by apply Hx).
    rewrite filter_cons_False by (intros Hx; by apply Hv). done.
  - rewrite (filter_cons_True (λ x, x ≠ 0%Z)) by done.
    destruct (decide (x = v)) as [->|Hxv].
    + rewrite !filter_cons_True by done. simpl. by rewrite IH.
    + rewrite !(filter_cons_False (λ s, s = v)) by done. done.
Qed.

Lemma alternates_counts l : ∀ e, e ≠ 0%Z → alternates e l →
  Debug.count_signal (- e) l = Debug.count_signal e l
  ∨ Debug.count_signal (- e) l + 1 = Debug.count_signal e l.
Proof.
  unfold Debug.count_signal.
  induction l as [|x r IH]; intros e He Halt; [by left|].
  destruct Halt as [-> Hr].
  rewrite (filter_cons_True (λ s, s = e)) by done.
  rewrite (filter_cons_False (λ s, s = (- e)%Z)) by lia.
  destruct (IH (- e)%Z ltac:(lia) Hr) as [Hc|Hc];
    rewrite Z.opp_involutive in Hc; simpl; [right|left]; lia.
Qed.

Lemma alternates_values l : ∀ e, alternates e l → Forall (λ x, x = e ∨ x = - e)%Z l.
Proof.
  induction l as [|x r IH]; intros e Halt; [constructor|].
  destruct Halt as [-> Hr]. constructor; [by left|].
  eapply Forall_impl; [exact (IH _ Hr)|]. simpl. intros y. lia.
Qed.

(** Alternation from a buy gives the whole discipline. *)
Lemma alternates_discipline (s : list Z) :
  alternates 1 (events s) → signal_discipline s.
Proof.
  intros Halt. split.
  - apply Forall_forall. intros x Hx.
    destruct (decide (x = 0%Z)) as [->|Hx0]; [lia|].
    assert (He : x ∈ events s) by (unfold events; apply list_elem_of_filter; done).
    pose proof (alternates_values _ _ Halt) as Hv.
    rewrite Forall_forall in Hv. specialize (Hv x He). lia.
  - done.
  - intros i j Hij Hi Hj.
    exact (alternates_between s 1 i j 1 Halt Hij ltac:(lia) Hi Hj).
  - intros i j Hij Hi Hj.
    exact (alternates_between s 1 i j (-1) Halt Hij ltac:(lia) Hi Hj).
  - intros j Hj.
    exact (alternates_before s 1 j (-1) Halt Hj ltac:(lia) ltac:(lia)).
  - rewrite (count_signal_events (-1)), (count_signal_events 1) by lia.
    exact (alternates_counts _ 1%Z ltac:(lia) Halt).
Qed.

(** The state machine alternates: from flat the next event is a buy, from
    long a sell. *)
Lemma signal_run_alternates conds : ∀ p : bool,
  alternates (if p then -1 else 1)%Z (events (signal_run p conds)).
Proof.
  induction conds as [|[b s] r IH]; intros p; [done|]. simpl.
  destruct (negb p && b) eqn:Hb.
  - apply andb_true_iff in Hb as [Hp _]. apply negb_true_iff in Hp as ->.
    rewrite events_cons_event by lia. split; [done|]. exact (IH true).
  - destruct (p && s) eqn:Hs.
    + apply andb_true_iff in Hs as [-> _].
      rewrite events_cons_event by lia. split; [done|]. exact (IH false).
    + rewrite events_cons_hold. apply IH.
Qed.

Lemma signal_loop_discipline n buy sell :
  signal_discipline (signal_loop n buy sell).
Proof.
  apply alternates_discipline. rewrite signal_loop_run.
  exact (signal_run_alternates _ false).
Qed.

End Alternation.

(** ** The equity loop *)

Section EquityLoop.
Context {F : Type} `{Float64 F}.
Implicit Types (Signal : list Z) (Close : list F).

Lemma equity_state_at_S n Signal Close i :
  1 ≤ i →
  equity_state_at n Signal Close (S i)
  = equity_step Signal Close (equity_state_at n Signal Close i) i.
Proof.
  intros Hi. unfold equity_state_at.
  replace (S i - 1) with (S (i - 1)) by lia.
  rewrite seq_S, foldl_app. cbn [foldl]. by replace (1 + (i - 1)) with i by lia.
Qed.

Lemma equity_step_length Signal Close st i :
  length (equity (equity_step Signal Close st i)) = length (equity st).
Proof.
  unfold equity_step.
  destruct (iloc Signal (i - 1) =? 1)%Z; [|destruct (_ && _)]; simpl;
    by rewrite length_insert.
Qed.

Lemma equity_step_other Signal Close st i j :
  i ≠ j →
  equity (equity_step Signal Close st i) !! j = equity st !! j.
Proof.
  intros Hij. unfold equity_step.
  destruct (iloc Signal (i - 1) =? 1)%Z; [|destruct (_ && _)]; simpl;
    by rewrite list_lookup_insert_ne.
Qed.

Lemma equity_state_length n Signal Close i :
  length (equity (equity_state_at n Signal Close i)) = n.
Proof.
  induction i as [|i IH].
  - unfold equity_state_at. simpl. by rewrite length_replicate.
  - destruct (decide (1 ≤ i)) as [Hi|Hi].
    + by rewrite equity_state_at_S, equity_step_length.
    + by replace i with 0 in * by lia.
Qed.

Lemma equity_loop_length n Signal Close :
  length (equity_loop n Signal Close) = n.
Proof. apply equity_state_length. Qed.

(** Row [j] of the column is final once iteration [j] is over. *)
Lemma equity_state_stable n Signal Close j i :
  j < i →
  equity (equity_state_at n Signal Close i) !! j
  = equity (equity_state_at n Signal Close (S j)) !! j.
Proof.
  induction i as [|i IH]; intros Hji; [lia|].
  destruct (decide (j = i)) as [->|Hne]; [done|].
  rewrite equity_state_at_S by lia.
  rewrite equity_step_other by lia. apply IH. lia.
Qed.

Lemma equity_loop_lookup n Signal Close j :
  j < n →
  equity_loop n Signal Close !! j
  = equity (equity_state_at n Signal Close (S j)) !! j.
Proof. intros Hj. by apply equity_state_stable. Qed.

Lemma equity_loop_iloc n Signal Close j :
  j < n →
  iloc (equity_loop n Signal Close) j
  = iloc (equity (equity_state_at n Signal Close (S j))) j.
Proof.
  intros Hj. unfold iloc. rewrite !list_lookup_total_alt.
  by rewrite equity_loop_lookup.
Qed.

(** What iteration [i] reads at row [i-1] is the final value of that row. *)
Lemma equity_loop_iloc_prev n Signal Close i :
  1 ≤ i → i ≤ n →
  iloc (equity (equity_state_at n Signal Close i)) (i - 1)
  = iloc (equity_loop n Signal Close) (i - 1).
Proof.
  intros Hi Hn. rewrite equity_loop_iloc by lia.
  by replace (S (i - 1)) with i by lia.
Qed.

Lemma equity_loop_first n Signal Close :
  0 < n → equity_loop n Signal Close !! 0 = Some (fofZ 1).
Proof.
  intros Hn. rewrite equity_loop_lookup by done.
  unfold equity_state_at. simpl. by apply lookup_replicate_2.
Qed.

(** The value iteration [i] writes, in terms of the final column. *)
Lemma equity_loop_step n Signal Close i :
  1 ≤ i → i < n →
  let st := equity_state_at n Signal Close i in
  let E := equity_loop n Signal Close in
  iloc E i =
    if (iloc Signal (i - 1) =? 1)%Z then iloc E (i - 1)
    else if (iloc Signal (i - 1) =? -1)%Z && in_position st then
      (iloc E (i - 1)
       * (fofZ 1 + (iloc Close (i - 1) - entry_price st) / entry_price st))%fl
    else iloc E (i - 1).
Proof.
  intros Hi Hn st E. unfold E.
  rewrite equity_loop_iloc by lia. rewrite equity_state_at_S by lia.
  rewrite <- (equity_loop_iloc_prev n Signal Close i) by lia.
  fold st. unfold equity_step.
  assert (Hlen : i < length (equity st)).
  { unfold st. by rewrite equity_state_length. }
  destruct (iloc Signal (i - 1) =? 1)%Z; [|destruct (_ && _)]; simpl;
    apply iloc_lookup; by rewrite list_lookup_insert_eq.
Qed.

(** The position flag and the entry price after iteration [i]. *)
Lemma equity_state_position n Signal Close i :
  1 ≤ i →
  let st := equity_state_at n Signal Close i in
  let st' := equity_state_at n Signal Close (S i) in
  in_position st' =
    (if (iloc Signal (i - 1) =? 1)%Z then true
     else if (iloc Signal (i - 1) =? -1)%Z && in_position st then false
     else in_position st)
  ∧ entry_price st' =
    (if (iloc Signal (i - 1) =? 1)%Z then iloc Close (i - 1)
     else entry_price st).
Proof.
  intros Hi st st'. unfold st'. rewrite equity_state_at_S by lia. fold st.
  unfold equity_step.
  destruct (iloc Signal (i - 1) =? 1)%Z; [|destruct (_ && _)]; done.
Qed.

End EquityLoop.

Section EquityPosition.
Context {F : Type} `{Float64 F}.
Implicit Types (Signal : list Z) (Close : list F).

(** The loop is long exactly when a buy is still open, and its entry price
    is the close of that buy's row. *)
Lemma equity_position_open n Signal Close i :
  (in_position (equity_state_at n Signal Close i) = true
   ↔ ∃ j, long_since Signal i j)
  ∧ (∀ j, long_since Signal i j →
       entry_price (equity_state_at n Signal Close i) = iloc Close j).
Proof.
  induction i as [|i [IHp IHe]].
  - split; [split|].
    + done.
    + intros (j & Hj & _). lia.
    + intros j (Hj & _). lia.
  - destruct (decide (1 ≤ i)) as [Hi|Hi].
    2:{ replace i with 0 by lia. split; [split|].
        - done.
        - intros (j & Hj & _). lia.
        - intros j (Hj & _). lia. }
    destruct (equity_state_position n Signal Close i Hi) as [Hp He].
    simpl in Hp, He. rewrite Hp, He. clear Hp He.
    destruct (iloc Signal (i - 1) =? 1)%Z eqn:Hbuy.
    + apply Z.eqb_eq in Hbuy.
      assert (Hlast : ∀ j, long_since Signal (S i) j → j = i - 1).
      { intros j (Hj & _ & Hk). destruct (decide (j = i - 1)); [done|].
        destruct (Hk (i - 1)) as [Hne _]; [lia..|]. done. }
      split; [split|].
      * intros _. exists (i - 1). split; [lia|]. split; [done|]. intros k ??. lia.
      * done.
      * intros j Hj. by rewrite (Hlast j Hj).
    + apply Z.eqb_neq in Hbuy.
      destruct (iloc Signal (i - 1) =? -1)%Z eqn:Hsell.
      * apply Z.eqb_eq in Hsell.
        assert (Hnone : ∀ j, ¬ long_since Signal (S i) j).
        { intros j (Hj & Hj1 & Hk). destruct (decide (j = i - 1)) as [->|].
          - lia.
          - destruct (Hk (i - 1)) as [_ Hne]; [lia..|]. done. }
        split; [split|].
        -- simpl. destruct (in_position _); done.
        -- intros (j & Hj). by destruct (Hnone j).
        -- intros j Hj. by destruct (Hnone j).
      * apply Z.eqb_neq in Hsell. simpl.
        assert (Hsame : ∀ j, long_since Signal (S i) j ↔ long_since Signal i j).
        { intros j. split.
          - intros (Hj & Hj1 & Hk). split; [|split; [done|]].
            + destruct (decide (j = i - 1)) as [->|]; [done|lia].
            + intros k ??. apply Hk; lia.
          - intros (Hj & Hj1 & Hk). split; [lia|split; [done|]].
            intros k ??. destruct (decide (k = i - 1)) as [->|]; [done|].
            apply Hk; lia. }
        split.
        -- rewrite IHp. split; intros (j & Hj); exists j; by apply Hsame.
        -- intros j Hj. apply IHe. by apply Hsame.
Qed.

Lemma equity_step_ext Signal Close Signal' Close' st i :
  iloc Signal' (i - 1) = iloc Signal (i - 1) →
  iloc Close' (i - 1) = iloc Close (i - 1) →
  equity_step Signal' Close' st i = equity_step Signal Close st i.
Proof. intros HS HC. unfold equity_step. by rewrite HS, HC. Qed.

(** The state before iteration [i] is a function of rows [0 .. i-2]. *)
Lemma equity_state_prefix n Signal Close Signal' Close' i :
  (∀ k, k + 1 < i → iloc Signal' k = iloc Signal k
                    ∧ iloc Close' k = iloc Close k) →
  equity_state_at n Signal' Close' i = equity_state_at n Signal Close i.
Proof.
  induction i as [|i IH]; intros Hagree; [done|].
  destruct (decide (1 ≤ i)) as [Hi|Hi].
  - rewrite !equity_state_at_S by done.
    rewrite IH by (intros k ?; apply Hagree; lia).
    destruct (Hagree (i - 1)) as [HS HC]; [lia|].
    by apply equity_step_ext.
  - by replace i with 0 by lia.
Qed.

Lemma equity_loop_lag_one n Signal Close :
  lag_one_equity n Signal Close (equity_loop n Signal Close).
Proof.
  split.
  - apply equity_loop_length.
  - apply equity_loop_first.
  - intros i [Hi Hn] Hbuy.
    pose proof (equity_loop_step n Signal Close i Hi Hn) as Hstep.
    destruct (equity_state_position n Signal Close i Hi) as [Hp He].
    simpl in Hstep, Hp, He.
    apply Z.eqb_eq in Hbuy. rewrite Hbuy in Hstep, Hp, He.
    apply Z.eqb_eq in Hbuy.
    split; [done|]. split; [|done].
    split; [lia|]. split; [done|]. intros k ??. lia.
  - intros i j [Hi Hn] Hsell Hlong.
    pose proof (equity_loop_step n Signal Close i Hi Hn) as Hstep.
    destruct (equity_state_position n Signal Close i Hi) as [Hp _].
    destruct (equity_position_open n Signal Close i) as [Hopen Hentry].
    simpl in Hstep, Hp.
    assert (Hin : in_position (equity_state_at n Signal Close i) = true).
    { apply Hopen. by exists j. }
    rewrite Hsell, Hin, (Hentry j Hlong) in Hstep.
    rewrite Hsell, Hin in Hp. done.
  - intros i [Hi Hn] Hbuy Hnsell.
    pose proof (equity_loop_step n Signal Close i Hi Hn) as Hstep.
    destruct (equity_position_open n Signal Close i) as [Hopen _].
    simpl in Hstep.
    apply Z.eqb_neq in Hbuy. rewrite Hbuy in Hstep.
    destruct (iloc Signal (i - 1) =? -1)%Z eqn:Hsell; [|done].
    destruct (in_position (equity_state_at n Signal Close i)) eqn:Hin; [|done].
    exfalso. apply Hnsell. split; [by apply Z.eqb_eq|]. by apply Hopen.
  - intros Signal' Close' i Hi Hagree.
    rewrite !equity_loop_lookup by done.
    rewrite (equity_state_prefix n Signal Close Signal' Close' (S i)); [done|].
    intros k ?. apply Hagree. lia.
Qed.

End EquityPosition.

(** ** The returned table *)

Section ResultTable.
Context {F : Type} `{Float64 F}.
Implicit Types (Dates : list Z) (Closes : list F).

Lemma result_table_length Dates Closes buy sell :
  length (result_table Dates Closes buy sell) = length Dates.
Proof. unfold result_table. by rewrite length_imap. Qed.

Lemma result_table_Date Dates Closes buy sell :
  Date <$> result_table Dates Closes buy sell = Dates.
Proof.
  unfold result_table. rewrite fmap_imap.
  apply list_eq. intros i. rewrite list_lookup_imap.
  by destruct (Dates !! i).
Qed.

Lemma result_table_Close Dates Closes buy sell :
  length Closes = length Dates →
  Close <$> result_table Dates Closes buy sell = Closes.
Proof.
  intros Hlen. unfold result_table. rewrite fmap_imap.
  by apply (imap_iloc Closes Dates).
Qed.

Lemma result_table_Signal Dates Closes buy sell :
  Signal <$> result_table Dates Closes buy sell
  = signal_loop (length Dates) buy sell.
Proof.
  unfold result_table. rewrite fmap_imap.
  apply (imap_iloc (signal_loop (length Dates) buy sell) Dates).
  apply signal_loop_length.
Qed.

Lemma result_table_EquityCurve Dates Closes buy sell :
  EquityCurve <$> result_table Dates Closes buy sell
  = equity_loop (length Dates) (signal_loop (length Dates) buy sell) Closes.
Proof.
  unfold result_table. rewrite fmap_imap.
  apply (imap_iloc (equity_loop (length Dates)
                      (signal_loop (length Dates) buy sell) Closes) Dates).
  apply equity_loop_length.
Qed.

(** The equity column of a returned table is the second loop run on its own
    [Signal] and [Close] columns. *)
Lemma result_table_equity_of_columns Dates Closes buy sell :
  length Closes = length Dates →
  let t := result_table Dates Closes buy sell in
  EquityCurve <$> t = equity_loop (length t) (Signal <$> t) (Close <$> t).
Proof.
  intros Hlen t. unfold t.
  rewrite result_table_EquityCurve, result_table_Signal, result_table_length.
  by rewrite result_table_Close.
Qed.

End ResultTable.

(** ** [check_signal_integrity] accepts every alternating column *)

Section Integrity.
Context {F : Type} `{Float64 F}.

Lemma integrity_loop_silent dates issues rest : ∀ pre last e,
  alternates e (events rest) → (e = 1 ∨ e = -1)%Z → last ≠ e →
  (foldl (Debug.integrity_step (pre ++ rest) dates) (last, issues)
         (seq (length pre) (length rest))).2 = issues.
Proof.
  induction rest as [|x r IH]; intros pre last e Halt He Hlast; [done|].
  cbn [length seq foldl]. unfold Debug.integrity_step at 2.
  rewrite iloc_app_length.
  assert (Hpre : ∀ st, foldl (Debug.integrity_step (pre ++ x :: r) dates) st
                         (seq (S (length pre)) (length r))
                 = foldl (Debug.integrity_step ((pre ++ [x]) ++ r) dates) st
                         (seq (length (pre ++ [x])) (length r))).
  { intros st. rewrite <- app_assoc. simpl.
    rewrite length_app. simpl. by rewrite Nat.add_1_r. }
  destruct (alternates_cons _ _ _ Halt) as [[-> Hr]|[-> Hr]].
  - simpl. rewrite Hpre. by apply (IH _ last e).
  - destruct He as [-> | ->]; simpl.
    + destruct (last =? 1)%Z eqn:Hl; [apply Z.eqb_eq in Hl; lia|].
      rewrite Hpre. apply (IH _ 1%Z (-1)%Z); [done|lia|lia].
    + destruct (last =? -1)%Z eqn:Hl; [apply Z.eqb_eq in Hl; lia|].
      rewrite Hpre. apply (IH _ (-1)%Z 1%Z); [done|lia|lia].
Qed.

Lemma check_signal_integrity_ok (strategy_df : list (Row F)) :
  alternates 1 (events (Signal <$> strategy_df)) →
  Debug.check_signal_integrity strategy_df = (true, []).
Proof.
  intros Halt. unfold Debug.check_signal_integrity.
  rewrite (integrity_loop_silent _ _ _ [] 0%Z 1%Z Halt) by lia.
  pose proof (alternates_counts _ 1%Z ltac:(lia) Halt) as Hc.
  change (- (1))%Z with (-1)%Z in Hc.
  rewrite <- !count_signal_events in Hc by lia.
  destruct Hc as [Hc|Hc].
  - rewrite Hc, Nat.eqb_refl. done.
  - rewrite <- Hc, Nat.eqb_refl, andb_false_r. done.
Qed.

End Integrity.

(** ** The strategies run the two loops on their working table *)

Section Strategies.
Context {F : Type} `{Float64 F}.

Lemma strategy1_signals (df : list (Bar.t F)) :
  let w := Strategy1.working df in
  Signal <$> Strategy1.generate_signals df
  = signal_loop (length w) (Strategy1.buy_condition w)
                (Strategy1.sell_condition w).
Proof.
  intros w. unfold Strategy1.generate_signals. fold w.
  by rewrite result_table_Signal, length_fmap.
Qed.

Lemma strategy4_signals (df : list (Bar.t F)) :
  let w := Strategy4.working df in
  Signal <$> Strategy4.generate_signals df
  = signal_loop (length w) (Strategy4.buy_condition w)
                (Strategy4.sell_condition w).
Proof.
  intros w. unfold Strategy4.generate_signals. fold w.
  by rewrite result_table_Signal, length_fmap.
Qed.

Lemma strategy1_equity (df : list (Bar.t F)) :
  let t := Strategy1.generate_signals df in
  EquityCurve <$> t = equity_loop (length t) (Signal <$> t) (Close <$> t).
Proof.
  apply result_table_equity_of_columns. by rewrite !length_fmap.
Qed.

Lemma strategy4_equity (df : list (Bar.t F)) :
  let t := Strategy4.generate_signals df in
  EquityCurve <$> t = equity_loop (length t) (Signal <$> t) (Close <$> t).
Proof.
  apply result_table_equity_of_columns. by rewrite !length_fmap.
Qed.

End Strategies.

(** ** The trade ledger *)

Section Ledger.
Context {F : Type} `{Float64 F}.
Implicit Types (df : list (Row F)).

Lemma trade_state_at_S df k :
  trade_state_at df (S k) = Backtest.trade_step df (trade_state_at df k) k.
Proof. unfold trade_state_at. by rewrite seq_S, foldl_app. Qed.

Lemma build_trades_state df :
  Backtest.build_trades df = Backtest.trades (trade_state_at df (length df)).
Proof. done. Qed.

Lemma trade_inv_init df :
  trade_inv df 0
    {| Backtest.position := 0; Backtest.entry_price := fofZ 0;
       Backtest.entry_date := None; Backtest.trades := [] |} [].
Proof.
  split; simpl; try done.
  - intros i j. split; [by intros ?%elem_of_nil|]. intros [_ ?]. lia.
  - constructor.
  - constructor.
  - by left.
  - intros _ i ?. lia.
Qed.

(** A round trip ending at row [k] starts at the buy that is open there. *)
Lemma round_trip_open (S : list Z) i i' k :
  i < k → S !! i = Some 1%Z →
  (∀ m, i < m < k → S !! m ≠ Some 1%Z ∧ S !! m ≠ Some (-1)%Z) →
  round_trip S i' k → i' = i.
Proof.
  intros Hik Hi Hgap (Hi'k & Hi' & _ & Hgap').
  destruct (Nat.lt_trichotomy i i') as [Hlt|[->|Hlt]]; [|done|].
  - destruct (Hgap i') as [Hne _]; [lia|]. done.
  - destruct (Hgap' i) as [Hne _]; [lia|]. done.
Qed.

Lemma trade_inv_step df k st pairs :
  (∀ i j, i < j → (Signal <$> df) !! i = Some 1%Z →
          (Signal <$> df) !! j = Some 1%Z →
          ∃ m, i < m < j ∧ (Signal <$> df) !! m = Some (-1)%Z) →
  k < length df →
  trade_inv df k st pairs →
  ∃ pairs', trade_inv df (S k) (Backtest.trade_step df st k) pairs'.
Proof.
  intros Hbb Hk [Htr Hpairs Hnd Hsort Hpos Hlong Hflat].
  assert (Hlk : (Signal <$> df) !! k = Some (iloc (Signal <$> df) k)).
  { unfold iloc. apply list_lookup_lookup_total_lt. by rewrite length_fmap. }
  (* pairs do not change when row [k] completes no round trip *)
  assert (Hkeep : (∀ i, ¬ round_trip (Signal <$> df) i k) →
    ∀ i j, (i, j) ∈ pairs ↔ round_trip (Signal <$> df) i j ∧ j < S k).
  { intros Hno i j. rewrite Hpairs. split; intros [Hrt Hj]; split; try done.
    - lia.
    - destruct (decide (j = k)) as [->|]; [by destruct (Hno i)|lia]. }
  unfold Backtest.trade_step.
  destruct (iloc (Signal <$> df) k =? 1)%Z eqn:Hbuy.
  - apply Z.eqb_eq in Hbuy. rewrite Hbuy in Hlk.
    assert (Hno : ∀ i, ¬ round_trip (Signal <$> df) i k).
    { intros i (_ & _ & Hs & _). rewrite Hlk in Hs. done. }
    destruct Hpos as [Hp|Hp]; rewrite Hp; simpl.
    + exists pairs. split; simpl; try done.
      * by apply Hkeep.
      * by right.
      * intros _. exists k. split; [lia|]. split; [done|].
        split; [intros m ?; lia|done].
    + (* a second buy while long contradicts the discipline *)
      exfalso. destruct (Hlong Hp) as (i & Hik & Hi & Hgap & _).
      destruct (Hbb i k Hik Hi Hlk) as (m & Hm & Hsell).
      destruct (Hgap m Hm) as [_ Hne]. done.
  - apply Z.eqb_neq in Hbuy. simpl.
    destruct (iloc (Signal <$> df) k =? -1)%Z eqn:Hsell.
    + apply Z.eqb_eq in Hsell. rewrite Hsell in Hlk.
      destruct Hpos as [Hp|Hp]; rewrite Hp; simpl.
      * exists pairs. split; simpl; try done.
        -- apply Hkeep. intros i (Hik & Hi & _ & Hgap).
           destruct (Hflat Hp i Hik Hi) as (m & Hm & Hms).
           destruct (Hgap m Hm) as [_ Hne]. done.
        -- by left.
        -- intros Hp'. rewrite Hp in Hp'. done.
        -- intros _ i Hi Hib. destruct (Hflat Hp i) as (m & Hm & Hms).
           ++ destruct (decide (i = k)) as [->|]; [|lia].
              rewrite Hlk in Hib. done.
           ++ done.
           ++ exists m. split; [lia|done].
      * destruct (Hlong Hp) as (i & Hik & Hi & Hgap & Hprice & Hdate).
        assert (Hrt : round_trip (Signal <$> df) i k) by done.
        exists (pairs ++ [(i, k)]). split; simpl.
        -- rewrite Htr, fmap_app. simpl. unfold trade_of.
           by rewrite Hprice, Hdate.
        -- intros i' j'. rewrite elem_of_app, list_elem_of_singleton, Hpairs.
           split.
           ++ intros [[Hrt' Hj']|Heq].
              ** split; [done|lia].
              ** injection Heq as -> ->. split; [done|lia].
           ++ intros [Hrt' Hj'].
              destruct (decide (j' = k)) as [->|]; [|left; split; [done|lia]].
              right. by rewrite (round_trip_open (Signal <$> df) i i' k Hik Hi Hgap Hrt').
        -- apply NoDup_app. split; [done|]. split; [|apply NoDup_singleton].
           intros p Hp' ->%list_elem_of_singleton.
           apply Hpairs in Hp' as [_ ?]. lia.
        -- apply StronglySorted_app_2; [|done|repeat constructor].
           intros [i1 j1] p2 H1 ->%list_elem_of_singleton. simpl.
           apply Hpairs in H1 as [(Hij1 & _ & Hj1 & _) Hj1k].
           destruct (Nat.lt_trichotomy j1 i) as [?|[->|?]]; [done|..].
           ++ rewrite Hi in Hj1. done.
           ++ destruct (Hgap j1) as [_ Hne]; [lia|]. done.
        -- by left.
        -- done.
        -- intros _ i' Hi' Hib. exists k.
           destruct (decide (i' = k)) as [->|]; [|split; [lia|done]].
           rewrite Hlk in Hib. done.
    + apply Z.eqb_neq in Hsell.
      assert (Hno : ∀ i, ¬ round_trip (Signal <$> df) i k).
      { intros i (_ & _ & Hs & _). rewrite Hlk in Hs. by injection Hs. }
      exists pairs. split; try done.
      * by apply Hkeep.
      * intros Hp. destruct (Hlong Hp) as (i & Hik & Hi & Hgap & Hrest).
        exists i. split; [lia|]. split; [done|]. split; [|done].
        intros m Hm. destruct (decide (m = k)) as [->|]; [|apply Hgap; lia].
        rewrite Hlk. split; intros Heq; by injection Heq.
      * intros Hp i Hi Hib. destruct (Hflat Hp i) as (m & Hm & Hms).
        -- destruct (decide (i = k)) as [->|]; [|lia].
           rewrite Hlk in Hib. by injection Hib.
        -- done.
        -- exists m. split; [lia|done].
Qed.

Lemma trade_inv_at df k :
  (∀ i j, i < j → (Signal <$> df) !! i = Some 1%Z →
          (Signal <$> df) !! j = Some 1%Z →
          ∃ m, i < m < j ∧ (Signal <$> df) !! m = Some (-1)%Z) →
  k ≤ length df →
  ∃ pairs, trade_inv df k (trade_state_at df k) pairs.
Proof.
  intros Hbb. induction k as [|k IH]; intros Hk.
  - exists []. apply trade_inv_init.
  - destruct IH as [pairs Hinv]; [lia|].
    rewrite trade_state_at_S. by apply (trade_inv_step df k _ pairs).
Qed.

End Ledger.

(** ** What [calculate_metrics] returns *)

Section Metrics.
Context {F : Type} `{Float64 F}.
Variable pow : F → F → F.
Implicit Types (df : list (Row F)).

Lemma calculate_metrics_guard df :
  guard_no_trades df = true →
  Backtest.calculate_metrics pow df = Return None.
Proof.
  unfold guard_no_trades, Backtest.calculate_metrics. by intros ->.
Qed.

(** A returned ledger is the list the loop of lines 49-69 built. *)
Lemma calculate_metrics_ledger df m t :
  Backtest.calculate_metrics pow df = Return (Some (m, t)) →
  t = Backtest.build_trades df.
Proof.
  unfold Backtest.calculate_metrics.
  destruct (_ || _); [done|].
  destruct (Backtest.total_return df) as [|tr]; simpl; [done|].
  destruct (Backtest.total_days df) as [|d]; simpl; [done|].
  destruct (Backtest.cagr pow tr d) as [|c]; simpl; [done|].
  destruct (length (Backtest.build_trades df) =? 0)%nat; [done|].
  intros Heq. by injection Heq.
Qed.

End Metrics.

(** ** The two readings satisfy the laws *)

Ltac sf_compare_cases :=
  repeat match goal with
  | |- context [PosDef.Pos.compare_cont Eq ?a ?b] =>
      change (PosDef.Pos.compare_cont Eq a b) with (Pos.compare a b)
  end;
  repeat match goal with
  | |- context [Z.compare ?a ?b] => destruct (Z.compare_spec a b); simpl
  | |- context [Pos.compare ?a ?b] => destruct (Pos.compare_spec a b); simpl
  end;
  intros; subst; try discriminate; try reflexivity; try lia.

Lemma sf_squeeze l c h :
  SFleb l c = true → SFleb c h = true → SFeqb h l = true → SFeqb c l = true.
Proof.
  unfold SFleb, SFeqb.
  destruct l as [sl|sl| |sl ml el], c as [sc|sc| |sc mc ec],
           h as [sh|sh| |sh mh eh]; simpl;
    try discriminate; try reflexivity;
    repeat match goal with s : bool |- _ => destruct s end; simpl;
    try discriminate; try reflexivity.
  all: sf_compare_cases.
Qed.

Lemma sf_sub_eq x y : SFeqb x y = true → sf_zero_or_nan (SF64sub x y).
Proof.
  unfold SFeqb, SF64sub.
  destruct x as [sx|sx| |sx mx ex], y as [sy|sy| |sy my ey]; simpl;
    try discriminate;
    repeat match goal with s : bool |- _ => destruct s end; simpl;
    try discriminate; try exact I.
  all: sf_compare_cases.
  all: rewrite Z.sub_diag; exact I.
Qed.

Lemma sf_div_undefined x y :
  sf_zero_or_nan x → sf_zero_or_nan y → SF64div x y = S754_nan.
Proof. destruct x, y; simpl; tauto. Qed.

Lemma float_degenerate_range (l c h : float) :
  PrimFloat.eqb h l = true → PrimFloat.leb l c = true →
  PrimFloat.leb c h = true →
  PrimFloat.is_nan (PrimFloat.div (PrimFloat.sub c l) (PrimFloat.sub h l))
  = true.
Proof.
  rewrite FloatAxioms.eqb_spec, !leb_spec. intros Hhl Hlc Hch.
  unfold PrimFloat.is_nan. rewrite FloatAxioms.eqb_spec, div_spec, !sub_spec.
  rewrite sf_div_undefined; [reflexivity| |].
  - apply sf_sub_eq. exact (sf_squeeze _ _ _ Hlc Hch Hhl).
  - apply sf_sub_eq. exact Hhl.
Qed.

#[export] Instance float_laws : Float64Laws float.
Proof.
  split.
  - reflexivity.
  - reflexivity.
  - intros l c h. apply float_degenerate_range.
Qed.

Ltac R_cases :=
  unfold Reqb, Rltb in *;
  repeat match goal with
  | |- context [Req_dec_T ?a ?b] => destruct (Req_dec_T a b)
  | |- context [Rlt_dec ?a ?b] => destruct (Rlt_dec a b)
  | |- context [Rle_dec ?a ?b] => destruct (Rle_dec a b)
  | H : context [Req_dec_T ?a ?b] |- _ => destruct (Req_dec_T a b)
  | H : context [Rlt_dec ?a ?b] |- _ => destruct (Rlt_dec a b)
  | H : context [Rle_dec ?a ?b] |- _ => destruct (Rle_dec a b)
  end.

#[export] Instance xreal_laws : Float64Laws xreal.
Proof.
  split.
  - reflexivity.
  - simpl. rewrite Rabs_R0. R_cases; [done|lra].
  - intros l c h. simpl. unfold xleb.
    destruct l as [a| | |], c as [b| | |], h as [d| | |]; simpl;
      try done; R_cases; simpl; try done; try lra.
Qed.

(** ** Indicators and the drop of undefined rows *)

Section Indicators.
Context {F : Type} `{Float64 F}.

Lemma filter_none {A} (P : A → Prop) `{∀ x, Decision (P x)} (l : list A) :
  (∀ x, x ∈ l → ¬ P x) → filter P l = [].
Proof.
  induction l as [|x r IH]; intros Hno; [done|].
  rewrite filter_cons_False by (apply Hno; left).
  apply IH. intros y Hy. apply Hno. by right.
Qed.

(** A rolling aggregate is missing on the first [w - 1] rows. *)
Lemma rolling_short w agg (s : list F) i :
  i < length s → S i < w → iloc (rolling w agg s) i = fnan.
Proof.
  intros Hi Hw. apply iloc_lookup. unfold rolling.
  rewrite list_lookup_imap.
  destruct (lookup_lt_is_Some_2 s i Hi) as [x ->]. simpl.
  by apply Nat.ltb_lt in Hw as ->.
Qed.

Lemma strategy1_indicator_rows (df : list (Bar.t F)) r :
  r ∈ Strategy1.indicators df →
  ∃ i, df !! i = Some (Strategy1.bar r)
    ∧ Strategy1.Range_25D r
      = iloc (rolling 25 fmean_list
                (zip_with fsub (Bar.High <$> df) (Bar.Low <$> df))) i
    ∧ Strategy1.IBS r
      = ((Bar.Close (Strategy1.bar r) - Bar.Low (Strategy1.bar r))
         / (Bar.High (Strategy1.bar r) - Bar.Low (Strategy1.bar r)))%fl.
Proof.
  unfold Strategy1.indicators. intros (i & b & -> & Hb)%elem_of_lookup_imap_1.
  exists i. simpl. split; [done|]. split; [done|].
  apply iloc_lookup. rewrite !lookup_zip_with, !list_lookup_fmap, Hb. done.
Qed.

Lemma strategy4_indicator_rows (df : list (Bar.t F)) r :
  r ∈ Strategy4.indicators df →
  ∃ i, df !! i = Some (Strategy4.bar r)
    ∧ Strategy4.SMA_200 r
      = iloc (rolling 200 fmean_list (Bar.Close <$> df)) i.
Proof.
  unfold Strategy4.indicators. intros (i & b & -> & Hb)%elem_of_lookup_imap_1.
  exists i. by simpl.
Qed.

Context `{!Float64Laws F}.

Lemma strategy1_short_working (df : list (Bar.t F)) :
  length df < 25 → Strategy1.working df = [].
Proof.
  intros Hlen. unfold Strategy1.working, Strategy1.dropna.
  apply filter_none. intros r Hr.
  destruct (strategy1_indicator_rows df r Hr) as (i & Hi & Hrange & _).
  apply lookup_lt_Some in Hi.
  rewrite rolling_short in Hrange.
  - unfold Strategy1.has_nan. rewrite Hrange, fisnan_fnan.
    rewrite !orb_true_r. done.
  - rewrite length_zip_with_l_eq; rewrite !length_fmap; done.
  - lia.
Qed.

Lemma strategy4_short_working (df : list (Bar.t F)) :
  length df < 200 → Strategy4.working df = [].
Proof.
  intros Hlen. unfold Strategy4.working, Strategy4.dropna.
  apply filter_none. intros r Hr.
  destruct (strategy4_indicator_rows df r Hr) as (i & Hi & Hsma).
  apply lookup_lt_Some in Hi.
  rewrite rolling_short in Hsma.
  - unfold Strategy4.has_nan. rewrite Hsma, fisnan_fnan.
    rewrite !orb_true_r. done.
  - by rewrite length_fmap.
  - lia.
Qed.

(** A row that survives the drop is an input bar that is not degenerate. *)
Lemma strategy1_working_rows (df : list (Bar.t F)) r :
  r ∈ Strategy1.working df →
  Strategy1.bar r ∈ df ∧ ¬ degenerate_bar (Strategy1.bar r).
Proof.
  unfold Strategy1.working, Strategy1.dropna.
  intros [Hnan Hr]%list_elem_of_filter.
  destruct (strategy1_indicator_rows df r Hr) as (i & Hi & _ & Hibs).
  split; [by eapply list_elem_of_lookup_2|].
  intros (Hhl & Hlc & Hch).
  pose proof (fdiv_degenerate_range _ _ _ Hhl Hlc Hch) as Hundef.
  rewrite <- Hibs in Hundef.
  unfold Strategy1.has_nan in Hnan. rewrite Hundef, orb_true_r in Hnan. done.
Qed.

End Indicators.

(** ** Exact arithmetic *)

Section Exact.

Lemma Reqb_true x y : Reqb x y = true ↔ x = y.
Proof. unfold Reqb. destruct (Req_dec_T x y); split; done. Qed.

Lemma Reqb_false x y : Reqb x y = false ↔ x ≠ y.
Proof. unfold Reqb. destruct (Req_dec_T x y); split; done. Qed.

Lemma Rltb_true x y : Rltb x y = true ↔ (x < y)%R.
Proof. unfold Rltb. destruct (Rlt_dec x y); split; done. Qed.

Lemma Rltb_false x y : Rltb x y = false ↔ (y <= x)%R.
Proof. unfold Rltb. destruct (Rlt_dec x y); split; try done; lra. Qed.

Lemma xdiv_fin a b : b ≠ 0%R → xdiv (Fin a) (Fin b) = Fin (a / b).
Proof. intros Hb. simpl. by apply Reqb_false in Hb as ->. Qed.

Lemma xleb_fin a b : xleb (Fin a) (Fin b) = true ↔ (a <= b)%R.
Proof.
  unfold xleb. simpl. rewrite orb_true_iff, Rltb_true, Reqb_true. lra.
Qed.

(** Lines 34-35 against the formula of the specification. *)
Lemma xreal_cagr (pow : xreal → xreal → xreal) tr d :
  (0 < d)%Z →
  Backtest.cagr pow tr d = Return (Backtest.cagr_spec pow tr d).
Proof.
  intros Hd. apply IZR_lt in Hd.
  assert (Hy : (IZR d / 365 ≠ 0)%R).
  { apply Rgt_not_eq, Rdiv_lt_0_compat; lra. }
  unfold Backtest.cagr, Backtest.cagr_spec, Backtest.py_div.
  cbn [fofZ fdiv feqb xreal_Float64].
  rewrite (xdiv_fin (IZR d) 365) by lra.
  cbn [xeqb]. rewrite (proj2 (Reqb_false (IZR d / 365) 0)) by done.
  rewrite (xdiv_fin 1 (IZR d / 365)) by done.
  rewrite (xdiv_fin 365 (IZR d)) by lra.
  replace (1 / (IZR d / 365))%R with (365 / IZR d)%R by (field; lra).
  done.
Qed.

End Exact.

(** ** What [calculate_metrics] computes when it returns metrics *)

Section MetricsInv.
Context {F : Type} `{Float64 F}.
Variable pow : F → F → F.
Implicit Types (df : list (Row F)).

Lemma calculate_metrics_inv df m t :
  Backtest.calculate_metrics pow df = Return (Some (m, t)) →
  guard_no_trades df = false
  ∧ t = Backtest.build_trades df
  ∧ t ≠ []
  ∧ Backtest.total_return df = Return (Total_Return m)
  ∧ (∃ d, Backtest.total_days df = Return d
          ∧ Backtest.cagr pow (Total_Return m) d = Return (CAGR m))
  ∧ Sharpe_Ratio m = Backtest.sharpe_ratio df
  ∧ Max_Drawdown m = Backtest.max_drawdown (EquityCurve <$> df)
  ∧ Profit_Factor m = Backtest.profit_factor (Return_pct <$> t).
Proof.
  unfold Backtest.calculate_metrics, guard_no_trades.
  destruct (_ || _); [done|].
  destruct (Backtest.total_return df) as [|tr]; simpl; [done|].
  destruct (Backtest.total_days df) as [|d]; simpl; [done|].
  destruct (Backtest.cagr pow tr d) as [|c] eqn:Hc; simpl; [done|].
  destruct (Backtest.build_trades df) as [|t0 ts] eqn:Ht; simpl; [done|].
  intros Heq. injection Heq as <- <-. simpl.
  split; [done|]. split; [done|]. split; [done|]. split; [done|].
  split; [by exists d|]. done.
Qed.

(** The first signal change is 0, so a passing guard means two rows at
    least. *)
Lemma guard_passes_two_rows df :
  guard_no_trades df = false → 2 ≤ length df.
Proof.
  unfold guard_no_trades. intros [Hent _]%orb_false_iff.
  apply Nat.eqb_neq in Hent.
  destruct (Backtest.entries df) as [|i l] eqn:He; [done|].
  assert (Hi : i ∈ Backtest.entries df) by (rewrite He; left).
  unfold Backtest.entries in Hi.
  apply list_elem_of_filter in Hi as [Hone Hi].
  apply elem_of_seq in Hi.
  destruct i as [|i]; [|lia].
  exfalso. unfold Backtest.signal_changes, fillna_Z, diff, iloc in Hone.
  destruct df as [|r df']; [simpl in Hi; lia|]. simpl in Hone. done.
Qed.

Lemma total_return_returns df :
  1 ≤ length df → ∃ tr, Backtest.total_return df = Return tr.
Proof.
  intros Hlen. unfold Backtest.total_return, Backtest.iloc_first,
    Backtest.iloc_last.
  destruct (lookup_lt_is_Some_2 (EquityCurve <$> df) 0) as [x Hx].
  { rewrite length_fmap. lia. }
  rewrite Hx. simpl. rewrite last_lookup.
  destruct (lookup_lt_is_Some_2 (EquityCurve <$> df)
              (pred (length (EquityCurve <$> df)))) as [y Hy].
  { rewrite length_fmap. lia. }
  rewrite Hy. simpl. by eexists.
Qed.

Lemma total_days_span df :
  1 ≤ length df → Backtest.total_days df = Return (date_span df).
Proof.
  intros Hlen. unfold Backtest.total_days, Backtest.iloc_first,
    Backtest.iloc_last, date_span.
  rewrite last_lookup, head_lookup.
  destruct (lookup_lt_is_Some_2 (Date <$> df) 0) as [x Hx].
  { rewrite length_fmap. lia. }
  destruct (lookup_lt_is_Some_2 (Date <$> df)
              (pred (length (Date <$> df)))) as [y Hy].
  { rewrite length_fmap. lia. }
  rewrite Hx, Hy. done.
Qed.

Lemma dates_increasing_span df :
  dates_increasing df → 2 ≤ length df → (0 < date_span df)%Z.
Proof.
  intros Hinc Hlen. unfold date_span. rewrite last_lookup, head_lookup.
  destruct (lookup_lt_is_Some_2 (Date <$> df) 0) as [x Hx].
  { rewrite length_fmap. lia. }
  destruct (lookup_lt_is_Some_2 (Date <$> df)
              (pred (length (Date <$> df)))) as [y Hy].
  { rewrite length_fmap. lia. }
  rewrite Hx, Hy. simpl.
  assert (x < y)%Z; [|lia].
  apply (Hinc 0 (pred (length (Date <$> df)))); [|done..].
  rewrite length_fmap. lia.
Qed.

End MetricsInv.

(** ** [calculate_metrics] in exact arithmetic does not raise on increasing
    dates *)

Section MetricsExact.
Variable pow : xreal → xreal → xreal.
Implicit Types (df : list (Row xreal)).

Lemma calculate_metrics_returns df :
  dates_increasing df →
  (guard_no_trades df = true
   ∧ Backtest.calculate_metrics pow df = Return None)
  ∨ (guard_no_trades df = false ∧ Backtest.build_trades df = []
     ∧ Backtest.calculate_metrics pow df = Return None)
  ∨ (guard_no_trades df = false ∧ Backtest.build_trades df ≠ []
     ∧ ∃ m, Backtest.calculate_metrics pow df
            = Return (Some (m, Backtest.build_trades df))).
Proof.
  intros Hinc. destruct (guard_no_trades df) eqn:Hg.
  { left. split; [done|]. by apply calculate_metrics_guard. }
  right.
  pose proof (guard_passes_two_rows df Hg) as Hlen.
  destruct (total_return_returns df) as [tr Htr]; [lia|].
  pose proof (total_days_span df) as Hdays.
  pose proof (dates_increasing_span df Hinc Hlen) as Hspan.
  unfold Backtest.calculate_metrics. unfold guard_no_trades in Hg.
  rewrite Hg, Htr. simpl. rewrite Hdays by lia. simpl.
  rewrite xreal_cagr by done. simpl.
  destruct (Backtest.build_trades df) as [|t0 ts] eqn:Ht; simpl.
  - left. done.
  - right. split; [done|]. split; [done|]. by eexists.
Qed.

End MetricsExact.

(** ** The table [Scenario.sell_on_last_row] *)

Section SellOnLastRow.
Context {F : Type} `{Float64 F}.

Lemma sell_on_last_row_columns :
  Date <$> Scenario.sell_on_last_row (F:=F) = [0; 1; 2]%Z
  ∧ Signal <$> Scenario.sell_on_last_row (F:=F) = [0; 1; -1]%Z
  ∧ EquityCurve <$> Scenario.sell_on_last_row (F:=F)
    = [fofZ 1; fofZ 1; fofZ 1]
  ∧ Backtest.build_trades (Scenario.sell_on_last_row (F:=F))
    = [trade_of Scenario.sell_on_last_row 1 2]
  ∧ guard_no_trades (Scenario.sell_on_last_row (F:=F)) = false.
Proof. done. Qed.

Lemma sell_on_last_row_dates :
  dates_increasing (Scenario.sell_on_last_row (F:=F))
  ∧ date_span (Scenario.sell_on_last_row (F:=F)) = 2%Z.
Proof.
  split; [|done]. unfold dates_increasing.
  destruct sell_on_last_row_columns as [-> _].
  intros i j di dj Hij Hi Hj.
  destruct i as [|[|[|i]]], j as [|[|[|j]]]; simpl in *; simplify_eq; lia.
Qed.

End SellOnLastRow.

Lemma sell_on_last_row_metrics (pow : xreal → xreal → xreal) :
  ∃ m, Backtest.calculate_metrics pow Scenario.sell_on_last_row
       = Return (Some (m, Backtest.build_trades Scenario.sell_on_last_row)).
Proof.
  destruct (calculate_metrics_returns pow Scenario.sell_on_last_row)
    as [[Hg _]|[(_ & Ht & _)|(_ & _ & Hm)]].
  - apply sell_on_last_row_dates.
  - by destruct (sell_on_last_row_columns (F:=xreal)) as (_ & _ & _ & _ & Hg').
  - done.
  - done.
Qed.

(** ** Drawdown in exact arithmetic *)

Section DrawdownExact.

Lemma positive_finite_list (l : list xreal) :
  Forall positive_finite l →
  ∃ rs, l = Fin <$> rs ∧ Forall (λ r, 0 < r)%R rs.
Proof.
  induction 1 as [|x l (r & -> & Hr) _ (rs & -> & Hrs)].
  - by exists [].
  - exists (r :: rs). split; [done|by constructor].
Qed.

Lemma dropna_vals_fin (rs : list R) :
  dropna_vals (Fin <$> rs) = (Fin <$> rs : list xreal).
Proof.
  unfold dropna_vals. induction rs as [|r rs IH]; [done|].
  cbn [fmap list_fmap]. rewrite filter_cons_True by done.
  f_equal. exact IH.
Qed.

Lemma if_Fin (b : bool) x y :
  (if b then Fin x else Fin y) = Fin (if b then x else y).
Proof. by destruct b. Qed.

Lemma Rmax_ltb c r : (if Rltb c r then r else c) = Rmax c r.
Proof.
  unfold Rltb, Rmax. destruct (Rlt_dec c r), (Rle_dec c r); try done; lra.
Qed.

Lemma Rmin_ltb m y : (if Rltb y m then y else m) = Rmin m y.
Proof.
  unfold Rltb, Rmin. destruct (Rlt_dec y m), (Rle_dec m y); try done; lra.
Qed.

Lemma drawdown_from c rs :
  (0 < c)%R → Forall (λ r, 0 < r)%R rs →
  zip_with (λ e p, ((e - p) / p)%fl) (Fin <$> rs)
           (cummax_from (Some (Fin c)) (Fin <$> rs))
  = Fin <$> dd_from c rs.
Proof.
  intros Hc Hrs. revert c Hc.
  induction Hrs as [|r rs Hr _ IH]; intros c Hc; [done|].
  cbn [fmap list_fmap cummax_from fisnan xreal_Float64 xisnan fltb xltb].
  rewrite if_Fin, Rmax_ltb.
  assert (Hm : (0 < Rmax c r)%R).
  { pose proof (Rmax_l c r). lra. }
  cbn [zip_with dd_from]. rewrite IH by done.
  f_equal. cbn [fsub fdiv xreal_Float64 xsub xopp xadd].
  rewrite xdiv_fin by lra. done.
Qed.

Lemma Drawdown_fin r rs :
  Forall (λ r, 0 < r)%R (r :: rs) →
  Backtest.Drawdown (Fin <$> r :: rs) = Fin <$> dd_from r (r :: rs).
Proof.
  intros Hrs. inversion Hrs as [|? ? Hr Hrs']; subst.
  unfold Backtest.Drawdown, cummax.
  cbn [fmap list_fmap cummax_from fisnan xreal_Float64 xisnan zip_with
       dd_from].
  assert (Hmax : Rmax r r = r) by (unfold Rmax; by destruct (Rle_dec r r)).
  rewrite Hmax. rewrite (drawdown_from r rs) by done.
  f_equal. cbn [fsub fdiv xreal_Float64 xsub xopp xadd].
  rewrite xdiv_fin by lra. done.
Qed.

Lemma dd_from_nonpos c rs :
  (0 < c)%R → Forall (λ r, 0 < r)%R rs → Forall (λ d, d <= 0)%R (dd_from c rs).
Proof.
  intros Hc Hrs. revert c Hc.
  induction Hrs as [|r rs Hr _ IH]; intros c Hc; [constructor|].
  pose proof (Rmax_l c r). pose proof (Rmax_r c r).
  simpl. constructor; [|apply IH; lra].
  pose proof (Rinv_0_lt_compat (Rmax c r) ltac:(lra)).
  unfold Rdiv. nra.
Qed.

Lemma dd_from_zero c rs :
  (0 < c)%R → Forall (λ r, 0 < r)%R rs →
  Forall (λ d, d = 0)%R (dd_from c rs) ↔ sorted_from c rs.
Proof.
  intros Hc Hrs. revert c Hc.
  induction Hrs as [|r rs Hr _ IH]; intros c Hc.
  - split; [done|constructor].
  - pose proof (Rmax_l c r) as Hl. pose proof (Rmax_r c r) as Hr'.
    simpl. rewrite Forall_cons. split.
    + intros [Hd Hrest].
      assert (Heq : Rmax c r = r).
      { apply Rmult_integral in Hd as [Hd|Hd]; [lra|].
        pose proof (Rinv_neq_0_compat (Rmax c r)). lra. }
      rewrite Heq in Hrest. split; [lra|]. by apply IH.
    + intros [Hcr Hsorted].
      assert (Heq : Rmax c r = r) by (by apply Rmax_right).
      rewrite Heq. split; [unfold Rdiv; lra|]. by apply IH.
Qed.

Lemma fmin_list_fin d ds :
  fmin_list (Fin <$> d :: ds) = Fin (foldl Rmin d ds).
Proof.
  cbn [fmap list_fmap fmin_list]. revert d.
  induction ds as [|y ds IH]; intros d; [done|].
  cbn [fmap list_fmap foldl fltb xreal_Float64 xltb].
  rewrite if_Fin, Rmin_ltb. apply IH.
Qed.

Lemma fold_Rmin_spec ds : ∀ d,
  foldl Rmin d ds ∈ d :: ds ∧ Forall (λ x, foldl Rmin d ds <= x)%R (d :: ds).
Proof.
  induction ds as [|y ds IH]; intros d; simpl.
  - split; [left|]. constructor; [lra|constructor].
  - destruct (IH (Rmin d y)) as [Hin Hle].
    apply Forall_cons in Hle as [Hm Hle].
    pose proof (Rmin_l d y). pose proof (Rmin_r d y).
    split.
    + apply elem_of_cons in Hin as [Hin|Hin]; [|by do 2 right].
      rewrite Hin. unfold Rmin. destruct (Rle_dec d y); [left|right; left].
    + constructor; [lra|]. constructor; [lra|done].
Qed.

Lemma non_decreasing_sorted c rs :
  non_decreasing (Fin <$> c :: rs : list xreal) ↔ sorted_from c rs.
Proof.
  revert c. induction rs as [|r rs IH]; intros c.
  - split; [done|]. intros _ [|i] x y Hx Hy; done.
  - simpl. rewrite <- IH. split.
    + intros Hnd. split.
      * apply xleb_fin. by apply (Hnd 0).
      * intros i x y Hx Hy. by apply (Hnd (S i)).
    + intros [Hcr Hnd] [|i] x y Hx Hy.
      * simpl in Hx, Hy. simplify_eq. by apply xleb_fin.
      * by apply (Hnd i).
Qed.

End DrawdownExact.

(** ** The sentinels *)

Section ProfitFactor.
Context {F : Type} `{Float64Laws F}.

(** No losing trade: the sum of the (empty) losses is 0, the test
    [losses != 0] fails and the profit factor is [float('inf')]. *)
Lemma profit_factor_no_losses (returns : list F) :
  Backtest.losing returns = [] → Backtest.profit_factor returns = finf.
Proof.
  intros Hl. unfold Backtest.profit_factor. rewrite Hl.
  unfold series_sum, dropna_vals, fsum. simpl.
  by rewrite fabs_zero_eqb.
Qed.

End ProfitFactor.

Section SharpeExact.

Lemma xadd_fin x y s :
  xadd x y = Fin s → ∃ a b, x = Fin a ∧ y = Fin b ∧ s = (a + b)%R.
Proof.
  destruct x as [a| | |], y as [b| | |]; simpl; try done.
  intros Heq. injection Heq as <-. by exists a, b.
Qed.

Lemma xmul_fin x y s :
  xmul x y = Fin s → ∃ a b, x = Fin a ∧ y = Fin b ∧ s = (a * b)%R.
Proof.
  destruct x as [a| | |], y as [b| | |]; simpl; try done;
    try (unfold xmul_inf; repeat destruct (Reqb _ _);
         repeat destruct (Bool.eqb _ _); done).
  intros Heq. injection Heq as <-. by exists a, b.
Qed.

Lemma xsub_fin x y s :
  xsub x y = Fin s → ∃ a b, x = Fin a ∧ y = Fin b ∧ s = (a - b)%R.
Proof.
  unfold xsub. intros (a & b' & -> & Hy & ->)%xadd_fin.
  destruct y as [b| | |]; simpl in Hy; try done.
  injection Hy as <-. by exists a, b.
Qed.

(** A finite sum has finite terms. *)
Lemma fsum_fin (l : list xreal) : ∀ acc s,
  foldl xadd acc l = Fin s →
  ∃ a rs, acc = Fin a ∧ l = Fin <$> rs ∧ s = (a + Rsum rs)%R.
Proof.
  induction l as [|x l IH]; intros acc s Hs; simpl in Hs.
  - exists s, []. split; [done|]. split; [done|]. simpl. lra.
  - destruct (IH _ _ Hs) as (a' & rs & Ha' & -> & ->).
    destruct (xadd_fin _ _ _ Ha') as (a & b & -> & -> & ->).
    exists a, (b :: rs). split; [done|]. split; [done|]. simpl. lra.
Qed.

Lemma squares_fin avg (l : list xreal) : ∀ qs,
  (λ x, xmul (xsub avg x) (xsub avg x)) <$> l = Fin <$> qs →
  l ≠ [] →
  ∃ a rs, avg = Fin a ∧ l = Fin <$> rs
          ∧ qs = (λ r, (a - r) * (a - r))%R <$> rs.
Proof.
  induction l as [|x l IH]; intros qs Hq Hne; [done|].
  destruct qs as [|q qs]; [done|]. simpl in Hq.
  injection Hq as Hq Hqs.
  destruct (xmul_fin _ _ _ Hq) as (u & v & Hu & Hv & ->).
  rewrite Hu in Hv. injection Hv as <-.
  destruct (xsub_fin _ _ _ Hu) as (a & r & -> & -> & ->).
  destruct l as [|y l].
  - destruct qs; [|done]. by exists a, [r].
  - destruct (IH qs Hqs) as (a' & rs & Ha & -> & ->); [done|].
    injection Ha as <-. by exists a, (r :: rs).
Qed.

Lemma Rsum_squares_nonneg a rs :
  (0 <= Rsum ((λ r, (a - r) * (a - r))%R <$> rs))%R.
Proof.
  unfold Rsum. induction rs as [|r rs IH]; cbn [fmap list_fmap foldr].
  - lra.
  - apply Rplus_le_le_0_compat; [exact (Rle_0_sqr (a - r))|exact IH].
Qed.

Lemma Rsum_squares_zero a rs :
  Rsum ((λ r, (a - r) * (a - r))%R <$> rs) = 0%R → Forall (λ r, r = a) rs.
Proof.
  unfold Rsum.
  induction rs as [|r rs IH]; cbn [fmap list_fmap foldr]; intros Hs;
    [constructor|].
  pose proof (Rsum_squares_nonneg a rs) as Hnn. unfold Rsum in Hnn.
  pose proof (Rle_0_sqr (a - r)) as Hsq. unfold Rsqr in Hsq.
  change (list_fmap R R ?f rs) with (f <$> rs) in Hs.
  set (q := ((a - r) * (a - r))%R) in *.
  set (t := foldr Rplus 0%R _) in *.
  assert (Hq : q = 0%R) by lra. assert (Ht : t = 0%R) by lra.
  constructor; [|by apply IH].
  unfold q in Hq. apply Rmult_integral in Hq. lra.
Qed.

(** Zero deviation: every value is the mean. *)
Lemma series_std_zero (l : list xreal) :
  dropna_vals l = l → series_std l = Fin 0 →
  ∃ a rs, series_mean l = Fin a ∧ l = Fin <$> rs ∧ Forall (λ r, r = a) rs.
Proof.
  intros Hl. unfold series_std, series_mean. rewrite Hl.
  destruct (length l <=? 1)%nat eqn:Hlen; [done|].
  apply Nat.leb_gt in Hlen.
  set (avg := fmean_list l).
  cbn [fsqrt fdiv fofZ fmul fsub xreal_Float64]. unfold fsum.
  cbn [fadd fofZ xreal_Float64].
  assert (Hc : IZR (Z.of_nat (length l) - 1) ≠ 0%R).
  { apply not_0_IZR. lia. }
  destruct (foldl xadd (Fin (IZR 0)) _) as [x| | |] eqn:Hsum; simpl;
    try done.
  - apply fsum_fin in Hsum as (a0 & qs & Ha0 & Hqs & ->).
    injection Ha0 as <-.
    destruct (squares_fin avg l qs Hqs) as (a & rs & Ha & -> & ->).
    { intros ->. simpl in Hlen. lia. }
    rewrite (proj2 (Reqb_false _ _) Hc). cbn [xsqrt].
    destruct (Rltb _ 0) eqn:Hneg; [done|]. apply Rltb_false in Hneg.
    intros Heq. injection Heq as Heq. apply sqrt_eq_0 in Heq; [|done].
    exists a, rs. split; [done|]. split; [done|].
    apply Rsum_squares_zero.
    apply (Rmult_eq_compat_r (IZR (Z.of_nat (length (Fin <$> rs)) - 1))) in Heq.
    unfold Rdiv in Heq. rewrite Rmult_assoc, Rinv_l in Heq by done. lra.
  - unfold xinf_sign. by destruct (Rltb _ 0).
  - unfold xinf_sign. by destruct (Rltb _ 0).
Qed.

Lemma dropna_vals_fillna (l : list xreal) :
  dropna_vals (fillna (Fin 0) l) = fillna (Fin 0) l.
Proof.
  unfold dropna_vals, fillna. induction l as [|x l IH]; [done|].
  cbn [fmap list_fmap]. rewrite filter_cons_True; [by f_equal|].
  by destruct x.
Qed.

Lemma Daily_Return_head (df : list (Row xreal)) :
  df ≠ [] → ∃ l, Backtest.Daily_Return df = Fin 0 :: l.
Proof.
  destruct df as [|r df]; [done|]. intros _.
  unfold Backtest.Daily_Return, pct_change, fillna. simpl. by eexists.
Qed.

(** Zero deviation of the daily returns: the Sharpe ratio is 0/0. *)
Lemma sharpe_ratio_zero_std (df : list (Row xreal)) :
  Backtest.daily_std df = Fin 0 → Backtest.sharpe_ratio df = NaN.
Proof.
  intros Hstd. unfold Backtest.sharpe_ratio. rewrite Hstd.
  unfold Backtest.daily_std in Hstd.
  assert (Hne : df ≠ []).
  { intros ->. by vm_compute in Hstd. }
  assert (Hdr : dropna_vals (Backtest.Daily_Return df)
                = Backtest.Daily_Return df) by apply dropna_vals_fillna.
  destruct (series_std_zero _ Hdr Hstd) as (a & rs & Hmean & Hrs & Hall).
  destruct (Daily_Return_head df Hne) as [l Hl].
  rewrite Hl in Hrs. destruct rs as [|r rs]; [done|].
  injection Hrs as <- _. apply Forall_cons in Hall as [<- _].
  rewrite Hmean. simpl. unfold Rltb.
  destruct (Rlt_dec 252 0); [lra|]. simpl.
  rewrite (proj2 (Reqb_true 0 0)) by done.
  rewrite (proj2 (Reqb_true _ 0)) by lra. done.
Qed.

End SharpeExact.

Section SellOnLastRowExact.

Lemma sell_on_last_row_daily_std :
  Backtest.daily_std (Scenario.sell_on_last_row (F:=xreal)) = Fin 0.
Proof.
  unfold Backtest.daily_std, Backtest.Daily_Return.
  destruct (sell_on_last_row_columns (F:=xreal)) as (_ & _ & -> & _).
  assert (Hdr : fillna (fofZ 0) (pct_change [fofZ 1; fofZ 1; fofZ 1])
                = [Fin 0; Fin 0; Fin 0]).
  { unfold fillna, pct_change, iloc. simpl.
    rewrite (proj2 (Reqb_false 1 0)) by lra. simpl.
    repeat f_equal; lra. }
  rewrite Hdr.
  assert (Hmean : fmean_list [Fin 0; Fin 0; Fin 0] = Fin 0).
  { unfold fmean_list, fsum.
    cbn [foldl length fadd fofZ fdiv xreal_Float64 xadd].
    change (Z.of_nat 3) with 3%Z. rewrite xdiv_fin by lra. f_equal. lra. }
  unfold series_std.
  change (dropna_vals [Fin 0; Fin 0; Fin 0]) with [Fin 0; Fin 0; Fin 0].
  cbn [length Nat.leb]. rewrite Hmean. unfold fsum.
  cbn [fmap list_fmap foldl fadd fsub fmul fdiv fsqrt fofZ xreal_Float64
       xsub xadd xopp xmul].
  change (Z.of_nat 3 - 1)%Z with 2%Z. rewrite xdiv_fin by lra.
  cbn [xsqrt]. rewrite (proj2 (Rltb_false _ 0)) by lra.
  f_equal. transitivity (R_sqrt.sqrt 0); [f_equal; lra|apply sqrt_0].
Qed.

Lemma sell_on_last_row_no_losses :
  Backtest.losing
    (Return_pct <$> Backtest.build_trades (Scenario.sell_on_last_row (F:=xreal)))
  = [].
Proof.
  destruct (sell_on_last_row_columns (F:=xreal)) as (_ & _ & _ & -> & _).
  unfold Backtest.losing. simpl.
  rewrite (proj2 (Reqb_false 100 0)) by lra. simpl.
  rewrite filter_cons_False; [done|]. simpl. rewrite Rltb_true. lra.
Qed.

End SellOnLastRowExact.

(** ** The guard of [calculate_metrics] *)

Section Guard.
Context {F : Type} `{Float64 F}.
Implicit Types (df : list (Row F)).

Lemma signal_changes_iloc df i :
  i < length df →
  iloc (Backtest.signal_changes df) i
  = match i with
    | O => 0%Z
    | S j => (iloc (Signal <$> df) (S j) - iloc (Signal <$> df) j)%Z
    end.
Proof.
  intros Hi. apply iloc_lookup.
  unfold Backtest.signal_changes, fillna_Z, diff.
  rewrite list_lookup_fmap, list_lookup_imap.
  destruct (lookup_lt_is_Some_2 (Signal <$> df) i) as [x Hx].
  { by rewrite length_fmap. }
  rewrite Hx. destruct i as [|j]; simpl; [done|].
  by rewrite (iloc_lookup _ _ _ Hx).
Qed.

(** The guard lets a table through only if some sell sits on the row right
    after a buy: otherwise no difference of consecutive signals is -2, and
    [calculate_metrics] returns the absent result whatever round trips the
    table holds. *)
Lemma no_adjacent_sell_no_metrics pow df :
  Forall (λ x, x = 1 ∨ x = -1 ∨ x = 0)%Z (Signal <$> df) →
  (∀ j, (Signal <$> df) !! j = Some 1%Z →
        (Signal <$> df) !! (S j) ≠ Some (-1)%Z) →
  Backtest.exits df = []
  ∧ Backtest.calculate_metrics pow df = Return None.
Proof.
  intros Hvals Hadj.
  assert (Hex : Backtest.exits df = []).
  { unfold Backtest.exits. apply filter_none. intros i Hi%elem_of_seq Hch.
    rewrite signal_changes_iloc in Hch by lia.
    destruct i as [|j]; [done|].
    destruct (lookup_lt_is_Some_2 (Signal <$> df) (S j)) as [y Hy].
    { rewrite length_fmap. lia. }
    destruct (lookup_lt_is_Some_2 (Signal <$> df) j) as [x Hx].
    { rewrite length_fmap. lia. }
    rewrite (iloc_lookup _ _ _ Hx), (iloc_lookup _ _ _ Hy) in Hch.
    rewrite Forall_forall in Hvals.
    pose proof (Hvals x (list_elem_of_lookup_2 _ _ _ Hx)) as Hxv.
    pose proof (Hvals y (list_elem_of_lookup_2 _ _ _ Hy)) as Hyv.
    assert (x = 1%Z ∧ y = (-1)%Z) as [-> ->] by lia.
    by destruct (Hadj j Hx). }
  split; [done|]. apply calculate_metrics_guard.
  unfold guard_no_trades. rewrite Hex. apply orb_true_r.
Qed.

End Guard.

(** ** More on [calculate_metrics]: short tables and exceptions *)

Section MetricsEdges.
Context {F : Type} `{Float64 F}.
Variable pow : F → F → F.
Implicit Types (df : list (Row F)).

(** An entry and an exit are different rows, neither of them row 0: a
    passing guard means three rows at least. *)
Lemma guard_passes_three_rows df :
  guard_no_trades df = false → 3 ≤ length df.
Proof.
  unfold guard_no_trades. intros [Hent Hex]%orb_false_iff.
  apply Nat.eqb_neq in Hent. apply Nat.eqb_neq in Hex.
  destruct (Backtest.entries df) as [|i l] eqn:He; [done|].
  destruct (Backtest.exits df) as [|j l'] eqn:Hx; [done|].
  assert (Hi : i ∈ Backtest.entries df) by (rewrite He; left).
  assert (Hj : j ∈ Backtest.exits df) by (rewrite Hx; left).
  unfold Backtest.entries in Hi. unfold Backtest.exits in Hj.
  apply list_elem_of_filter in Hi as [Hone Hi].
  apply list_elem_of_filter in Hj as [Htwo Hj].
  apply elem_of_seq in Hi. apply elem_of_seq in Hj.
  rewrite signal_changes_iloc in Hone by lia.
  rewrite signal_changes_iloc in Htwo by lia.
  destruct i as [|i]; [done|]. destruct j as [|j]; [done|].
  destruct (decide (i = j)) as [->|]; [|lia].
  rewrite Hone in Htwo. done.
Qed.

(** Every trade of the ledger carries the return of its own prices. *)
Lemma build_trades_return_pct df :
  Forall (λ t, Return_pct t = RunBacktest.profit_pct t)
         (Backtest.build_trades df).
Proof.
  unfold Backtest.build_trades.
  assert (Hgen : ∀ l st,
    Forall (λ t, Return_pct t = RunBacktest.profit_pct t) (Backtest.trades st) →
    Forall (λ t, Return_pct t = RunBacktest.profit_pct t)
           (Backtest.trades (foldl (Backtest.trade_step df) st l))).
  { induction l as [|i l IH]; intros st Hst; [done|]. simpl. apply IH.
    unfold Backtest.trade_step.
    destruct (_ && _); [done|]. destruct (_ && _); [|done]. simpl.
    apply Forall_app. split; [done|]. by repeat constructor. }
  apply Hgen. constructor.
Qed.

(** When and what [calculate_metrics] raises. *)
Lemma calculate_metrics_raises df e :
  Backtest.calculate_metrics pow df = Raise e
  ↔ e = ZeroDivisionError ∧ guard_no_trades df = false
    ∧ ((fofZ (date_span df) / fofZ 365)%fl =? fofZ 0)%fl = true.
Proof.
  destruct (guard_no_trades df) eqn:Hg.
  { rewrite calculate_metrics_guard by done. split; [done|]. by intros (_ & ? & _). }
  pose proof (guard_passes_three_rows df Hg) as Hlen.
  destruct (total_return_returns df) as [tr Htr]; [lia|].
  pose proof (total_days_span df ltac:(lia)) as Hdays.
  unfold Backtest.calculate_metrics. unfold guard_no_trades in Hg.
  rewrite Hg, Htr. simpl. rewrite Hdays. simpl.
  unfold Backtest.cagr, Backtest.py_div.
  destruct (_ =? _)%fl; simpl.
  - split; [|by intros (-> & _)]. intros Heq. by injection Heq as <-.
  - split; [|by intros (_ & _ & ?)].
    by destruct (length (Backtest.build_trades df) =? 0)%nat.
Qed.

End MetricsEdges.

(** ** The equity curve compounds the ledger, one row late *)

Section Compounding.
Context {F : Type} `{Float64 F}.

Lemma sold_before_none i (pairs : list (nat * nat)) :
  Forall (λ q, i ≤ q.2) pairs → sold_before i pairs = [].
Proof.
  intros Hall. apply filter_none. intros x Hx.
  rewrite Forall_forall in Hall. specialize (Hall x Hx). lia.
Qed.

Lemma sold_before_cons i p (pairs : list (nat * nat)) :
  sold_before i (p :: pairs)
  = if decide (p.2 < i) then p :: sold_before i pairs else sold_before i pairs.
Proof. unfold sold_before. rewrite filter_cons. by destruct (decide _). Qed.

(** One more row: the round trip sold at row [i], if there is one, comes
    last. *)
Lemma sold_before_S i (pairs : list (nat * nat)) :
  StronglySorted (λ p q, p.2 < q.1) pairs →
  Forall (λ p, p.1 < p.2) pairs →
  (∀ j, (j, i) ∈ pairs →
        sold_before (S i) pairs = sold_before i pairs ++ [(j, i)])
  ∧ ((∀ j, (j, i) ∉ pairs) → sold_before (S i) pairs = sold_before i pairs).
Proof.
  induction 1 as [|[a b] l Hsorted IH Hlater]; intros Hlt; [split; [|done]|].
  { intros j Hj. by apply elem_of_nil in Hj. }
  apply Forall_cons in Hlt as [Hab Hlt]. simpl in Hab.
  destruct (IH Hlt) as [IHin IHout].
  assert (Hrest : Forall (λ q : nat * nat, b < q.2) l).
  { rewrite Forall_forall in Hlater, Hlt. apply Forall_forall. intros q Hq.
    specialize (Hlater q Hq). specialize (Hlt q Hq). simpl in Hlater. lia. }
  rewrite !sold_before_cons. simpl. split.
  - intros j [Heq|Hin]%elem_of_cons.
    + injection Heq as -> ->.
      rewrite decide_True by lia. rewrite decide_False by lia.
      rewrite (sold_before_none (S b) l), (sold_before_none b l); [done|..];
        (eapply Forall_impl; [exact Hrest|]; simpl; intros; lia).
    + assert (b < i).
      { rewrite Forall_forall in Hrest. specialize (Hrest _ Hin). simpl in Hrest. lia. }
      rewrite !decide_True by lia.
      by rewrite (IHin j Hin).
  - intros Hno.
    assert (b ≠ i) by (intros ->; apply (Hno a); left).
    rewrite IHout by (intros j Hj; apply (Hno j); by right).
    destruct (decide (b < i)).
    + by rewrite decide_True by lia.
    + by rewrite decide_False by lia.
Qed.

Lemma compounded_snoc (Close : list F) pairs p :
  compounded Close (pairs ++ [p])
  = (compounded Close pairs * growth Close p)%fl.
Proof. unfold compounded. by rewrite foldl_app. Qed.

(** A round trip sold at row [i] is the position the second loop holds
    before iteration [i + 1]. *)
Lemma round_trip_long_since (Signal : list Z) j i :
  round_trip Signal j i ↔ long_since Signal (S i) j ∧ Signal !! i = Some (-1)%Z.
Proof.
  unfold round_trip, long_since. split.
  - intros (Hji & Hj & Hi & Hk). split; [|done].
    split; [lia|]. split; [by apply list_lookup_total_correct|].
    intros k Hjk Hki.
    assert (Hlen : k < length Signal)
      by (apply lookup_lt_Some in Hi; lia).
    destruct (lookup_lt_is_Some_2 _ _ Hlen) as [x Hx].
    unfold iloc. rewrite (list_lookup_total_correct _ _ _ Hx).
    destruct (Hk k) as [H1 H2]; [lia|]. rewrite Hx in H1, H2. split; congruence.
  - intros ((Hji & Hj & Hk) & Hi).
    assert (Hlen : i < length Signal) by (by apply lookup_lt_Some in Hi).
    split; [lia|]. split; [|split; [done|]].
    + unfold iloc in Hj. rewrite <- Hj. apply list_lookup_lookup_total_lt. lia.
    + intros k Hjk. destruct (Hk k) as [H1 H2]; [lia..|].
      unfold iloc in H1, H2.
      split; intros Hx; apply list_lookup_total_correct in Hx; congruence.
Qed.

Lemma equity_compounds n (Signal : list Z) (Close : list F) pairs :
  length Signal = n →
  (∀ i j, (i, j) ∈ pairs ↔ round_trip Signal i j) →
  StronglySorted (λ p q, p.2 < q.1) pairs →
  ∀ i, i < n →
    iloc (equity_loop n Signal Close) i
    = compounded Close (sold_before i pairs).
Proof.
  intros Hlen Hpairs Hsorted.
  assert (Hlt : Forall (λ p : nat * nat, p.1 < p.2) pairs).
  { apply Forall_forall. intros [a b] Hin. apply Hpairs in Hin as [? _]. done. }
  induction i as [|i IH]; intros Hi.
  - unfold iloc. rewrite (list_lookup_total_correct _ _ _ (equity_loop_first n Signal Close Hi)).
    rewrite sold_before_none; [done|]. apply Forall_forall. intros; lia.
  - pose proof (equity_loop_step n Signal Close (S i) ltac:(lia) Hi) as Hstep.
    cbn zeta in Hstep. replace (S i - 1) with i in Hstep by lia.
    rewrite IH in Hstep by lia. rewrite Hstep. clear Hstep.
    destruct (sold_before_S i pairs Hsorted Hlt) as [Hin Hout].
    destruct (lookup_lt_is_Some_2 Signal i ltac:(lia)) as [x Hx].
    assert (Hix : iloc Signal i = x) by (by apply list_lookup_total_correct).
    rewrite !Hix. clear Hix.
    assert (Hnotsell : x ≠ (-1)%Z → ∀ j, (j, i) ∉ pairs).
    { intros Hne j Hj. apply Hpairs in Hj as (_ & _ & Hs & _). congruence. }
    destruct (x =? 1)%Z eqn:Hbuy.
    { apply Z.eqb_eq in Hbuy. rewrite Hout; [done|]. apply Hnotsell. lia. }
    destruct (x =? -1)%Z eqn:Hsell; simpl.
    2:{ apply Z.eqb_neq in Hsell. rewrite Hout; [done|]. by apply Hnotsell. }
    apply Z.eqb_eq in Hsell. subst x.
    destruct (in_position (equity_state_at n Signal Close (S i))) eqn:Hpos;
      destruct (equity_position_open n Signal Close (S i)) as [Hopen Hprice].
    + apply Hopen in Hpos as [j Hj]. rewrite (Hprice j Hj).
      rewrite (Hin j), compounded_snoc; [done|].
      apply Hpairs, round_trip_long_since. by split.
    + rewrite Hout; [done|]. intros j Hj.
      apply Hpairs, round_trip_long_since in Hj as [Hj _].
      assert (in_position (equity_state_at n Signal Close (S i)) = true)
        by (apply Hopen; by exists j).
      congruence.
Qed.

End Compounding.

Section CompoundingTable.
Context {F : Type} `{Float64 F}.

Lemma sold_before_all i (pairs : list (nat * nat)) :
  Forall (λ q, q.2 < i) pairs → sold_before i pairs = pairs.
Proof.
  induction 1 as [|p l Hp _ IH]; [done|].
  rewrite sold_before_cons, decide_True by done. by rewrite IH.
Qed.

Lemma iloc_last_iloc {A} `{Inhabited A} (l : list A) :
  l ≠ [] → Backtest.iloc_last l = Return (iloc l (length l - 1)).
Proof.
  intros Hne. unfold Backtest.iloc_last. rewrite last_lookup.
  replace (pred (length l)) with (length l - 1) by lia.
  destruct (lookup_lt_is_Some_2 l (length l - 1)) as [x Hx].
  { destruct l; [done|]. simpl. lia. }
  by rewrite Hx, (iloc_lookup _ _ _ Hx).
Qed.

(** The total return of a table whose curve is the one of the second
    loop. *)
Lemma total_return_equity_loop (df : list (Row F)) :
  df ≠ [] →
  EquityCurve <$> df
  = equity_loop (length df) (Signal <$> df) (Close <$> df) →
  Backtest.total_return df
  = Return (iloc (EquityCurve <$> df) (length df - 1) / fofZ 1 - fofZ 1)%fl.
Proof.
  intros Hne HE. unfold Backtest.total_return.
  assert (Hlen : 0 < length df) by (destruct df; [done|simpl; lia]).
  unfold Backtest.iloc_first.
  rewrite HE at 1. rewrite equity_loop_first by done. simpl.
  rewrite iloc_last_iloc by (by destruct df).
  by rewrite length_fmap.
Qed.

End CompoundingTable.

(** ** The first loop, row by row *)

Section SignalRows.

Lemma signal_run_app c1 : ∀ p c2,
  signal_run p (c1 ++ c2)
  = signal_run p c1 ++ signal_run (position_after p c1) c2.
Proof.
  induction c1 as [|[entry exit] c1 IH]; intros p c2; [done|]. simpl.
  destruct (negb p && entry); [by rewrite IH|].
  destruct (p && exit); by rewrite IH.
Qed.

(** [in_position] can be read off the signals written so far. *)
Lemma position_after_events conds : ∀ p,
  position_after p conds
  = match last (events (signal_run p conds)) with
    | Some x => bool_decide (x = 1%Z)
    | None => p
    end.
Proof.
  induction conds as [|[entry exit] conds IH]; intros p; [done|]. simpl.
  destruct (negb p && entry) eqn:Hbuy.
  { rewrite events_cons_event, last_cons, IH by done.
    by destruct (last _). }
  destruct (p && exit) eqn:Hsell.
  { rewrite events_cons_event, last_cons, IH by done.
    by destruct (last _). }
  by rewrite events_cons_hold, IH.
Qed.

Lemma conds_at_app buy sell k m m' :
  conds_at buy sell k (m + m')
  = conds_at buy sell k m ++ conds_at buy sell (k + m) m'.
Proof. unfold conds_at. by rewrite seq_app, fmap_app. Qed.

Lemma conds_at_ext buy sell buy' sell' k m :
  (∀ i, k ≤ i < k + m →
        iloc buy' i = iloc buy i ∧ iloc sell' i = iloc sell i) →
  conds_at buy' sell' k m = conds_at buy sell k m.
Proof.
  intros Hext. unfold conds_at. apply list_fmap_ext.
  intros j i Hi. apply lookup_seq in Hi as [-> Hj].
  destruct (Hext (k + j)) as [-> ->]; [lia|done].
Qed.

Lemma conds_at_length buy sell k m : length (conds_at buy sell k m) = m.
Proof. unfold conds_at. by rewrite length_fmap, length_seq. Qed.

(** The rows above row [i] are the run on the bars above row [i]. *)
Lemma signal_loop_take n buy sell i :
  i ≤ n →
  take i (signal_loop n buy sell) = signal_run false (conds_at buy sell 0 i).
Proof.
  intros Hi. rewrite signal_loop_run.
  replace n with (i + (n - i)) by lia.
  rewrite conds_at_app, signal_run_app.
  rewrite take_app_length'; [done|].
  by rewrite signal_run_length, conds_at_length.
Qed.

Lemma signal_loop_long_before n buy sell i :
  i ≤ n →
  long_before (signal_loop n buy sell) i
  ↔ position_after false (conds_at buy sell 0 i) = true.
Proof.
  intros Hi. unfold long_before.
  rewrite signal_loop_take, position_after_events by done.
  destruct (last _) as [x|]; [|done].
  rewrite bool_decide_eq_true. split; congruence.
Qed.

(** Row [i] is one step of the machine from the position before it. *)
Lemma signal_loop_row n buy sell i :
  i < n →
  signal_loop n buy sell !! i
  = Some (let p := position_after false (conds_at buy sell 0 i) in
          if negb p && iloc buy i then 1%Z
          else if p && iloc sell i then (-1)%Z
          else 0%Z).
Proof.
  intros Hi. rewrite signal_loop_run.
  replace n with (i + S (n - S i)) by lia.
  rewrite conds_at_app, signal_run_app.
  rewrite lookup_app_r; rewrite signal_run_length, conds_at_length; [|done].
  rewrite Nat.sub_diag. unfold conds_at at 2. simpl.
  destruct (negb _ && _); [done|]. by destruct (_ && _).
Qed.

(** Rows [0 .. i] depend on the predicates at rows [0 .. i] alone, and not
    on the length of the table. *)
Lemma signal_loop_prefix n n' buy sell buy' sell' i :
  i ≤ n → i ≤ n' →
  (∀ k, k < i → iloc buy' k = iloc buy k ∧ iloc sell' k = iloc sell k) →
  take i (signal_loop n' buy' sell') = take i (signal_loop n buy sell).
Proof.
  intros Hn Hn' Hext. rewrite !signal_loop_take by done.
  f_equal. apply conds_at_ext. intros k Hk. apply Hext. lia.
Qed.

End SignalRows.

(** ** Later bars do not change earlier rows *)

Section Prefix.
Context {F : Type} `{Float64 F}.

Lemma iloc_of_lookup {A} `{Inhabited A} (l l' : list A) i :
  l' !! i = l !! i → iloc l' i = iloc l i.
Proof. intros Heq. unfold iloc. by rewrite !list_lookup_total_alt, Heq. Qed.

Lemma take_prefix_app {A} (l l' : list A) :
  take (length l) l' = l → l' = l ++ drop (length l) l'.
Proof. intros Heq. by rewrite <- Heq at 1; rewrite take_drop. Qed.

(** Two lists that agree below [n], the first of length [n]. *)
Lemma take_agree {A} (l l' : list A) :
  length l ≤ length l' →
  (∀ i, i < length l → l' !! i = l !! i) →
  take (length l) l' = l.
Proof.
  intros Hlen Hagree. apply list_eq. intros i.
  destruct (decide (i < length l)) as [Hi|Hi].
  - rewrite lookup_take_lt by done. by apply Hagree.
  - rewrite lookup_take_ge by lia. symmetry. apply lookup_ge_None_2. lia.
Qed.

Lemma rolling_lookup_app w agg (s t : list F) i :
  i < length s → rolling w agg (s ++ t) !! i = rolling w agg s !! i.
Proof.
  intros Hi. unfold rolling. rewrite !list_lookup_imap, lookup_app_l by done.
  destruct (s !! i) as [x|]; [|done]. simpl. f_equal.
  destruct (S i <? w)%nat eqn:Hw; [done|]. apply Nat.ltb_ge in Hw. simpl.
  rewrite drop_app_le by lia.
  rewrite take_app_le; [done|]. rewrite length_drop. lia.
Qed.

Lemma shift1_lookup_app (s t : list F) i :
  i < length s → shift1 (s ++ t) !! i = shift1 s !! i.
Proof.
  intros Hi. unfold shift1.
  rewrite !lookup_take_lt by (rewrite ?length_app; lia).
  destruct i as [|i]; [done|]. simpl. apply lookup_app_l. lia.
Qed.

Lemma shift1_length (s : list F) : length (shift1 s) = length s.
Proof. unfold shift1. rewrite length_take. simpl. lia. Qed.

Lemma shift1_app (s t : list F) :
  shift1 (s ++ t) = shift1 s ++ drop (length s) (shift1 (s ++ t)).
Proof.
  rewrite <- (shift1_length s). apply take_prefix_app, take_agree.
  - rewrite !shift1_length, length_app. lia.
  - intros i Hi. rewrite shift1_length in Hi. by apply shift1_lookup_app.
Qed.

Lemma zip_with_lookup_agree {A B C} (f : A → B → C) (a a' : list A)
    (b b' : list B) i :
  a' !! i = a !! i → b' !! i = b !! i →
  zip_with f a' b' !! i = zip_with f a b !! i.
Proof. intros Ha Hb. by rewrite !lookup_zip_with, Ha, Hb. Qed.

(** The position flag and the entry price of the second loop do not depend
    on the length of the table, nor on rows that were not read. *)
Lemma equity_state_agree n n' (Signal Signal' : list Z) (Close Close' : list F) i :
  (∀ k, k + 1 < i → iloc Signal' k = iloc Signal k
                    ∧ iloc Close' k = iloc Close k) →
  in_position (equity_state_at n' Signal' Close' i)
  = in_position (equity_state_at n Signal Close i)
  ∧ entry_price (equity_state_at n' Signal' Close' i)
    = entry_price (equity_state_at n Signal Close i).
Proof.
  induction i as [|i IH]; intros Hagree; [done|].
  destruct (decide (1 ≤ i)) as [Hi|Hi]; [|by replace i with 0 by lia].
  destruct (equity_state_position n Signal Close i Hi) as [-> ->].
  destruct (equity_state_position n' Signal' Close' i Hi) as [-> ->].
  destruct IH as [-> ->]; [intros k Hk; apply Hagree; lia|].
  destruct (Hagree (i - 1)) as [-> ->]; [lia|]. done.
Qed.

Lemma equity_loop_agree n n' (Signal Signal' : list Z) (Close Close' : list F) i :
  i < n → i < n' →
  (∀ k, k < i → iloc Signal' k = iloc Signal k
                ∧ iloc Close' k = iloc Close k) →
  iloc (equity_loop n' Signal' Close') i = iloc (equity_loop n Signal Close) i.
Proof.
  induction i as [|i IH]; intros Hn Hn' Hagree.
  - unfold iloc.
    rewrite (list_lookup_total_correct _ _ _ (equity_loop_first n' Signal' Close' Hn')).
    by rewrite (list_lookup_total_correct _ _ _ (equity_loop_first n Signal Close Hn)).
  - pose proof (equity_loop_step n Signal Close (S i) ltac:(lia) Hn) as Hstep.
    pose proof (equity_loop_step n' Signal' Close' (S i) ltac:(lia) Hn') as Hstep'.
    cbn zeta in Hstep, Hstep'.
    replace (S i - 1) with i in Hstep, Hstep' by lia.
    rewrite Hstep, Hstep'.
    rewrite IH by (try lia; intros k Hk; apply Hagree; lia).
    destruct (equity_state_agree n n' Signal Signal' Close Close' (S i))
      as [-> ->]; [intros k Hk; apply Hagree; lia|].
    destruct (Hagree i) as [-> ->]; [lia|]. done.
Qed.

(** The table of the two loops on longer columns starts with the table on
    the shorter ones. *)
Lemma result_table_app Dates Dates' (Closes Closes' : list F)
    buy buy' sell sell' :
  length Closes = length Dates →
  length buy = length Dates → length sell = length Dates →
  ∃ rows,
    result_table (Dates ++ Dates') (Closes ++ Closes')
                 (buy ++ buy') (sell ++ sell')
    = result_table Dates Closes buy sell ++ rows.
Proof.
  intros HC Hb Hs. eexists. apply take_prefix_app, take_agree.
  { rewrite !result_table_length, length_app. lia. }
  intros i Hi. rewrite result_table_length in Hi.
  unfold result_table. rewrite !list_lookup_imap, lookup_app_l by done.
  destruct (lookup_lt_is_Some_2 Dates i Hi) as [d ->]. simpl. f_equal.
  assert (Hpred : ∀ k, k ≤ i →
            iloc (buy ++ buy') k = iloc buy k
            ∧ iloc (sell ++ sell') k = iloc sell k).
  { intros k Hk. unfold iloc. rewrite !lookup_total_app_l by lia. done. }
  assert (Hsig : ∀ k, k ≤ i →
            iloc (signal_loop (length (Dates ++ Dates'))
                    (buy ++ buy') (sell ++ sell')) k
            = iloc (signal_loop (length Dates) buy sell) k).
  { intros k Hk. apply iloc_of_lookup.
    rewrite <- (lookup_take_lt _ (S k) k) by lia.
    rewrite <- (lookup_take_lt (signal_loop (length Dates) _ _) (S k) k) by lia.
    f_equal. apply signal_loop_prefix; [lia|rewrite length_app; lia|].
    intros j Hj. apply Hpred. lia. }
  f_equal.
  - unfold iloc. by rewrite lookup_total_app_l by lia.
  - by apply Hsig.
  - apply equity_loop_agree; [done|rewrite length_app; lia|].
    intros k Hk. split; [apply Hsig; lia|].
    unfold iloc. by rewrite lookup_total_app_l by lia.
Qed.

Lemma strategy1_indicators_app (df more : list (Bar.t F)) :
  ∃ rows, Strategy1.indicators (df ++ more) = Strategy1.indicators df ++ rows.
Proof.
  eexists.
  assert (Hlen : ∀ d, length (Strategy1.indicators d) = length d)
    by (intros d; unfold Strategy1.indicators; by rewrite length_imap).
  apply take_prefix_app, take_agree.
  { rewrite !Hlen, length_app. lia. }
  intros i Hi. rewrite Hlen in Hi. unfold Strategy1.indicators.
  rewrite !list_lookup_imap, lookup_app_l by done.
  destruct (lookup_lt_is_Some_2 df i Hi) as [b ->]. simpl. f_equal.
  rewrite !fmap_app.
  assert (HL : ∀ (f : Bar.t F → F), ((f <$> df) ++ (f <$> more)) !! i = (f <$> df) !! i)
    by (intros f; apply lookup_app_l; by rewrite length_fmap).
  assert (HHL : zip_with fsub ((Bar.High <$> df) ++ (Bar.High <$> more))
                  ((Bar.Low <$> df) ++ (Bar.Low <$> more))
                = zip_with fsub (Bar.High <$> df) (Bar.Low <$> df)
                  ++ zip_with fsub (Bar.High <$> more) (Bar.Low <$> more))
    by (apply zip_with_app; by rewrite !length_fmap).
  assert (H10 : rolling 10 fmax_list ((Bar.High <$> df) ++ (Bar.High <$> more)) !! i
                = rolling 10 fmax_list (Bar.High <$> df) !! i)
    by (apply rolling_lookup_app; by rewrite length_fmap).
  assert (H25 : rolling 25 fmean_list
                  (zip_with fsub ((Bar.High <$> df) ++ (Bar.High <$> more))
                     ((Bar.Low <$> df) ++ (Bar.Low <$> more))) !! i
                = rolling 25 fmean_list
                    (zip_with fsub (Bar.High <$> df) (Bar.Low <$> df)) !! i).
  { rewrite HHL. apply rolling_lookup_app.
    rewrite length_zip_with_l_eq; by rewrite !length_fmap. }
  f_equal; apply iloc_of_lookup; try done.
  - by apply zip_with_lookup_agree.
  - apply zip_with_lookup_agree; apply zip_with_lookup_agree; apply HL.
Qed.

Lemma strategy4_indicators_app (df more : list (Bar.t F)) :
  ∃ rows, Strategy4.indicators (df ++ more) = Strategy4.indicators df ++ rows.
Proof.
  eexists.
  assert (Hlen : ∀ d, length (Strategy4.indicators d) = length d)
    by (intros d; unfold Strategy4.indicators; by rewrite length_imap).
  apply take_prefix_app, take_agree.
  { rewrite !Hlen, length_app. lia. }
  intros i Hi. rewrite Hlen in Hi. unfold Strategy4.indicators.
  rewrite !list_lookup_imap, lookup_app_l by done.
  destruct (lookup_lt_is_Some_2 df i Hi) as [b ->]. simpl. f_equal.
  rewrite !fmap_app.
  assert (HHL : zip_with fsub ((Bar.High <$> df) ++ (Bar.High <$> more))
                  ((Bar.Low <$> df) ++ (Bar.Low <$> more))
                = zip_with fsub (Bar.High <$> df) (Bar.Low <$> df)
                  ++ zip_with fsub (Bar.High <$> more) (Bar.Low <$> more))
    by (apply zip_with_app; by rewrite !length_fmap).
  assert (HRlen : length (zip_with fsub (Bar.High <$> df) (Bar.Low <$> df))
                  = length df)
    by (rewrite length_zip_with_l_eq; by rewrite !length_fmap).
  rewrite HHL.
  f_equal; apply iloc_of_lookup.
  - apply lookup_app_l. lia.
  - rewrite shift1_app. apply rolling_lookup_app. rewrite shift1_length. lia.
  - apply rolling_lookup_app. by rewrite length_fmap.
Qed.

Lemma sell_condition_app {W} (close high : W → F) (w x : list W) :
  ∃ y, length y = length x
     ∧ zip_with (λ c h, (c >? h)%fl) (close <$> (w ++ x))
                (shift1 (high <$> (w ++ x)))
       = zip_with (λ c h, (c >? h)%fl) (close <$> w) (shift1 (high <$> w)) ++ y.
Proof.
  rewrite !fmap_app, shift1_app.
  rewrite zip_with_app by (by rewrite shift1_length, !length_fmap).
  eexists. split; [|done].
  rewrite length_zip_with_l_eq; rewrite ?length_drop, ?shift1_length,
    ?length_app, !length_fmap; lia.
Qed.

Lemma strategy1_generate_signals_app (df more : list (Bar.t F)) :
  ∃ rows, Strategy1.generate_signals (df ++ more)
          = Strategy1.generate_signals df ++ rows.
Proof.
  unfold Strategy1.generate_signals, Strategy1.working.
  destruct (strategy1_indicators_app df more) as [x ->].
  unfold Strategy1.dropna. rewrite filter_app.
  set (w := filter _ (Strategy1.indicators df)). set (w' := filter _ x).
  unfold Strategy1.sell_condition.
  destruct (sell_condition_app (Bar.Close ∘ Strategy1.bar)
              (Bar.High ∘ Strategy1.bar) w w') as (y & _ & ->).
  unfold Strategy1.buy_condition. rewrite !fmap_app.
  apply result_table_app; rewrite ?length_fmap; [done..|].
  rewrite length_zip_with_l_eq; by rewrite ?shift1_length, !length_fmap.
Qed.

Lemma strategy4_generate_signals_app (df more : list (Bar.t F)) :
  ∃ rows, Strategy4.generate_signals (df ++ more)
          = Strategy4.generate_signals df ++ rows.
Proof.
  unfold Strategy4.generate_signals, Strategy4.working.
  destruct (strategy4_indicators_app df more) as [x ->].
  unfold Strategy4.dropna. rewrite filter_app.
  set (w := filter _ (Strategy4.indicators df)). set (w' := filter _ x).
  unfold Strategy4.sell_condition.
  destruct (sell_condition_app (Bar.Close ∘ Strategy4.bar)
              (Bar.High ∘ Strategy4.bar) w w') as (y & _ & ->).
  unfold Strategy4.buy_condition. rewrite !fmap_app.
  apply result_table_app; rewrite ?length_fmap; [done..|].
  rewrite length_zip_with_l_eq; by rewrite ?shift1_length, !length_fmap.
Qed.

End Prefix.

(** ** What the integrity check accepts *)

Section IntegrityAccepts.
Context {F : Type} `{Float64 F}.

Lemma buys_and_sells_cons x (s : list Z) :
  buys_and_sells (x :: s)
  = if decide (x = 1 ∨ x = -1)%Z then x :: buys_and_sells s
    else buys_and_sells s.
Proof. unfold buys_and_sells. rewrite filter_cons. by destruct (decide _). Qed.

(** The loop only appends, and appends nothing exactly when the buys and
    sells alternate from a signal other than the last one seen. *)
Lemma integrity_loop_issues dates rest : ∀ pre last issues,
  ∃ extra,
    (foldl (Debug.integrity_step (pre ++ rest) dates) (last, issues)
           (seq (length pre) (length rest))).2 = issues ++ extra
    ∧ (extra = []
       ↔ (last ≠ 1%Z ∧ alternates 1 (buys_and_sells rest))
         ∨ (last ≠ (-1)%Z ∧ alternates (-1) (buys_and_sells rest))).
Proof.
  induction rest as [|x r IH]; intros pre last issues.
  { exists []. simpl. rewrite app_nil_r. split; [done|]. split; [|done].
    intros _. destruct (decide (last = 1%Z)); [right|left]; split; try done. lia. }
  cbn [length seq foldl]. unfold Debug.integrity_step at 2.
  rewrite iloc_app_length.
  assert (Hpre : ∀ st, foldl (Debug.integrity_step (pre ++ x :: r) dates) st
                         (seq (S (length pre)) (length r))
                 = foldl (Debug.integrity_step ((pre ++ [x]) ++ r) dates) st
                         (seq (length (pre ++ [x])) (length r))).
  { intros st. rewrite <- app_assoc. simpl.
    rewrite length_app. simpl. by rewrite Nat.add_1_r. }
  rewrite buys_and_sells_cons.
  destruct (x =? 1)%Z eqn:Hbuy.
  { apply Z.eqb_eq in Hbuy as ->. rewrite decide_True by lia. rewrite Hpre.
    destruct (last =? 1)%Z eqn:Hl.
    - apply Z.eqb_eq in Hl as ->.
      destruct (IH (pre ++ [1%Z]) 1%Z
                  (issues ++ [Debug.Consecutive_buy (iloc dates (length pre))]))
        as (extra & -> & _).
      eexists. rewrite <- app_assoc. split; [done|]. simpl.
      split; [done|]. intros [[? _]|[_ [? _]]]; done.
    - apply Z.eqb_neq in Hl.
      destruct (IH (pre ++ [1%Z]) 1%Z issues) as (extra & -> & Hextra).
      exists extra. split; [done|]. rewrite Hextra. simpl. split.
      + intros [[? _]|[_ ?]]; [done|]. by left.
      + intros [(_ & _ & ?)|[_ [? _]]]; [|done]. right. split; [lia|done]. }
  destruct (x =? -1)%Z eqn:Hsell.
  { apply Z.eqb_eq in Hsell as ->. rewrite decide_True by lia. rewrite Hpre.
    destruct (last =? -1)%Z eqn:Hl.
    - apply Z.eqb_eq in Hl as ->.
      destruct (IH (pre ++ [(-1)%Z]) (-1)%Z
                  (issues ++ [Debug.Consecutive_sell (iloc dates (length pre))]))
        as (extra & -> & _).
      eexists. rewrite <- app_assoc. split; [done|]. simpl.
      split; [done|]. intros [[_ [? _]]|[? _]]; done.
    - apply Z.eqb_neq in Hl.
      destruct (IH (pre ++ [(-1)%Z]) (-1)%Z issues) as (extra & -> & Hextra).
      exists extra. split; [done|]. rewrite Hextra. simpl. split.
      + intros [[_ ?]|[? _]]; [|done]. by right.
      + intros [[_ [? _]]|(_ & _ & ?)]; [done|]. left. split; [lia|done]. }
  apply Z.eqb_neq in Hbuy. apply Z.eqb_neq in Hsell.
  rewrite decide_False by lia. rewrite Hpre. apply IH.
Qed.

Lemma count_signal_buys_and_sells v (s : list Z) :
  (v = 1 ∨ v = -1)%Z →
  Debug.count_signal v s = Debug.count_signal v (buys_and_sells s).
Proof.
  intros Hv. unfold Debug.count_signal.
  induction s as [|x r IH]; [done|]. rewrite buys_and_sells_cons.
  destruct (decide (x = v)) as [->|Hxv].
  - rewrite decide_True by done. rewrite !filter_cons_True by done.
    simpl. by rewrite IH.
  - rewrite filter_cons_False by done. destruct (decide _); [|done].
    by rewrite filter_cons_False by done.
Qed.

Lemma check_signal_integrity_accepts (strategy_df : list (Row F)) :
  Debug.check_signal_integrity strategy_df = (true, [])
  ↔ alternates 1 (buys_and_sells (Signal <$> strategy_df))
    ∨ (alternates (-1) (buys_and_sells (Signal <$> strategy_df))
       ∧ Debug.count_signal 1 (Signal <$> strategy_df)
         = Debug.count_signal (-1) (Signal <$> strategy_df)).
Proof.
  unfold Debug.check_signal_integrity.
  destruct (integrity_loop_issues (Date <$> strategy_df)
              (Signal <$> strategy_df) [] 0%Z [])
    as (extra & Hloop & Hextra).
  simpl in Hloop. rewrite Hloop. clear Hloop.
  set (s := Signal <$> strategy_df) in *.
  assert (Hcount1 : alternates 1 (buys_and_sells s) →
            Debug.count_signal (-1) s = Debug.count_signal 1 s
            ∨ Debug.count_signal (-1) s + 1 = Debug.count_signal 1 s).
  { intros Halt. rewrite !(count_signal_buys_and_sells _ s) by lia.
    apply (alternates_counts _ 1%Z); [lia|done]. }
  assert (Hcount2 : alternates (-1) (buys_and_sells s) →
            Debug.count_signal 1 s = Debug.count_signal (-1) s
            ∨ Debug.count_signal 1 s + 1 = Debug.count_signal (-1) s).
  { intros Halt. rewrite !(count_signal_buys_and_sells _ s) by lia.
    apply (alternates_counts _ (-1)%Z); [lia|done]. }
  destruct (negb (Debug.count_signal 1 s =? Debug.count_signal (-1) s)%nat
            && negb (Debug.count_signal 1 s =? Debug.count_signal (-1) s + 1)%nat)
    eqn:Hbal.
  - split.
    + intros Heq. injection Heq as _ Heq. by destruct extra.
    + apply andb_true_iff in Hbal as [Hb1 Hb2].
      apply negb_true_iff, Nat.eqb_neq in Hb1.
      apply negb_true_iff, Nat.eqb_neq in Hb2.
      intros [Halt|[Halt Hc]]; [|done].
      destruct (Hcount1 Halt); lia.
  - apply andb_false_iff in Hbal.
    assert (Hok : Debug.count_signal 1 s = Debug.count_signal (-1) s
                  ∨ Debug.count_signal 1 s = Debug.count_signal (-1) s + 1).
    { destruct Hbal as [Hb|Hb]; apply negb_false_iff, Nat.eqb_eq in Hb; auto. }
    split.
    + intros Heq. injection Heq as _ ->.
      destruct (proj1 Hextra eq_refl) as [[_ Halt]|[_ Halt]]; [by left|].
      destruct (decide (Debug.count_signal 1 s = Debug.count_signal (-1) s));
        [by right|].
      destruct (Hcount2 Halt); lia.
    + intros Hacc.
      assert (Hnil : extra = []).
      { apply Hextra. destruct Hacc as [Halt|[Halt _]]; [left|right]; done. }
      by rewrite Hnil.
Qed.

End IntegrityAccepts.

(** ** The trade statistics *)

Section TradeStats.
Context {F : Type} `{Float64 F}.
Variable pow : F → F → F.

Lemma calculate_metrics_trade_stats (df : list (Row F)) m t :
  Backtest.calculate_metrics pow df = Return (Some (m, t)) →
  Total_Trades m = length t
  ∧ Win_Rate m
    = (fofZ (Z.of_nat (length (Backtest.winning (Return_pct <$> t))))
       / fofZ (Z.of_nat (length (Return_pct <$> t))))%fl
  ∧ Avg_Win m
    = (if (0 <? length (Backtest.winning (Return_pct <$> t)))%nat
       then series_mean (Backtest.winning (Return_pct <$> t)) else fofZ 0)
  ∧ Avg_Loss m
    = (if (0 <? length (Backtest.losing (Return_pct <$> t)))%nat
       then series_mean (Backtest.losing (Return_pct <$> t)) else fofZ 0).
Proof.
  unfold Backtest.calculate_metrics.
  destruct (_ || _); [done|].
  destruct (Backtest.total_return df) as [|tr]; simpl; [done|].
  destruct (Backtest.total_days df) as [|d]; simpl; [done|].
  destruct (Backtest.cagr pow tr d) as [|c] eqn:Hc; simpl; [done|].
  destruct (Backtest.build_trades df) as [|t0 ts] eqn:Ht; simpl; [done|].
  intros Heq. injection Heq as <- <-. done.
Qed.

End TradeStats.

Section TradeStatsExact.

Lemma one_sided_ltb x :
  (one_sided true x ↔ xltb (Fin 0) x = true)
  ∧ (one_sided false x ↔ xltb x (Fin 0) = true).
Proof.
  unfold one_sided. destruct x as [r| | |]; simpl; rewrite ?Rltb_true;
    (split; split); try done; try (intros [?|(? & ? & ?)]; done);
    try (intros _; by left).
  - intros [?|(r' & Heq & Hr)]; [done|]. by injection Heq as ->.
  - intros Hr. right. by exists r.
  - intros [?|(r' & Heq & Hr)]; [done|]. by injection Heq as ->.
  - intros Hr. right. by exists r.
Qed.

Lemma one_sided_add s x y :
  one_sided s x → one_sided s y → one_sided s (xadd x y).
Proof.
  intros [->|(a & -> & Ha)] [->|(b & -> & Hb)]; destruct s; simpl;
    try (by left); right; eexists; (split; [done|lra]).
Qed.

Lemma one_sided_fsum s (l : list xreal) : ∀ acc,
  one_sided s acc → Forall (one_sided s) l → one_sided s (foldl xadd acc l).
Proof.
  induction l as [|x l IH]; intros acc Hacc Hl; [done|].
  apply Forall_cons in Hl as [Hx Hl]. simpl.
  apply IH; [|done]. by apply one_sided_add.
Qed.

Lemma one_sided_not_nan s (l : list xreal) :
  Forall (one_sided s) l → dropna_vals l = l.
Proof.
  intros Hl. unfold dropna_vals.
  induction Hl as [|x l Hx _ IH]; [done|].
  rewrite filter_cons_True, IH; [done|].
  destruct Hx as [->|(r & -> & _)]; [by destruct s|done].
Qed.

(** The mean of values on one side of zero lies on that side. *)
Lemma one_sided_mean s (l : list xreal) :
  l ≠ [] → Forall (one_sided s) l → one_sided s (series_mean l).
Proof.
  intros Hne Hl. unfold series_mean. rewrite (one_sided_not_nan s) by done.
  unfold fmean_list, fsum. destruct l as [|x l]; [done|].
  apply Forall_cons in Hl as [Hx Hl].
  assert (Hsum : one_sided s (foldl fadd (fofZ 0) (x :: l))).
  { cbn [foldl]. apply one_sided_fsum; [|done].
    destruct Hx as [->|(r & -> & Hr)]; [left; by destruct s|right].
    cbn [fadd fofZ xreal_Float64 xadd]. eexists. split; [done|].
    destruct s; lra. }
  assert (Hn : (0 < IZR (Z.of_nat (length (x :: l))))%R).
  { apply IZR_lt. simpl. lia. }
  set (n := IZR (Z.of_nat (length (x :: l)))) in *.
  set (total := foldl fadd (fofZ 0) (x :: l)) in *.
  change (one_sided s (xdiv total (Fin n))).
  destruct Hsum as [->|(a & -> & Ha)].
  - left. destruct s; simpl; unfold xinf_sign;
      rewrite (proj2 (Rltb_false n 0)) by lra; done.
  - right. rewrite xdiv_fin by lra. eexists. split; [done|].
    pose proof (Rinv_0_lt_compat n Hn). unfold Rdiv. destruct s; nra.
Qed.

Lemma winning_one_sided (returns : list xreal) :
  Forall (one_sided true) (Backtest.winning returns).
Proof.
  apply Forall_forall. intros x [Hx _]%list_elem_of_filter.
  by apply one_sided_ltb.
Qed.

Lemma losing_one_sided (returns : list xreal) :
  Forall (one_sided false) (Backtest.losing returns).
Proof.
  apply Forall_forall. intros x [Hx _]%list_elem_of_filter.
  by apply one_sided_ltb.
Qed.

(** No return is counted as a win and as a loss. *)
Lemma winning_losing_length (returns : list xreal) :
  length (Backtest.winning returns) + length (Backtest.losing returns)
  ≤ length returns.
Proof.
  unfold Backtest.winning, Backtest.losing.
  induction returns as [|x l IH]; [done|].
  rewrite !filter_cons.
  destruct (decide ((x >? fofZ 0)%fl = true)) as [Hw|Hw];
    destruct (decide ((x <? fofZ 0)%fl = true)) as [Hl|Hl];
    cbn [length]; try lia.
  exfalso. destruct x as [r| | |]; simpl in Hw, Hl; try done.
  apply Rltb_true in Hw, Hl. lra.
Qed.

End TradeStatsExact.

(** ** What the guard of [calculate_metrics] tests *)

Section GuardExact.
Context {F : Type} `{Float64 F}.
Implicit Types (df : list (Row F)).

Lemma filter_nonempty {A} (P : A → Prop) `{∀ x, Decision (P x)} (l : list A) :
  filter P l ≠ [] ↔ ∃ x, x ∈ l ∧ P x.
Proof.
  split.
  - intros Hne. destruct (filter P l) as [|x r] eqn:Heq; [done|].
    exists x. apply and_comm, (list_elem_of_filter P). rewrite Heq. left.
  - intros (x & Hx & HP) Heq.
    assert (Hin : x ∈ filter P l) by (by apply list_elem_of_filter).
    rewrite Heq in Hin. by apply elem_of_nil in Hin.
Qed.

(** Some row differs from the row above it by [v]. *)
Lemma signal_changes_nonempty df (v : Z) :
  v ≠ 0%Z →
  filter (λ i, iloc (Backtest.signal_changes df) i = v) (seq 0 (length df)) ≠ []
  ↔ ∃ j x y, (Signal <$> df) !! j = Some x ∧ (Signal <$> df) !! (S j) = Some y
             ∧ (y - x)%Z = v.
Proof.
  intros Hv. rewrite filter_nonempty. split.
  - intros (i & Hi%elem_of_seq & Hch).
    rewrite signal_changes_iloc in Hch by lia.
    destruct i as [|j]; [done|].
    destruct (lookup_lt_is_Some_2 (Signal <$> df) (S j)) as [y Hy].
    { rewrite length_fmap. lia. }
    destruct (lookup_lt_is_Some_2 (Signal <$> df) j) as [x Hx].
    { rewrite length_fmap. lia. }
    rewrite (iloc_lookup _ _ _ Hx), (iloc_lookup _ _ _ Hy) in Hch.
    by exists j, x, y.
  - intros (j & x & y & Hx & Hy & Hxy).
    pose proof (lookup_lt_Some _ _ _ Hy) as Hlen. rewrite length_fmap in Hlen.
    exists (S j). split; [apply elem_of_seq; lia|].
    rewrite signal_changes_iloc by lia.
    by rewrite (iloc_lookup _ _ _ Hx), (iloc_lookup _ _ _ Hy).
Qed.

Lemma guard_passes_iff df :
  guard_no_trades df = false
  ↔ Backtest.entries df ≠ [] ∧ Backtest.exits df ≠ [].
Proof.
  unfold guard_no_trades. rewrite orb_false_iff, !Nat.eqb_neq.
  by rewrite !length_zero_iff_nil.
Qed.

(** The ledger loop: the position is 0 or 1, and the ledger only grows. *)
Lemma trade_state_position df k :
  Backtest.position (trade_state_at df k) = 0%Z
  ∨ Backtest.position (trade_state_at df k) = 1%Z.
Proof.
  induction k as [|k IH]; [by left|].
  rewrite trade_state_at_S. unfold Backtest.trade_step.
  destruct (_ && _); [by right|]. destruct (_ && _); [by left|done].
Qed.

Lemma trade_state_grows df k :
  length (Backtest.trades (trade_state_at df k))
  ≤ length (Backtest.trades (trade_state_at df (S k))).
Proof.
  rewrite trade_state_at_S. unfold Backtest.trade_step.
  destruct (_ && _); [done|]. destruct (_ && _); [|done].
  simpl. rewrite length_app. lia.
Qed.

Lemma trade_state_grows_le df k k' :
  k ≤ k' →
  length (Backtest.trades (trade_state_at df k))
  ≤ length (Backtest.trades (trade_state_at df k')).
Proof.
  induction 1 as [|k' _ IH]; [done|].
  pose proof (trade_state_grows df k'). lia.
Qed.

(** A sell on the row right after a buy closes a trade, whatever came
    before. *)
Lemma adjacent_sell_closes_trade df j :
  (Signal <$> df) !! j = Some 1%Z → (Signal <$> df) !! (S j) = Some (-1)%Z →
  Backtest.build_trades df ≠ [].
Proof.
  intros Hbuy Hsell.
  pose proof (lookup_lt_Some _ _ _ Hsell) as Hlen. rewrite length_fmap in Hlen.
  assert (Hpos : Backtest.position (trade_state_at df (S j)) = 1%Z).
  { rewrite trade_state_at_S. unfold Backtest.trade_step.
    rewrite (iloc_lookup _ _ _ Hbuy). simpl.
    destruct (trade_state_position df j) as [-> | Hp]; [done|].
    rewrite Hp. done. }
  assert (Hone : 1 ≤ length (Backtest.trades (trade_state_at df (S (S j))))).
  { rewrite trade_state_at_S. unfold Backtest.trade_step.
    rewrite (iloc_lookup _ _ _ Hsell), Hpos. simpl.
    rewrite length_app. simpl. lia. }
  pose proof (trade_state_grows_le df (S (S j)) (length df) ltac:(lia)) as Hle.
  rewrite build_trades_state. intros Heq. rewrite Heq in Hle. simpl in Hle. lia.
Qed.

End GuardExact.

(** ** The rows of a strategy table are input bars, after the warm-up *)

Section WarmUp.
Context {F : Type} `{Float64Laws F}.

Lemma strategy1_indicators_bar (df : list (Bar.t F)) :
  Strategy1.bar <$> Strategy1.indicators df = df.
Proof.
  unfold Strategy1.indicators. apply list_eq. intros i.
  rewrite list_lookup_fmap, list_lookup_imap. by destruct (df !! i).
Qed.

Lemma strategy4_indicators_bar (df : list (Bar.t F)) :
  Strategy4.bar <$> Strategy4.indicators df = df.
Proof.
  unfold Strategy4.indicators. apply list_eq. intros i.
  rewrite list_lookup_fmap, list_lookup_imap. by destruct (df !! i).
Qed.

(** The first 24 rows lack the 25-day mean range and are dropped. *)
Lemma strategy1_working_drop (df : list (Bar.t F)) :
  Strategy1.working df
  = Strategy1.dropna (drop 24 (Strategy1.indicators df)).
Proof.
  unfold Strategy1.working.
  rewrite <- (take_drop 24 (Strategy1.indicators df)) at 1.
  unfold Strategy1.dropna. rewrite filter_app.
  rewrite filter_none; [done|].
  intros r (i & Hr & Hi)%elem_of_take.
  unfold Strategy1.indicators in Hr. rewrite list_lookup_imap in Hr.
  destruct (df !! i) as [b|] eqn:Hb; [|done]. injection Hr as <-.
  apply lookup_lt_Some in Hb.
  unfold Strategy1.has_nan. simpl. rewrite (rolling_short 25).
  - rewrite fisnan_fnan, !orb_true_r. done.
  - rewrite length_zip_with_l_eq; rewrite !length_fmap; done.
  - lia.
Qed.

(** The first 199 rows lack the 200-day mean and are dropped. *)
Lemma strategy4_working_drop (df : list (Bar.t F)) :
  Strategy4.working df
  = Strategy4.dropna (drop 199 (Strategy4.indicators df)).
Proof.
  unfold Strategy4.working.
  rewrite <- (take_drop 199 (Strategy4.indicators df)) at 1.
  unfold Strategy4.dropna. rewrite filter_app.
  rewrite filter_none; [done|].
  intros r (i & Hr & Hi)%elem_of_take.
  unfold Strategy4.indicators in Hr. rewrite list_lookup_imap in Hr.
  destruct (df !! i) as [b|] eqn:Hb; [|done]. injection Hr as <-.
  apply lookup_lt_Some in Hb.
  unfold Strategy4.has_nan. simpl. rewrite (rolling_short 200).
  - rewrite fisnan_fnan, !orb_true_r. done.
  - by rewrite length_fmap.
  - lia.
Qed.

(** The date and the close of every row of the table of the two loops. *)
Lemma result_table_date_close (Dates : list Z) (Closes : list F) buy sell :
  length Closes = length Dates →
  (λ r, (Date r, Close r)) <$> result_table Dates Closes buy sell
  = zip Dates Closes.
Proof.
  intros Hlen. unfold result_table. apply list_eq. intros i.
  rewrite list_lookup_fmap, list_lookup_imap, lookup_zip_with.
  destruct (Dates !! i) as [d|] eqn:Hd; [|done]. simpl.
  destruct (lookup_lt_is_Some_2 Closes i) as [c Hc].
  { apply lookup_lt_Some in Hd. lia. }
  by rewrite Hc, (iloc_lookup _ _ _ Hc).
Qed.

Lemma zip_fmap_pair {A B C} (f : A → B) (g : A → C) (l : list A) :
  zip (f <$> l) (g <$> l) = (λ x, (f x, g x)) <$> l.
Proof.
  induction l as [|x l IH]; [done|]. rewrite !fmap_cons. cbn [zip_with].
  f_equal. exact IH.
Qed.

Lemma strategy1_rows_sublist (df : list (Bar.t F)) :
  (λ r, (Date r, Close r)) <$> Strategy1.generate_signals df
  `sublist_of` (λ b, (Bar.Date b, Bar.Close b)) <$> drop 24 df.
Proof.
  unfold Strategy1.generate_signals.
  rewrite result_table_date_close by (by rewrite !length_fmap).
  rewrite zip_fmap_pair, strategy1_working_drop.
  rewrite <- (strategy1_indicators_bar df) at 2.
  rewrite <- fmap_drop, <- list_fmap_compose.
  apply fmap_sublist, sublist_filter.
Qed.

Lemma strategy4_rows_sublist (df : list (Bar.t F)) :
  (λ r, (Date r, Close r)) <$> Strategy4.generate_signals df
  `sublist_of` (λ b, (Bar.Date b, Bar.Close b)) <$> drop 199 df.
Proof.
  unfold Strategy4.generate_signals.
  rewrite result_table_date_close by (by rewrite !length_fmap).
  rewrite zip_fmap_pair, strategy4_working_drop.
  rewrite <- (strategy4_indicators_bar df) at 2.
  rewrite <- fmap_drop, <- list_fmap_compose.
  apply fmap_sublist, sublist_filter.
Qed.

End WarmUp.

Section SortedDates.

Lemma sublist_StronglySorted {A} (R : relation A) (l1 l2 : list A) :
  l1 `sublist_of` l2 → StronglySorted R l2 → StronglySorted R l1.
Proof.
  induction 1 as [|x l1 l2 Hsub IH|x l1 l2 Hsub IH]; intros Hsorted.
  - constructor.
  - apply StronglySorted_inv in Hsorted as [Hl2 Hx].
    constructor; [by apply IH|].
    rewrite Forall_forall in Hx. apply Forall_forall. intros y Hy.
    apply Hx. by eapply elem_of_sublist.
  - apply StronglySorted_inv in Hsorted as [Hl2 _]. by apply IH.
Qed.

Lemma StronglySorted_lookup_lt (l : list Z) : 
  StronglySorted Z.lt l →
  ∀ i j di dj, i < j → l !! i = Some di → l !! j = Some dj → (di < dj)%Z.
Proof.
  induction 1 as [|x l _ IH Hx]; intros i j di dj Hij Hi Hj; [done|].
  destruct j as [|j]; [lia|]. simpl in Hj.
  destruct i as [|i]; simpl in Hi.
  - injection Hi as <-. rewrite Forall_forall in Hx.
    apply Hx. by eapply list_elem_of_lookup_2.
  - apply (IH i j); [lia|done..].
Qed.

End SortedDates.

Section DatedBars.
Context {F : Type} `{Float64Laws F}.

Lemma strategy_tables_dates (df : list (Bar.t F)) :
  StronglySorted Z.lt (Bar.Date <$> df) →
  dates_increasing (Strategy1.generate_signals df)
  ∧ dates_increasing (Strategy4.generate_signals df).
Proof.
  intros Hsorted.
  assert (Hgen : ∀ (t : list (Row F)) n,
            (λ r, (Date r, Close r)) <$> t
            `sublist_of` (λ b, (Bar.Date b, Bar.Close b)) <$> drop n df →
            dates_increasing t).
  { intros t n Hsub. unfold dates_increasing.
    apply StronglySorted_lookup_lt.
    apply (sublist_StronglySorted _ _ (Bar.Date <$> df)); [|done].
    transitivity (Bar.Date <$> drop n df).
    - apply (fmap_sublist fst) in Hsub.
      by rewrite <- !list_fmap_compose in Hsub.
    - apply fmap_sublist, sublist_drop. }
  split.
  - apply (Hgen _ 24), strategy1_rows_sublist.
  - apply (Hgen _ 199), strategy4_rows_sublist.
Qed.

End DatedBars.

(** ** When [calculate_metrics] reports, and the CAGR it reports *)

Section MetricsReported.
Context {F : Type} `{Float64 F}.
Variable pow : F → F → F.
Implicit Types (df : list (Row F)).

(** When the guard has passed, the ledger holds a trade. *)
Lemma guard_passes_ledger_nonempty df :
  Forall (λ x, x = 1 ∨ x = -1 ∨ x = 0)%Z (Signal <$> df) →
  guard_no_trades df = false → Backtest.build_trades df ≠ [].
Proof.
  intros Hvals [_ Hex]%guard_passes_iff. rewrite Forall_forall in Hvals.
  unfold Backtest.exits in Hex.
  apply signal_changes_nonempty in Hex as (j & x & y & Hx & Hy & Htwo); [|done].
  pose proof (Hvals x (list_elem_of_lookup_2 _ _ _ Hx)).
  pose proof (Hvals y (list_elem_of_lookup_2 _ _ _ Hy)).
  assert (x = 1%Z ∧ y = (-1)%Z) as [-> ->] by lia.
  by apply (adjacent_sell_closes_trade df j).
Qed.

Lemma cagr_exponents tr d :
  Backtest.cagr pow tr d
  = (if ((fofZ d / fofZ 365)%fl =? fofZ 0)%fl then Raise ZeroDivisionError
     else Return (pow (fofZ 1 + tr) (cagr_exponent d) - fofZ 1)%fl)
  ∧ Backtest.cagr_spec pow tr d
    = (pow (fofZ 1 + tr) (spec_exponent d) - fofZ 1)%fl.
Proof.
  split; [|done]. unfold Backtest.cagr, Backtest.py_div, cagr_exponent.
  by destruct (_ =? _)%fl.
Qed.

(** With the guard passed and a number of years other than 0, the metrics
    and the ledger are returned, and the CAGR is the power with the code's
    exponent. *)
Lemma calculate_metrics_reports df :
  Forall (λ x, x = 1 ∨ x = -1 ∨ x = 0)%Z (Signal <$> df) →
  guard_no_trades df = false →
  ((fofZ (date_span df) / fofZ 365)%fl =? fofZ 0)%fl = false →
  ∃ m, Backtest.calculate_metrics pow df
       = Return (Some (m, Backtest.build_trades df))
     ∧ Backtest.total_return df = Return (Total_Return m)
     ∧ CAGR m = (pow (fofZ 1 + Total_Return m)
                     (cagr_exponent (date_span df)) - fofZ 1)%fl.
Proof.
  intros Hvals Hg Hyears.
  pose proof (guard_passes_ledger_nonempty df Hvals Hg) as Hledger.
  pose proof (guard_passes_three_rows df Hg) as Hlen.
  destruct (total_return_returns df) as [tr Htr]; [lia|].
  pose proof (total_days_span df ltac:(lia)) as Hdays.
  unfold Backtest.calculate_metrics. unfold guard_no_trades in Hg.
  rewrite Hg, Htr. simpl. rewrite Hdays. simpl.
  rewrite (proj1 (cagr_exponents tr (date_span df))), Hyears. simpl.
  destruct (Backtest.build_trades df) as [|t0 ts] eqn:Ht; [done|]. simpl.
  eexists. split; [done|]. by simpl.
Qed.

End MetricsReported.

Section Exponents.

(** In exact arithmetic the two exponents are the same number. *)
Lemma xreal_exponents (days : Z) :
  (0 < days)%Z → cagr_exponent (F:=xreal) days = spec_exponent days.
Proof.
  intros Hd. apply IZR_lt in Hd.
  assert (Hy : (IZR days / 365 ≠ 0)%R).
  { apply Rgt_not_eq, Rdiv_lt_0_compat; lra. }
  unfold cagr_exponent, spec_exponent. cbn [fofZ fdiv xreal_Float64].
  rewrite (xdiv_fin (IZR days) 365) by lra.
  rewrite (xdiv_fin 1 (IZR days / 365)) by done.
  rewrite (xdiv_fin 365 (IZR days)) by lra.
  f_equal. field. lra.
Qed.

(** In binary64, for every span of 1 to [max_span] days: the number of
    years is not 0, and the exponent of the code is the exponent of the
    specification or a neighbour of it.  By evaluation of all the spans. *)
Lemma binary64_spans_checked :
  forallb (λ n, negb ((fofZ (Z.of_nat n) / fofZ 365)%fl
                      =? (fofZ 0 : float))%fl
                && adjacent (cagr_exponent (Z.of_nat n))
                            (spec_exponent (Z.of_nat n)))
          (seq 1 (Z.to_nat max_span)) = true.
Proof. vm_compute. reflexivity. Qed.

Lemma binary64_spans (days : Z) :
  (1 ≤ days ≤ max_span)%Z →
  ((fofZ days / fofZ 365)%fl =? (fofZ 0 : float))%fl = false
  ∧ adjacent (cagr_exponent days) (spec_exponent days) = true.
Proof.
  intros Hd. pose proof binary64_spans_checked as Hall.
  rewrite forallb_forall in Hall.
  specialize (Hall (Z.to_nat days)).
  rewrite Z2Nat.id in Hall by lia.
  apply andb_true_iff in Hall as [Hy Ha].
  - split; [by apply negb_true_iff|done].
  - apply list_elem_of_In, elem_of_seq. unfold max_span in *. lia.
Qed.

End Exponents.

(** ** [calculate_metrics] on dated tables, in binary64 *)

Section DatedTablesBinary64.

Lemma date_span_bounded {F : Type} (df : list (Row F)) (first_day span : Z) :
  (0 ≤ span)%Z →
  Forall (λ d, first_day ≤ d ≤ first_day + span)%Z (Date <$> df) →
  (date_span df ≤ span)%Z.
Proof.
  intros Hspan Hall. rewrite Forall_forall in Hall. unfold date_span.
  destruct (last (Date <$> df)) as [y|] eqn:Hy;
    destruct (head (Date <$> df)) as [x|] eqn:Hx; simpl.
  - rewrite last_lookup in Hy. rewrite head_lookup in Hx.
    pose proof (Hall y (list_elem_of_lookup_2 _ _ _ Hy)).
    pose proof (Hall x (list_elem_of_lookup_2 _ _ _ Hx)). lia.
  - destruct (Date <$> df); simpl in *; done.
  - destruct (Date <$> df) as [|d l]; [done|].
    rewrite last_lookup in Hy. apply lookup_ge_None in Hy. simpl in Hy. lia.
  - lia.
Qed.

(** On a table whose dates strictly increase within [max_span] days,
    [calculate_metrics] returns. *)
Lemma calculate_metrics_returns_binary64 (pow : float → float → float)
    (df : list (Row float)) (first_day : Z) :
  dates_increasing df →
  Forall (λ d, first_day ≤ d ≤ first_day + max_span)%Z (Date <$> df) →
  ∃ r, Backtest.calculate_metrics pow df = Return r.
Proof.
  intros Hinc Hrange.
  destruct (Backtest.calculate_metrics pow df) as [e|r] eqn:Hm; [|by exists r].
  apply calculate_metrics_raises in Hm as (_ & Hg & Hyears).
  pose proof (guard_passes_three_rows df Hg) as Hlen.
  pose proof (dates_increasing_span df Hinc ltac:(lia)) as Hpos.
  pose proof (date_span_bounded df first_day max_span ltac:(done) Hrange) as Hle.
  destruct (binary64_spans (date_span df) ltac:(lia)) as [Hnz _].
  congruence.
Qed.

Lemma strategy_tables_date_sublist {F : Type} `{Float64Laws F}
    (df : list (Bar.t F)) :
  Date <$> Strategy1.generate_signals df `sublist_of` Bar.Date <$> df
  ∧ Date <$> Strategy4.generate_signals df `sublist_of` Bar.Date <$> df.
Proof.
  assert (Hgen : ∀ (t : list (Row F)) n,
            (λ r, (Date r, Close r)) <$> t
            `sublist_of` (λ b, (Bar.Date b, Bar.Close b)) <$> drop n df →
            Date <$> t `sublist_of` Bar.Date <$> df).
  { intros t n Hsub. transitivity (Bar.Date <$> drop n df).
    - apply (fmap_sublist fst) in Hsub.
      by rewrite <- !list_fmap_compose in Hsub.
    - apply fmap_sublist, sublist_drop. }
  split.
  - apply (Hgen _ 24), strategy1_rows_sublist.
  - apply (Hgen _ 199), strategy4_rows_sublist.
Qed.

End DatedTablesBinary64.

(** ** The claims *)

(** C3.  For every series of entry and exit predicate values, the [Signal]
    column the first loop of [generate_signals] fills in holds only 1, -1
    and 0; its buys (+1) and sells (-1) strictly alternate, starting with a
    buy (between two buys there is a sell, between two sells a buy, before
    every sell a buy); and the number of sells is the number of buys or one
    fewer.  The same holds of the tables strategy1 and strategy4 return, for
    every input bar series, and [check_signal_integrity] finds no issue in
    them. *)
Theorem signals_strictly_alternate {F : Type} `{Float64 F} :
  (∀ n buy_condition sell_condition,
     signal_discipline (signal_loop n buy_condition sell_condition))
  ∧ (∀ df : list (Bar.t F),
       signal_discipline (Signal <$> Strategy1.generate_signals df)
       ∧ Debug.check_signal_integrity (Strategy1.generate_signals df)
         = (true, []))
  ∧ (∀ df : list (Bar.t F),
       signal_discipline (Signal <$> Strategy4.generate_signals df)
       ∧ Debug.check_signal_integrity (Strategy4.generate_signals df)
         = (true, [])).
Proof.
  split; [apply signal_loop_discipline|].
  split; intros df.
  - split.
    + rewrite strategy1_signals. apply signal_loop_discipline.
    + apply check_signal_integrity_ok. rewrite strategy1_signals.
      apply signal_loop_discipline.
  - split.
    + rewrite strategy4_signals. apply signal_loop_discipline.
    + apply check_signal_integrity_ok. rewrite strategy4_signals.
      apply signal_loop_discipline.
Qed.

(** C4.  For every table with [n] rows and columns [Signal] and [Close], the
    equity curve the second loop of [generate_signals] produces has [n] rows
    and starts at 1.0; for every row [i >= 1]: after a buy at row [i-1] the
    equity is carried over and the entry price becomes [Close[i-1]]; after a
    sell at row [i-1] of a position opened at row [j] (entry price
    [Close[j]]) it is [equity[i-1] * (1 + (Close[i-1] - Close[j]) / Close[j])];
    otherwise it is carried over.  Row [i] only depends on the rows before
    [i], never on [Signal[i]].  The tables strategy1 and strategy4 return
    carry this curve of their own [Signal] and [Close] columns. *)
Theorem equity_curve_lag_one {F : Type} `{Float64 F} :
  (∀ n Signal (Close : list F),
     lag_one_equity n Signal Close (equity_loop n Signal Close))
  ∧ (∀ df : list (Bar.t F),
       let t := Strategy1.generate_signals df in
       lag_one_equity (length t) (Signal <$> t) (Close <$> t)
                      (EquityCurve <$> t))
  ∧ (∀ df : list (Bar.t F),
       let t := Strategy4.generate_signals df in
       lag_one_equity (length t) (Signal <$> t) (Close <$> t)
                      (EquityCurve <$> t)).
Proof.
  split; [apply equity_loop_lag_one|].
  split; intros df t.
  - unfold t. rewrite strategy1_equity. apply equity_loop_lag_one.
  - unfold t. rewrite strategy4_equity. apply equity_loop_lag_one.
Qed.

(** C9.  When the input has fewer bars than the largest rolling window of
    the strategy (25 for strategy1, 200 for strategy4), every row has an
    undefined indicator, the drop of undefined rows empties the working
    table, and [generate_signals] returns the empty table.  (The embedding of
    [generate_signals] is a total function: the code has no raising path on
    a table of bars.) *)
Theorem short_input_gives_empty_table {F : Type} `{Float64Laws F}
    (df : list (Bar.t F)) :
  (length df < 25 →
     Strategy1.working df = [] ∧ Strategy1.generate_signals df = [])
  ∧ (length df < 200 →
     Strategy4.working df = [] ∧ Strategy4.generate_signals df = []).
Proof.
  split; intros Hlen.
  - split; [by apply strategy1_short_working|].
    unfold Strategy1.generate_signals.
    by rewrite strategy1_short_working.
  - split; [by apply strategy4_short_working|].
    unfold Strategy4.generate_signals.
    by rewrite strategy4_short_working.
Qed.

(** Witness of C9: the 24 leading bars of a 25-bar table. *)
Lemma short_input_gives_empty_table_witness :
  Strategy1.generate_signals (take 24 Scenario.no_range_bar) = []
  ∧ Strategy4.generate_signals (take 24 Scenario.no_range_bar) = [].
Proof.
  destruct (short_input_gives_empty_table (take 24 Scenario.no_range_bar))
    as [H1 H4].
  split.
  - apply H1. vm_compute. lia.
  - apply H4. vm_compute. lia.
Defined.

(** C10, as the specification states it, fails: a bar with high = low is
    kept when its close lies outside its range, because the bar strength is
    then infinite, not undefined.  Here the last of 25 bars has
    high = low = 10 and close 11, and it is the one row of the returned
    table. *)
Lemma bar_without_range_is_kept :
  Scenario.close_outside_range !! 24
  = Some (Bar.mk 24 (fofZ 10) (fofZ 10) (fofZ 10) (fofZ 11) (fofZ 1000))
  ∧ Strategy1.IBS <$> Strategy1.working Scenario.close_outside_range
    = [finf]
  ∧ Date <$> Strategy1.generate_signals Scenario.close_outside_range = [24%Z].
Proof. vm_compute. done. Qed.

(** C10, amended.  In strategy1 every row that survives the drop of
    undefined rows is an input bar that is not degenerate: no bar with
    [low <= close <= high == low] reaches the working table, because its
    internal bar strength (close - low) / (high - low) is undefined; and the
    returned table has exactly the dates and closes of the working table. *)
Theorem degenerate_bars_are_dropped {F : Type} `{Float64Laws F}
    (df : list (Bar.t F)) :
  (∀ r, r ∈ Strategy1.working df →
        Strategy1.bar r ∈ df ∧ ¬ degenerate_bar (Strategy1.bar r))
  ∧ (∀ b, b ∈ df → degenerate_bar b →
          b ∉ (Strategy1.bar <$> Strategy1.working df))
  ∧ Date <$> Strategy1.generate_signals df
    = Bar.Date ∘ Strategy1.bar <$> Strategy1.working df
  ∧ Close <$> Strategy1.generate_signals df
    = Bar.Close ∘ Strategy1.bar <$> Strategy1.working df.
Proof.
  split; [apply strategy1_working_rows|]. split.
  - intros b _ Hdeg (r & -> & Hr)%list_elem_of_fmap.
    by destruct (strategy1_working_rows df r Hr).
  - unfold Strategy1.generate_signals. split.
    + apply result_table_Date.
    + apply result_table_Close. by rewrite !length_fmap.
Qed.

(** Witness of C10: 25 bars whose last has high = low = close. *)
Lemma degenerate_bars_are_dropped_witness :
  (∀ r, r ∈ Strategy1.working Scenario.no_range_bar →
        Strategy1.bar r ∈ Scenario.no_range_bar
        ∧ ¬ degenerate_bar (Strategy1.bar r))
  ∧ (∀ b, b ∈ Scenario.no_range_bar → degenerate_bar b →
          b ∉ (Strategy1.bar <$> Strategy1.working Scenario.no_range_bar))
  ∧ Date <$> Strategy1.generate_signals Scenario.no_range_bar
    = Bar.Date ∘ Strategy1.bar <$> Strategy1.working Scenario.no_range_bar
  ∧ Close <$> Strategy1.generate_signals Scenario.no_range_bar
    = Bar.Close ∘ Strategy1.bar <$> Strategy1.working Scenario.no_range_bar.
Proof. exact (degenerate_bars_are_dropped Scenario.no_range_bar). Defined.

(** The last bar of [Scenario.no_range_bar], with high = low = close, is
    dropped: the returned table is empty. *)
Lemma no_range_bar_is_dropped :
  Strategy1.generate_signals Scenario.no_range_bar = [].
Proof. vm_compute. done. Qed.

(** C1 fails on the code.  [Scenario.late_sell] holds one completed round
    trip (buy at row 1, sell at row 3, a hold in between), the ledger loop
    finds it, and yet [calculate_metrics] returns the absent result: the
    guard of lines 20-26 looks for a difference of -2 between consecutive
    signals, which only a sell on the row right after its buy produces. *)
Theorem late_sell_reported_as_no_trades (pow : float → float → float) :
  Signal <$> Scenario.late_sell = [0; 1; 0; -1; 0]%Z
  ∧ round_trip (Signal <$> Scenario.late_sell) 1 3
  ∧ Backtest.build_trades Scenario.late_sell
    = [ {| Entry_Date := Some 1%Z; Exit_Date := 3;
           Entry_Price := fofZ 100; Exit_Price := fofZ 120;
           Return_pct := fofZ 20 |} ]
  ∧ Backtest.signal_changes Scenario.late_sell = [0; 1; -1; -1; 1]%Z
  ∧ Backtest.exits Scenario.late_sell = []
  ∧ Backtest.calculate_metrics pow Scenario.late_sell = Return None.
Proof.
  split; [by vm_compute|]. split.
  - split; [lia|]. split; [by vm_compute|]. split; [by vm_compute|].
    intros k Hk. assert (k = 2) as -> by lia. by vm_compute.
  - split; [by vm_compute|]. split; [by vm_compute|].
    split; [by vm_compute|]. by apply calculate_metrics_guard.
Qed.

(** C2, as the specification states it, fails: in its scenario the sell
    fires on the last row, and under the lag-one rule a sell is realised on
    the row after it, so the equity curve never leaves 1.0. *)
Lemma spec_scenario_equity_is_not_realised :
  EquityCurve <$> Scenario.spec_table (F:=float) false
  ≠ [fofZ 1; fofZ 1; fofZ 1; (fofZ 13 / fofZ 10)%fl].
Proof. vm_compute. intros Heq. discriminate Heq. Qed.

(** C2, amended.  For the closes [100, 110, 90, 130] on four days, with the
    entry predicate true at row 0 only and the exit predicate true at row 3
    (and not at rows 1 and 2), the table the loops of [generate_signals]
    produce holds these dates and closes, the signals [1, 0, 0, -1] and the
    EquityCurve [1.0, 1.0, 1.0, 1.0], for every arithmetic: the sell fires on
    the last row and, under the lag-one rule, would be realised on the row
    after it. *)
Theorem spec_scenario_signals_flat_equity {F : Type} `{Float64 F}
    (exit0 : bool) :
  let t := Scenario.spec_table (F:=F) exit0 in
  Date <$> t = [0; 1; 2; 3]%Z
  ∧ Close <$> t = fofZ <$> [100; 110; 90; 130]%Z
  ∧ Signal <$> t = [1; 0; 0; -1]%Z
  ∧ EquityCurve <$> t = [fofZ 1; fofZ 1; fofZ 1; fofZ 1].
Proof. intros t. by destruct exit0. Qed.

(** C5 fails on the code.  [Scenario.alternating] holds two completed round
    trips, rows 0-1 and rows 2-3, and the ledger loop of lines 49-69 would
    record one Trade for each, with the dates and closes of the signal rows
    themselves; but [calculate_metrics] returns at its guard, before the
    loop, and hands out no Trade at all: no difference of consecutive
    signals equals 1 (a buy on the first row has no difference, a buy right
    after a sell has difference 2), so [entries] is empty. *)
Theorem round_trips_without_ledger (pow : float → float → float) :
  Signal <$> Scenario.alternating = [1; -1; 1; -1]%Z
  ∧ round_trip (Signal <$> Scenario.alternating) 0 1
  ∧ round_trip (Signal <$> Scenario.alternating) 2 3
  ∧ Backtest.build_trades Scenario.alternating
    = [ {| Entry_Date := Some 0%Z; Exit_Date := 1;
           Entry_Price := fofZ 100; Exit_Price := fofZ 110;
           Return_pct := fofZ 10 |};
        {| Entry_Date := Some 2%Z; Exit_Date := 3;
           Entry_Price := fofZ 100; Exit_Price := fofZ 120;
           Return_pct := fofZ 20 |} ]
  ∧ Backtest.signal_changes Scenario.alternating = [0; -2; 2; -2]%Z
  ∧ Backtest.entries Scenario.alternating = []
  ∧ Backtest.calculate_metrics pow Scenario.alternating = Return None.
Proof.
  split; [by vm_compute|]. split.
  { split; [lia|]. split; [by vm_compute|]. split; [by vm_compute|].
    intros k Hk. lia. }
  split.
  { split; [lia|]. split; [by vm_compute|]. split; [by vm_compute|].
    intros k Hk. lia. }
  split; [by vm_compute|]. split; [by vm_compute|].
  split; [by vm_compute|]. by apply calculate_metrics_guard.
Qed.

(** C7, as the specification states it, fails in binary64.
    [Scenario.one_trade 3] spans 3 days and passes the guard; its total
    return is not 0.  For every power function the CAGR reported is the
    power at the exponent [1 / (3 / 365)], the formula of the specification
    is the power at [365 / 3], and these are two different doubles
    (121.66666666666669 and 121.66666666666667): the two values are equal
    only where the power function happens to round them together, which is
    not so for power functions in general. *)
Lemma binary64_cagr_is_not_the_spec_formula :
  (0 < date_span (Scenario.one_trade 3))%Z
  ∧ (∀ pow : float → float → float,
       ∃ m, Backtest.calculate_metrics pow (Scenario.one_trade 3)
            = Return (Some (m, Backtest.build_trades (Scenario.one_trade 3)))
          ∧ (Total_Return m =? fofZ 0)%fl = false
          ∧ CAGR m = (pow (fofZ 1 + Total_Return m) (cagr_exponent 3)
                      - fofZ 1)%fl
          ∧ Backtest.cagr_spec pow (Total_Return m) 3
            = (pow (fofZ 1 + Total_Return m) (spec_exponent 3) - fofZ 1)%fl)
  ∧ cagr_exponent (F:=float) 3 ≠ spec_exponent 3
  ∧ ¬ (∀ (pow : float → float → float) m t,
         Backtest.calculate_metrics pow (Scenario.one_trade 3)
         = Return (Some (m, t)) →
         CAGR m = Backtest.cagr_spec pow (Total_Return m)
                    (date_span (Scenario.one_trade 3))).
Proof.
  assert (Hrep : ∀ pow : float → float → float,
            ∃ m, Backtest.calculate_metrics pow (Scenario.one_trade 3)
                 = Return (Some (m, Backtest.build_trades (Scenario.one_trade 3)))
               ∧ Backtest.total_return (Scenario.one_trade 3)
                 = Return (Total_Return m)
               ∧ CAGR m = (pow (fofZ 1 + Total_Return m) (cagr_exponent 3)
                           - fofZ 1)%fl).
  { intros pow. apply (calculate_metrics_reports pow (Scenario.one_trade 3)).
    - vm_compute. repeat constructor; lia.
    - by vm_compute.
    - by vm_compute. }
  split; [by vm_compute|]. split.
  { intros pow. destruct (Hrep pow) as (m & Hm & Htr & Hc).
    exists m. split; [done|]. split; [|done].
    assert (Hnz : match Backtest.total_return (Scenario.one_trade 3) with
                  | Return x => (x =? fofZ 0)%fl
                  | Raise _ => true
                  end = false) by (vm_compute; reflexivity).
    by rewrite Htr in Hnz. }
  split.
  { vm_compute. intros Heq. discriminate Heq. }
  intros Hall.
  destruct (Hrep (λ _ y, y)) as (m & Hm & _ & Hc).
  specialize (Hall _ _ _ Hm). rewrite Hc in Hall.
  vm_compute in Hall. discriminate Hall.
Qed.

(** C7, amended.  In binary64, on a table with signals in [{1, -1, 0}] that
    passes the guard and whose dates span 1 to [max_span] days,
    [calculate_metrics] reports, and its CAGR is
    [(1 + total return) ** (1 / (days / 365)) - 1], evaluated in this order.
    The exponent [1 / (days / 365)] is the [365 / days] of the specification
    or a neighbouring double, and in exact arithmetic the same number; where
    the two doubles coincide the CAGR is the formula of the specification,
    [(1 + total return) ** (365 / days) - 1].  ([pow] is any power
    function.) *)
Theorem cagr_is_the_spec_formula_up_to_rounding
    (pow : float → float → float) (df : list (Row float)) :
  Forall (λ x, x = 1 ∨ x = -1 ∨ x = 0)%Z (Signal <$> df) →
  guard_no_trades df = false →
  (1 ≤ date_span df ≤ max_span)%Z →
  (∃ m, Backtest.calculate_metrics pow df
        = Return (Some (m, Backtest.build_trades df))
      ∧ Backtest.total_return df = Return (Total_Return m)
      ∧ CAGR m = (pow (fofZ 1 + Total_Return m)
                      (cagr_exponent (date_span df)) - fofZ 1)%fl
      ∧ (cagr_exponent (F:=float) (date_span df)
         = spec_exponent (date_span df) →
         CAGR m = Backtest.cagr_spec pow (Total_Return m) (date_span df)))
  ∧ adjacent (cagr_exponent (date_span df)) (spec_exponent (date_span df))
    = true
  ∧ cagr_exponent (F:=xreal) (date_span df) = spec_exponent (date_span df).
Proof.
  intros Hvals Hg Hspan.
  destruct (binary64_spans (date_span df) Hspan) as [Hyears Hadj].
  destruct (calculate_metrics_reports pow df Hvals Hg Hyears)
    as (m & Hm & Htr & Hc).
  split; [|split; [done|apply xreal_exponents; lia]].
  exists m. split; [done|]. split; [done|]. split; [done|].
  intros Heq. rewrite Hc, Heq.
  by rewrite (proj2 (cagr_exponents pow (Total_Return m) (date_span df))).
Qed.

(** Witness of C7: [Scenario.one_trade 4], which spans 4 days.  Its total
    return is not 0, the two exponents are the same double, 91.25, and the
    CAGR reported is the formula of the specification. *)
Lemma cagr_is_the_spec_formula_up_to_rounding_witness :
  ∃ m, Backtest.calculate_metrics (λ x _ : float, x) (Scenario.one_trade 4)
       = Return (Some (m, Backtest.build_trades (Scenario.one_trade 4)))
     ∧ (Total_Return m =? fofZ 0)%fl = false
     ∧ CAGR m
       = Backtest.cagr_spec (λ x _ : float, x) (Total_Return m)
           (date_span (Scenario.one_trade 4)).
Proof.
  destruct (cagr_is_the_spec_formula_up_to_rounding (λ x _ : float, x)
              (Scenario.one_trade 4))
    as ((m & Hm & Htr & _ & Heq) & _ & _).
  - vm_compute. repeat constructor; lia.
  - vm_compute. reflexivity.
  - vm_compute. split; discriminate.
  - exists m. split; [exact Hm|]. split.
    + assert (Hnz : match Backtest.total_return (Scenario.one_trade 4) with
                    | Return x => (x =? fofZ 0)%fl
                    | Raise _ => true
                    end = false) by (vm_compute; reflexivity).
      rewrite Htr in Hnz. exact Hnz.
    + apply Heq. vm_compute. reflexivity.
Defined.

(** C8.  In exact arithmetic, for every equity curve with strictly positive
    (finite) values, the max drawdown of lines 44-46 of [calculate_metrics],
    the minimum over the rows of (equity - running peak) / running peak with
    the running peak the cumulative maximum, is a number less than or equal
    to 0, and it is 0 exactly when the curve is non-decreasing; it is the
    figure [calculate_metrics] reports.  (The curve is not empty:
    [calculate_metrics] reaches these lines on tables of two rows at least,
    and an equity curve starts with the point 1.0.) *)
Theorem max_drawdown_nonpositive (equity : list xreal) :
  equity ≠ [] → Forall positive_finite equity →
  (∃ d, Backtest.max_drawdown equity = Fin d
        ∧ (d <= 0)%R
        ∧ (d = 0%R ↔ non_decreasing equity))
  ∧ (∀ pow df m t, EquityCurve <$> df = equity →
       Backtest.calculate_metrics pow df = Return (Some (m, t)) →
       Max_Drawdown m = Backtest.max_drawdown equity).
Proof.
  intros Hne Hpos. split.
  2:{ intros pow df m t <- Hm.
      by destruct (calculate_metrics_inv pow df m t Hm)
        as (_ & _ & _ & _ & _ & _ & -> & _). }
  destruct (positive_finite_list equity Hpos) as (rs & -> & Hrs).
  destruct rs as [|r rs]; [done|].
  assert (Hr : (0 < r)%R) by (by inversion Hrs).
  unfold Backtest.max_drawdown, series_min.
  rewrite Drawdown_fin, dropna_vals_fin by done.
  pose proof (dd_from_nonpos r (r :: rs) Hr Hrs) as Hnonpos.
  pose proof (dd_from_zero r (r :: rs) Hr Hrs) as Hzero.
  destruct (dd_from r (r :: rs)) as [|d ds] eqn:Hdd; [done|].
  rewrite fmin_list_fin.
  destruct (fold_Rmin_spec ds d) as [Hin Hmin].
  set (m := foldl Rmin d ds) in *.
  rewrite Forall_forall in Hnonpos, Hmin.
  exists m. split; [done|]. split; [by apply Hnonpos|].
  rewrite non_decreasing_sorted.
  assert (Hself : sorted_from r (r :: rs) ↔ sorted_from r rs).
  { simpl. split; [by intros [_ ?]|]. intros ?. split; [lra|done]. }
  rewrite <- Hself, <- Hzero, Forall_forall. split.
  - intros Hm0 x Hx. pose proof (Hnonpos x Hx). pose proof (Hmin x Hx). lra.
  - intros Hall. by apply Hall.
Qed.

(** Witness of C8: the curve 1, 2, 1. *)
Lemma max_drawdown_nonpositive_witness :
  (∃ d, Backtest.max_drawdown [Fin 1; Fin 2; Fin 1] = Fin d
        ∧ (d <= 0)%R
        ∧ (d = 0%R ↔ non_decreasing [Fin 1; Fin 2; Fin 1]))
  ∧ (∀ pow df m t, EquityCurve <$> df = [Fin 1; Fin 2; Fin 1] →
       Backtest.calculate_metrics pow df = Return (Some (m, t)) →
       Max_Drawdown m = Backtest.max_drawdown [Fin 1; Fin 2; Fin 1]).
Proof.
  apply (max_drawdown_nonpositive [Fin 1; Fin 2; Fin 1]); [done|].
  repeat constructor; eexists; (split; [reflexivity|lra]).
Defined.

(** C6.  In exact arithmetic, on a table whose dates strictly increase,
    [calculate_metrics] does not raise; and when it reports metrics: if the
    standard deviation of the daily returns is zero, the Sharpe ratio is the
    not-a-number sentinel (0/0: the mean is zero too), and if no trade
    lost, the profit factor is the infinity sentinel.  Neither is 0. *)
Theorem sentinels_not_exceptions (pow : xreal → xreal → xreal)
    (df : list (Row xreal)) :
  dates_increasing df →
  ∃ r, Backtest.calculate_metrics pow df = Return r
     ∧ ∀ m t, r = Some (m, t) →
         (Backtest.daily_std df = Fin 0 →
            Sharpe_Ratio m = NaN ∧ Sharpe_Ratio m ≠ Fin 0)
         ∧ (Backtest.losing (Return_pct <$> t) = [] →
            Profit_Factor m = PInf ∧ Profit_Factor m ≠ Fin 0).
Proof.
  intros Hinc.
  destruct (calculate_metrics_returns pow df Hinc)
    as [[_ Hr]|[(_ & _ & Hr)|(_ & _ & m & Hr)]];
    try (exists None; split; [done|]; by intros ???).
  eexists. split; [exact Hr|]. intros m' t' Heq. injection Heq as <- <-.
  destruct (calculate_metrics_inv pow df m _ Hr)
    as (_ & _ & _ & _ & _ & -> & _ & ->).
  split.
  - intros Hstd. by rewrite sharpe_ratio_zero_std.
  - intros Hl. by rewrite (profit_factor_no_losses (F:=xreal)).
Qed.

(** Witness of C6: [Scenario.sell_on_last_row], a table with one winning
    trade whose equity curve is constant; both sentinels are reported. *)
Lemma sentinels_not_exceptions_witness :
  ∃ m, Backtest.calculate_metrics xpow Scenario.sell_on_last_row
       = Return (Some (m, Backtest.build_trades Scenario.sell_on_last_row))
     ∧ Backtest.daily_std (Scenario.sell_on_last_row (F:=xreal)) = Fin 0
     ∧ Sharpe_Ratio m = NaN
     ∧ Profit_Factor m = PInf.
Proof.
  destruct (sentinels_not_exceptions xpow Scenario.sell_on_last_row)
    as (r & Hr & Hsent); [apply sell_on_last_row_dates|].
  destruct (sell_on_last_row_metrics xpow) as [m Hm].
  rewrite Hm in Hr. injection Hr as <-.
  destruct (Hsent m _ eq_refl) as [Hsharpe Hpf].
  exists m. split; [done|]. split; [apply sell_on_last_row_daily_std|]. split.
  - by apply Hsharpe, sell_on_last_row_daily_std.
  - by apply Hpf, sell_on_last_row_no_losses.
Defined.

(** The same table in binary64 reports both sentinels too, whatever the
    power function. *)
Lemma sell_on_last_row_sentinels_binary64 (pow : float → float → float) :
  ∃ m, Backtest.calculate_metrics pow Scenario.sell_on_last_row
       = Return (Some (m, Backtest.build_trades Scenario.sell_on_last_row))
     ∧ fisnan (Sharpe_Ratio m) = true ∧ Profit_Factor m = finf.
Proof. eexists. split; [by vm_compute|]. by vm_compute. Qed.

(** ** Further properties of the code *)

(** X1.  [calculate_metrics] on a table of fewer than three rows, the empty
    table included, prints "No trades executed" and returns [None], for
    every arithmetic and whatever the columns hold: the guard of lines
    20-26 looks at the changes of [Signal] from row 1 on, and an entry and
    an exit are two different rows.  It does not raise, in particular not
    on the empty table, whose first and last closes do not exist. *)
Theorem short_table_has_no_metrics {F : Type} `{Float64 F} (pow : F → F → F)
    (df : list (Row F)) :
  length df < 3 → Backtest.calculate_metrics pow df = Return None.
Proof.
  intros Hlen. apply calculate_metrics_guard.
  destruct (guard_no_trades df) eqn:Hg; [done|].
  apply guard_passes_three_rows in Hg. lia.
Qed.

(** Witness of X1: two rows, a buy and its sell.  The ledger loop would
    record the round trip; the guard returns first. *)
Lemma short_table_has_no_metrics_witness :
  Backtest.build_trades
    (result_table [0; 1]%Z (fofZ (F:=float) <$> [100; 110]%Z)
                  [true; false] [false; true]) ≠ []
  ∧ Backtest.calculate_metrics (λ x _ : float, x)
      (result_table [0; 1]%Z (fofZ <$> [100; 110]%Z)
                    [true; false] [false; true]) = Return None.
Proof.
  split; [by vm_compute|].
  apply (short_table_has_no_metrics (λ x _ : float, x)). vm_compute. lia.
Defined.

(** X2.  The only exception of [calculate_metrics] is [ZeroDivisionError],
    at [1 / num_years] of line 35, and it is raised exactly when the guard
    passes and [num_years = days / 365] compares equal to 0: no index is out
    of range on any table, and nothing is raised once the guard has
    returned [None].  In exact arithmetic [num_years == 0] says that the
    first and the last date are the same day. *)
Theorem metrics_raise_only_zero_division :
  (∀ (F : Type) `(Float64 F) (pow : F → F → F) (df : list (Row F)) e,
     Backtest.calculate_metrics pow df = Raise e
     ↔ e = ZeroDivisionError ∧ guard_no_trades df = false
       ∧ ((fofZ (date_span df) / fofZ 365)%fl =? fofZ 0)%fl = true)
  ∧ (∀ (pow : xreal → xreal → xreal) (df : list (Row xreal)) e,
       Backtest.calculate_metrics pow df = Raise e
       ↔ e = ZeroDivisionError ∧ guard_no_trades df = false
         ∧ date_span df = 0%Z).
Proof.
  split; [intros; apply calculate_metrics_raises|].
  intros pow df e. rewrite calculate_metrics_raises.
  assert (Hz : ((fofZ (date_span df) / fofZ 365)%fl =? fofZ 0)%fl = true
               ↔ date_span df = 0%Z).
  { cbn [fofZ fdiv feqb xreal_Float64]. rewrite xdiv_fin by lra.
    cbn [xeqb]. rewrite Reqb_true. split.
    - intros Hq. apply eq_IZR.
      assert (Hd : (IZR (date_span df) / 365 * 365 = IZR (date_span df))%R)
        by (field; lra).
      rewrite Hq in Hd. lra.
    - intros ->. lra. }
  by rewrite Hz.
Qed.

(** The raise happens, in binary64 too: one round trip, all three rows
    dated the same day. *)
Lemma same_day_table_raises (pow : float → float → float) :
  Backtest.calculate_metrics pow
    [mkRow 5%Z (fofZ 100) 1%Z (fofZ 1); mkRow 5%Z (fofZ 110) (-1)%Z (fofZ 1);
     mkRow 5%Z (fofZ 110) 0%Z (fofZ 1)]
  = Raise ZeroDivisionError.
Proof. by vm_compute. Qed.

(** X3.  The [Profit %] column that [export_trades_to_csv] computes from the
    prices of a ledger is the [Return %] column [calculate_metrics] filled
    in: the exported rows are the ledger's entry date, exit date and
    return, row by row, and a ledger that [calculate_metrics] returned is
    never answered with "No trades to export". *)
Theorem exported_profit_is_ledger_return {F : Type} `{Float64 F}
    (pow : F → F → F) (df : list (Row F)) m t :
  Backtest.calculate_metrics pow df = Return (Some (m, t)) →
  RunBacktest.export_trades_to_csv (Some t)
  = Some ((λ t, (Entry_Date t, Exit_Date t, Return_pct t)) <$> t).
Proof.
  intros Hm.
  destruct (calculate_metrics_inv pow df m t Hm) as (_ & Ht & Hne & _).
  pose proof (build_trades_return_pct df) as Hret. rewrite <- Ht in Hret.
  destruct t as [|t0 t]; [done|]. unfold RunBacktest.export_trades_to_csv.
  f_equal. apply Forall_fmap_ext_1.
  eapply Forall_impl; [exact Hret|]. intros x Hx. simpl. by rewrite Hx.
Qed.

(** Witness of X3: the three-row table with a sell right after its buy. *)
Lemma exported_profit_is_ledger_return_witness :
  ∃ m t,
    Backtest.calculate_metrics (λ x _ : float, x)
      (Scenario.sell_on_last_row (F:=float)) = Return (Some (m, t))
    ∧ RunBacktest.export_trades_to_csv (Some t)
      = Some ((λ t, (Entry_Date t, Exit_Date t, Return_pct t)) <$> t).
Proof.
  eexists _, _. split; [by vm_compute|].
  eapply (exported_profit_is_ledger_return (λ x _ : float, x)
            (Scenario.sell_on_last_row (F:=float))).
  by vm_compute.
Defined.

(** X4.  On a table whose [Signal] column keeps the discipline of the first
    loop and whose [EquityCurve] is the one the second loop computes from
    it (the tables of [generate_signals]), the curve is the ledger of
    [calculate_metrics] compounded one row late: the equity of row [i] is
    1.0 multiplied, in ledger order, by
    [1 + (exit price - entry price) / entry price] for every trade of the
    ledger whose sell row lies before [i].  The total return is what the
    trades sold before the last row compound to; a trade sold on the last
    row is in the ledger and not in the curve, and when the last row is not
    a sell the whole ledger is compounded. *)
Theorem equity_curve_compounds_ledger {F : Type} `{Float64 F}
    (df : list (Row F)) :
  signal_discipline (Signal <$> df) →
  EquityCurve <$> df
  = equity_loop (length df) (Signal <$> df) (Close <$> df) →
  ∃ pairs : list (nat * nat),
    Backtest.build_trades df = (λ p, trade_of df p.1 p.2) <$> pairs
    ∧ (∀ i j, (i, j) ∈ pairs ↔ round_trip (Signal <$> df) i j)
    ∧ (∀ i, i < length df →
         iloc (EquityCurve <$> df) i
         = compounded (Close <$> df) (sold_before i pairs))
    ∧ (df ≠ [] →
         Backtest.total_return df
         = Return (compounded (Close <$> df)
                     (sold_before (length df - 1) pairs)
                   / fofZ 1 - fofZ 1)%fl)
    ∧ ((Signal <$> df) !! (length df - 1) ≠ Some (-1)%Z →
         sold_before (length df - 1) pairs = pairs).
Proof.
  intros Hsd HE.
  destruct (trade_inv_at df (length df) (sd_between_buys _ Hsd)) as [pairs Hinv];
    [done|].
  destruct Hinv as [Htr Hpairs _ Hsort _ _ _].
  assert (Hiff : ∀ i j, (i, j) ∈ pairs ↔ round_trip (Signal <$> df) i j).
  { intros i j. rewrite Hpairs. split; [by intros [? _]|].
    intros Hrt. split; [done|].
    destruct Hrt as (_ & _ & Hj & _). apply lookup_lt_Some in Hj.
    by rewrite length_fmap in Hj. }
  assert (Hcurve : ∀ i, i < length df →
            iloc (EquityCurve <$> df) i
            = compounded (Close <$> df) (sold_before i pairs)).
  { intros i Hi. rewrite HE.
    apply equity_compounds; [by rewrite length_fmap|done..]. }
  exists pairs. split; [by rewrite build_trades_state|].
  split; [done|]. split; [done|]. split.
  - intros Hne. rewrite total_return_equity_loop by done.
    rewrite Hcurve; [done|]. destruct df; [done|simpl; lia].
  - intros Hlast. apply sold_before_all, Forall_forall. intros [i j] Hin.
    apply Hpairs in Hin as [(_ & _ & Hj & _) Hlt]. simpl.
    destruct (decide (j = length df - 1)) as [->|]; [done|lia].
Qed.

(** Witness of X4: [Scenario.late_sell], whose round trip of rows 1 and 3
    reaches the curve on row 4. *)
Lemma equity_curve_compounds_ledger_witness :
  ∃ pairs : list (nat * nat),
    Backtest.build_trades Scenario.late_sell
    = (λ p, trade_of Scenario.late_sell p.1 p.2) <$> pairs
    ∧ (∀ i j, (i, j) ∈ pairs
              ↔ round_trip (Signal <$> Scenario.late_sell) i j)
    ∧ (∀ i, i < length Scenario.late_sell →
         iloc (EquityCurve <$> Scenario.late_sell) i
         = compounded (Close <$> Scenario.late_sell) (sold_before i pairs))
    ∧ (Scenario.late_sell ≠ [] →
         Backtest.total_return Scenario.late_sell
         = Return (compounded (Close <$> Scenario.late_sell)
                     (sold_before (length Scenario.late_sell - 1) pairs)
                   / fofZ 1 - fofZ 1)%fl)
    ∧ ((Signal <$> Scenario.late_sell) !! (length Scenario.late_sell - 1)
       ≠ Some (-1)%Z →
         sold_before (length Scenario.late_sell - 1) pairs = pairs).
Proof.
  apply (equity_curve_compounds_ledger Scenario.late_sell).
  - apply alternates_discipline. vm_compute. tauto.
  - by vm_compute.
Defined.

(** X5.  The first loop of [generate_signals] acts at the first
    opportunity and only then.  With "long before row [i]" read off the
    column itself (the last buy or sell above row [i] is a buy): row [i] is
    a buy exactly when the entry predicate holds at [i] and no position is
    open, a sell exactly when the exit predicate holds at [i] and a position
    is open, and a hold otherwise; in particular, an entry predicate that
    holds while long and an exit predicate that holds while flat are
    ignored. *)
Theorem signal_follows_predicates (n : nat) (buy_condition sell_condition : list bool)
    (i : nat) :
  i < n →
  let Signal := signal_loop n buy_condition sell_condition in
  (Signal !! i = Some 1%Z
   ↔ iloc buy_condition i = true ∧ ¬ long_before Signal i)
  ∧ (Signal !! i = Some (-1)%Z
     ↔ iloc sell_condition i = true ∧ long_before Signal i)
  ∧ (Signal !! i = Some 0%Z
     ↔ (iloc buy_condition i = false ∧ ¬ long_before Signal i)
       ∨ (iloc sell_condition i = false ∧ long_before Signal i)).
Proof.
  intros Hi Signal. unfold Signal.
  rewrite signal_loop_row, signal_loop_long_before by lia. cbn zeta.
  destruct (position_after false _), (iloc buy_condition i),
    (iloc sell_condition i); simpl;
    (split; [|split]); split; try done; try (intros [? ?]; done);
    try (intros [[? ?]|[? ?]]; done); intros _; auto.
Qed.

(** Witness of X5: the entry predicate holds on rows 0, 1 and 3, the exit
    predicate on rows 1 and 2; the signals are buy, sell, hold, buy. *)
Lemma signal_follows_predicates_witness :
  signal_loop 4 [true; true; false; true] [false; true; true; false]
  = [1; -1; 0; 1]%Z
  ∧ (signal_loop 4 [true; true; false; true] [false; true; true; false] !! 1
     = Some (-1)%Z
     ↔ iloc [false; true; true; false] 1 = true
       ∧ long_before
           (signal_loop 4 [true; true; false; true] [false; true; true; false])
           1).
Proof.
  split; [done|].
  apply (signal_follows_predicates 4 [true; true; false; true]
           [false; true; true; false] 1). lia.
Defined.

(** X6.  Neither strategy looks ahead: when bars are appended to the
    input, the table [generate_signals] returns for the longer input starts
    with the table it returns for the shorter one, unchanged in every
    column (date, close, signal, equity).  Rolling windows, the shift, the
    drop of rows with a missing value and both loops only read the bars up
    to the current one. *)
Theorem later_bars_leave_rows_unchanged {F : Type} `{Float64 F}
    (df more : list (Bar.t F)) :
  (∃ rows, Strategy1.generate_signals (df ++ more)
           = Strategy1.generate_signals df ++ rows)
  ∧ (∃ rows, Strategy4.generate_signals (df ++ more)
             = Strategy4.generate_signals df ++ rows).
Proof.
  split.
  - apply strategy1_generate_signals_app.
  - apply strategy4_generate_signals_app.
Qed.

(** X7.  What [check_signal_integrity] accepts.  It answers [(True, [])]
    exactly when the buys and sells of the [Signal] column (every other
    value is skipped) alternate and either start with a buy, or start with
    a sell and are as many buys as sells.  So it accepts every column that
    keeps the discipline of the first loop, and also balanced columns that
    open with a sell.  Its first component is [True] exactly when the list
    of issues is empty. *)
Theorem integrity_check_accepts_iff {F : Type} `{Float64 F}
    (strategy_df : list (Row F)) :
  (Debug.check_signal_integrity strategy_df = (true, [])
   ↔ alternates 1 (buys_and_sells (Signal <$> strategy_df))
     ∨ (alternates (-1) (buys_and_sells (Signal <$> strategy_df))
        ∧ Debug.count_signal 1 (Signal <$> strategy_df)
          = Debug.count_signal (-1) (Signal <$> strategy_df)))
  ∧ ((Debug.check_signal_integrity strategy_df).1 = true
     ↔ (Debug.check_signal_integrity strategy_df).2 = []).
Proof.
  split; [apply check_signal_integrity_accepts|].
  unfold Debug.check_signal_integrity. cbn [fst snd].
  rewrite Nat.eqb_eq. apply length_zero_iff_nil.
Qed.

(** A column that opens with a sell passes the check; a repeated buy and a
    surplus sell do not. *)
Lemma integrity_check_examples :
  Debug.check_signal_integrity
    [mkRow 0%Z (fofZ (F:=float) 1) (-1)%Z (fofZ 1); mkRow 1%Z (fofZ 1) 1%Z (fofZ 1)]
  = (true, [])
  ∧ Debug.check_signal_integrity
      [mkRow 0%Z (fofZ (F:=float) 1) 1%Z (fofZ 1); mkRow 1%Z (fofZ 1) 0%Z (fofZ 1);
       mkRow 2%Z (fofZ 1) 1%Z (fofZ 1)]
    = (false, [Debug.Consecutive_buy 2; Debug.Unbalanced 2 0])
  ∧ Debug.check_signal_integrity
      [mkRow 0%Z (fofZ (F:=float) 1) (-1)%Z (fofZ 1)]
    = (false, [Debug.Unbalanced 0 1]).
Proof. by vm_compute. Qed.

(** X9.  The trade statistics [calculate_metrics] reports (lines 72-84), in
    exact arithmetic: the number of trades is the length of the ledger and
    at least 1; no trade counts both as a win and as a loss; the win rate
    is a number between 0 and 1; the average win is 0 when no trade won
    and lies above zero otherwise, the average loss is 0 when no trade
    lost and lies below zero otherwise (an infinite return, from an entry
    price of 0, gives the infinity of that sign, never a not-a-number). *)
Theorem trade_statistics_bounds (pow : xreal → xreal → xreal)
    (df : list (Row xreal)) m t :
  Backtest.calculate_metrics pow df = Return (Some (m, t)) →
  Total_Trades m = length t ∧ 1 ≤ length t
  ∧ length (Backtest.winning (Return_pct <$> t))
    + length (Backtest.losing (Return_pct <$> t)) ≤ length t
  ∧ (∃ w, Win_Rate m = Fin w ∧ (0 <= w <= 1)%R)
  ∧ (Backtest.winning (Return_pct <$> t) = [] → Avg_Win m = Fin 0)
  ∧ (Backtest.winning (Return_pct <$> t) ≠ [] → one_sided true (Avg_Win m))
  ∧ (Backtest.losing (Return_pct <$> t) = [] → Avg_Loss m = Fin 0)
  ∧ (Backtest.losing (Return_pct <$> t) ≠ [] → one_sided false (Avg_Loss m)).
Proof.
  intros Hm.
  destruct (calculate_metrics_inv pow df m t Hm) as (_ & _ & Hne & _).
  destruct (calculate_metrics_trade_stats pow df m t Hm)
    as (Hn & Hrate & Hwin & Hloss).
  pose proof (winning_losing_length (Return_pct <$> t)) as Hwl.
  rewrite length_fmap in Hwl.
  assert (Hlen : 1 ≤ length t) by (destruct t; [done|simpl; lia]).
  split; [done|]. split; [done|]. split; [done|]. split.
  { rewrite Hrate, length_fmap. cbn [fdiv fofZ xreal_Float64].
    set (w := length (Backtest.winning (Return_pct <$> t))) in *.
    assert (Hb : (0 < IZR (Z.of_nat (length t)))%R) by (apply IZR_lt; lia).
    assert (Ha : (0 <= IZR (Z.of_nat w))%R) by (apply IZR_le; lia).
    assert (Hab : (IZR (Z.of_nat w) <= IZR (Z.of_nat (length t)))%R)
      by (apply IZR_le; lia).
    rewrite xdiv_fin by lra. eexists. split; [done|].
    pose proof (Rinv_0_lt_compat _ Hb) as Hinv.
    pose proof (Rinv_r (IZR (Z.of_nat (length t))) ltac:(lra)) as Hone.
    unfold Rdiv. split; nra. }
  rewrite Hwin, Hloss. repeat split.
  - by intros ->.
  - intros Hw. destruct (Backtest.winning _) as [|x l] eqn:Heq; [done|].
    change (one_sided true (series_mean (x :: l))).
    apply one_sided_mean; [done|]. rewrite <- Heq. apply winning_one_sided.
  - by intros ->.
  - intros Hl. destruct (Backtest.losing _) as [|x l] eqn:Heq; [done|].
    change (one_sided false (series_mean (x :: l))).
    apply one_sided_mean; [done|]. rewrite <- Heq. apply losing_one_sided.
Qed.

(** Witness of X9: [Scenario.sell_on_last_row], one trade, a win. *)
Lemma trade_statistics_bounds_witness :
  ∃ m, Backtest.calculate_metrics xpow Scenario.sell_on_last_row
       = Return (Some (m, Backtest.build_trades Scenario.sell_on_last_row))
     ∧ Total_Trades m = 1
     ∧ (∃ w, Win_Rate m = Fin w ∧ (0 <= w <= 1)%R).
Proof.
  destruct (sell_on_last_row_metrics xpow) as [m Hm].
  exists m. split; [exact Hm|].
  destruct (trade_statistics_bounds xpow Scenario.sell_on_last_row m _ Hm)
    as (Hn & _ & _ & Hrate & _).
  split; [|exact Hrate]. rewrite Hn. reflexivity.
Defined.

(** X10.  What the guard of lines 20-26 of [calculate_metrics] tests, on a
    [Signal] column with values in [{1, -1, 0}]: it lets the table through
    exactly when some sell sits on the row right after a buy (a change of
    -2) and, somewhere, a buy sits right after a hold or a hold right after
    a sell (a change of 1).  When it does, the ledger loop has recorded at
    least one trade, so the second exit of lines 72-74 ("No complete trades
    found") is never taken: [calculate_metrics] returns [None] only from the
    guard. *)
Theorem guard_tests_adjacent_rows {F : Type} `{Float64 F} (pow : F → F → F)
    (df : list (Row F)) :
  Forall (λ x, x = 1 ∨ x = -1 ∨ x = 0)%Z (Signal <$> df) →
  (guard_no_trades df = false
   ↔ (∃ j, (Signal <$> df) !! j = Some 1%Z
           ∧ (Signal <$> df) !! (S j) = Some (-1)%Z)
     ∧ (∃ i, ((Signal <$> df) !! i = Some 0%Z
              ∧ (Signal <$> df) !! (S i) = Some 1%Z)
             ∨ ((Signal <$> df) !! i = Some (-1)%Z
                ∧ (Signal <$> df) !! (S i) = Some 0%Z)))
  ∧ (guard_no_trades df = false → Backtest.build_trades df ≠ [])
  ∧ (Backtest.calculate_metrics pow df = Return None
     ↔ guard_no_trades df = true).
Proof.
  intros Hvals. rewrite Forall_forall in Hvals.
  assert (Hval : ∀ j x, (Signal <$> df) !! j = Some x →
            (x = 1 ∨ x = -1 ∨ x = 0)%Z).
  { intros j x Hx. apply Hvals. by eapply list_elem_of_lookup_2. }
  assert (Hguard : guard_no_trades df = false
    ↔ (∃ j, (Signal <$> df) !! j = Some 1%Z
            ∧ (Signal <$> df) !! (S j) = Some (-1)%Z)
      ∧ (∃ i, ((Signal <$> df) !! i = Some 0%Z
               ∧ (Signal <$> df) !! (S i) = Some 1%Z)
              ∨ ((Signal <$> df) !! i = Some (-1)%Z
                 ∧ (Signal <$> df) !! (S i) = Some 0%Z))).
  { rewrite guard_passes_iff. unfold Backtest.entries, Backtest.exits.
    rewrite !signal_changes_nonempty by done. split.
    - intros [(i & x & y & Hx & Hy & Hone) (j & x' & y' & Hx' & Hy' & Htwo)].
      pose proof (Hval _ _ Hx). pose proof (Hval _ _ Hy).
      pose proof (Hval _ _ Hx'). pose proof (Hval _ _ Hy').
      split.
      + exists j. assert (x' = 1%Z ∧ y' = (-1)%Z) as [-> ->] by lia. done.
      + exists i.
        assert ((x = 0 ∧ y = 1) ∨ (x = -1 ∧ y = 0))%Z as [[-> ->]|[-> ->]]
          by lia; [by left|by right].
    - intros [(j & Hx & Hy) (i & [[Hx' Hy']|[Hx' Hy']])].
      + split; [by exists i, 0%Z, 1%Z|by exists j, 1%Z, (-1)%Z].
      + split; [by exists i, (-1)%Z, 0%Z|by exists j, 1%Z, (-1)%Z]. }
  assert (Hledger : guard_no_trades df = false → Backtest.build_trades df ≠ []).
  { intros [(j & Hx & Hy) _]%Hguard. by apply (adjacent_sell_closes_trade df j). }
  split; [done|]. split; [done|]. split.
  - intros Hnone. destruct (guard_no_trades df) eqn:Hg; [done|]. exfalso.
    specialize (Hledger eq_refl).
    unfold Backtest.calculate_metrics in Hnone. unfold guard_no_trades in Hg.
    rewrite Hg in Hnone.
    destruct (Backtest.total_return df) as [|tr]; simpl in Hnone; [done|].
    destruct (Backtest.total_days df) as [|d]; simpl in Hnone; [done|].
    destruct (Backtest.cagr pow tr d) as [|c]; simpl in Hnone; [done|].
    destruct (Backtest.build_trades df) as [|t0 ts]; simpl in Hnone; done.
  - apply calculate_metrics_guard.
Qed.

(** Witness of X10: four rows, buy, sell, buy, sell.  The ledger loop
    would record two round trips; no row follows a hold or is a hold after
    a sell, and the guard returns [None]. *)
Lemma guard_tests_adjacent_rows_witness :
  length (Backtest.build_trades
            (result_table [0; 1; 2; 3]%Z
               (fofZ (F:=float) <$> [100; 110; 100; 120]%Z)
               [true; false; true; false] [false; true; false; true])) = 2
  ∧ Backtest.calculate_metrics (λ x _ : float, x)
      (result_table [0; 1; 2; 3]%Z (fofZ <$> [100; 110; 100; 120]%Z)
         [true; false; true; false] [false; true; false; true])
    = Return None.
Proof.
  split; [by vm_compute|].
  apply (guard_tests_adjacent_rows (λ x _ : float, x)
           (result_table [0; 1; 2; 3]%Z (fofZ <$> [100; 110; 100; 120]%Z)
              [true; false; true; false] [false; true; false; true])).
  - vm_compute. repeat constructor; lia.
  - by vm_compute.
Defined.

(** X11.  What the window shows after [main] has returned: the label
    "No trades executed" of [display_results] is never shown.  When
    [calculate_metrics] found no trades, [main] returns
    [(None, None, strategy_df)], whose second component is [None] and not an
    empty ledger, the test of line 118 fails, and [metrics.items()] raises
    AttributeError on [None] (which [run_backtest] reports as an error).
    The grid of metrics is reached exactly when [calculate_metrics]
    returned metrics, and shows those. *)
Theorem no_trades_run_ends_in_error {F : Type} `{Float64 F} (pow : F → F → F)
    (generate_signals : list (Bar.t F) → list (Row F)) (df : list (Bar.t F)) r :
  Main.main pow generate_signals df = Return r →
  Main.display_results r ≠ Main.No_trades_executed
  ∧ (Main.display_results r = Main.AttributeError
     ↔ Backtest.calculate_metrics pow (generate_signals df) = Return None)
  ∧ (∀ m, Main.display_results r = Main.Metrics_grid m
          ↔ ∃ t, Backtest.calculate_metrics pow (generate_signals df)
                 = Return (Some (m, t))).
Proof.
  unfold Main.main.
  destruct (Backtest.calculate_metrics pow (generate_signals df))
    as [e|[[m t]|]] eqn:Hm; simpl; [done| |].
  - intros Hr. injection Hr as <-.
    destruct (calculate_metrics_inv pow _ m t Hm) as (_ & _ & Hne & _).
    unfold Main.display_results.
    rewrite bool_decide_eq_false_2 by (by destruct t).
    split; [done|]. split; [done|].
    intros m'. split.
    + intros Heq. injection Heq as <-. by exists t.
    + intros (t' & Heq). by injection Heq as <- _.
  - intros Hr. injection Hr as <-. simpl.
    split; [done|]. split; [done|].
    intros m'. split; [done|]. by intros (t' & ?).
Qed.

(** Witness of X11: strategy1 on [Scenario.close_outside_range], a table of
    one row and no trades. *)
Lemma no_trades_run_ends_in_error_witness :
  ∃ r, Main.main (λ x _ : float, x) Strategy1.generate_signals
         Scenario.close_outside_range = Return r
     ∧ Main.display_results r = Main.AttributeError.
Proof.
  eexists. split; [by vm_compute|].
  apply (no_trades_run_ends_in_error (λ x _ : float, x)
           Strategy1.generate_signals Scenario.close_outside_range);
    by vm_compute.
Defined.

(** X13.  The rows of the table [generate_signals] returns are input bars,
    in input order, each at most once, with the bar's own date and close,
    and none of them from the warm-up: strategy1 never returns one of the
    first 24 bars (its 25-day mean range is missing there), strategy4 never
    one of the first 199 (200-day mean).  No row is invented, moved or
    repeated by the drop of missing values and the reset of the index. *)
Theorem table_rows_are_bars_after_warm_up {F : Type} `{Float64Laws F}
    (df : list (Bar.t F)) :
  (λ r, (Date r, Close r)) <$> Strategy1.generate_signals df
  `sublist_of` (λ b, (Bar.Date b, Bar.Close b)) <$> drop 24 df
  ∧ (λ r, (Date r, Close r)) <$> Strategy4.generate_signals df
    `sublist_of` (λ b, (Bar.Date b, Bar.Close b)) <$> drop 199 df.
Proof.
  split; [apply strategy1_rows_sublist|apply strategy4_rows_sublist].
Qed.

(** X14.  In binary64, on bars whose dates strictly increase and lie within
    [max_span] days of each other (more than the twenty years [get_data]
    downloads), [main] returns for both strategies without raising: the
    dates of the strategy table are dates of the bars, in their order, so
    when the guard of [calculate_metrics] has passed the number of years of
    line 34 is not 0 and [1 / num_years] does not raise; nothing else in
    [calculate_metrics] can.  (The download before and the chart after are
    outside [Main.main].) *)
Theorem main_returns_on_dated_bars (pow : float → float → float)
    (df : list (Bar.t float)) (first_day : Z) :
  StronglySorted Z.lt (Bar.Date <$> df) →
  Forall (λ b, first_day ≤ Bar.Date b ≤ first_day + max_span)%Z df →
  (∃ r, Main.main pow Strategy1.generate_signals df = Return r)
  ∧ (∃ r, Main.main pow Strategy4.generate_signals df = Return r).
Proof.
  intros Hsorted Hrange.
  destruct (strategy_tables_dates df Hsorted) as [H1 H4].
  destruct (strategy_tables_date_sublist df) as [S1 S4].
  assert (Hgen : ∀ gs : list (Bar.t float) → list (Row float),
            dates_increasing (gs df) →
            Date <$> gs df `sublist_of` Bar.Date <$> df →
            ∃ r, Main.main pow gs df = Return r).
  { intros gs Hinc Hsub.
    destruct (calculate_metrics_returns_binary64 pow (gs df) first_day Hinc)
      as [r Hr].
    - apply Forall_forall. intros d Hd.
      pose proof (elem_of_sublist _ _ _ Hd Hsub) as Hin.
      apply list_elem_of_fmap in Hin as (b & -> & Hb).
      rewrite Forall_forall in Hrange. by apply Hrange.
    - unfold Main.main. rewrite Hr. simpl.
      destruct r as [[m t]|]; by eexists. }
  split; by apply Hgen.
Qed.

(** Witness of X14: [Scenario.traded_bars], 28 daily bars on which
    strategy1 buys on day 25 and sells on day 26: the guard passes, the
    number of years is 3 / 365, and [main] returns the metrics and a ledger
    of one trade. *)
Lemma main_returns_on_dated_bars_witness :
  (∃ m t s, Main.main (λ x _ : float, x) Strategy1.generate_signals
              Scenario.traded_bars = Return (Some m, Some t, s)
            ∧ length t = 1 ∧ date_span s = 3%Z)
  ∧ (∃ r, Main.main (λ x _ : float, x) Strategy1.generate_signals
            Scenario.traded_bars = Return r)
  ∧ (∃ r, Main.main (λ x _ : float, x) Strategy4.generate_signals
            Scenario.traded_bars = Return r).
Proof.
  split.
  { eexists _, _, _. split; [vm_compute; reflexivity|].
    split; vm_compute; reflexivity. }
  apply (main_returns_on_dated_bars (λ x _ : float, x)
           Scenario.traded_bars 0).
  - vm_compute. repeat constructor.
  - vm_compute. repeat constructor; discriminate.
Defined.

(** Witness of X13, in binary64: the 25 bars of
    [Scenario.close_outside_range], of which strategy1 returns the last. *)
Lemma table_rows_are_bars_after_warm_up_witness :
  (λ r, (Date r, Close r))
    <$> Strategy1.generate_signals Scenario.close_outside_range
  `sublist_of` (λ b, (Bar.Date b, Bar.Close b))
                 <$> drop 24 Scenario.close_outside_range
  ∧ (λ r, (Date r, Close r))
      <$> Strategy4.generate_signals Scenario.close_outside_range
    `sublist_of` (λ b, (Bar.Date b, Bar.Close b))
                   <$> drop 199 Scenario.close_outside_range.
Proof.
  apply (table_rows_are_bars_after_warm_up Scenario.close_outside_range).
Defined.
